(** * Model 3D exporter (io_export_m3d.py): a shallow embedding of the encoder

  The development follows [write_m3d] of [src/io_export_m3d.py] block by
  block.  Conventions used throughout:

  - Python integers are [Z]; list positions are [nat].
  - Python floats are idealised as canonical rationals [Qc]: arithmetic is
    exact and [==] on floats is Leibniz equality.  [round(x)] and
    [round(x, n)] are round-half-to-even on the exact value, [int(x)]
    truncates towards zero.  There is no negative zero in [Qc], so the
    source's [vert] helper (which only rewrites [-0.0] to [0.0]) is the
    identity on the model and is kept as a plain constructor.  The times
    of the animation frames are the exception: there the rounding of
    every float operation is a parameter, [Floats.binary64] being the one
    of the machine.
  - a Python [str] is the string of its UTF-8 bytes.
  - byte strings are [list byte]; [struct.pack] is partial ([None] stands
    for [struct.error]).
  - Python dictionaries whose iteration order is observable are association
    lists in insertion order; dictionaries that are only looked up are
    [gmap]s. *)

From Stdlib Require Import ZArith QArith Qcanon Qround Qpower Qabs List Strings.Ascii Strings.String
  Strings.Byte Lia Lqa.
From stdpp Require Import base option list numbers strings pretty gmap sorting.

Local Open Scope Z_scope.

(** Numerals of [Qc] stay folded under [simpl]. *)
#[global] Arguments Qc_of_Z : simpl never.
#[global] Arguments Q2Qc : simpl never.

(** ** Numbers shared by all blocks *)

Module Num.

(** [int(x)] on a float: truncation towards zero. *)
Definition py_int (x : Qc) : Z :=
  if decide (0 ≤ x)%Qc then Qfloor x else Qceiling x.

(** [round(x)] with no digits: nearest integer, ties to the even one. *)
Definition py_round (x : Qc) : Z :=
  let f := Qfloor x in
  let d := (x - Qc_of_Z f)%Qc in
  let half := Q2Qc (1 # 2) in
  if decide (d < half)%Qc then f
  else if decide (half < d)%Qc then f + 1
  else if Z.even f then f else f + 1.

(** [round(x, digits)]. *)
Definition py_round_nd (x : Qc) (digits : Z) : Qc :=
  let p := Qc_of_Z (10 ^ digits) in
  (Qc_of_Z (py_round (x * p)) / p)%Qc.

Definition Qc_sum (l : list Qc) : Qc := fold_right Qcplus (Qc_of_Z 0) l.

Definition Z_sum (l : list Z) : Z := fold_right Z.add 0 l.

Definition Qc_abs (x : Qc) : Qc := if decide (x < 0)%Qc then (- x)%Qc else x.

Definition Qc_max (x y : Qc) : Qc := if decide (x < y)%Qc then y else x.

End Num.

(** ** The arithmetic of the frame times *)

Module Floats.
Import Num.

(** [2.0 ** e] *)
Definition pow2 (e : Z) : Qc := Q2Qc (2 ^ e)%Q.

(** The exponent of the power of two at or below [|x|], for [x] other
    than 0. *)
Definition ilog2 (x : Qc) : Z :=
  let d := Z.log2 (Z.abs (Qnum x)) - Z.log2 (Zpos (Qden x)) in
  if decide (Qc_abs x < pow2 d)%Qc then d - 1 else d.

(** A rounding gives the float that stands for a real number; [None]
    when there is none, the number being beyond the largest float. *)

(** No rounding: the arithmetic of the reals. *)
Definition exact : Qc -> option Qc := Some.

(** The rounding of the machine: the nearest number with a significand
    of 53 bits, ties going to the even significand, with the exponents of
    the IEEE double format (gradual underflow below [2 ** -1022], nothing
    from [2 ** 1024] on). *)
Definition binary64 (x : Qc) : option Qc :=
  if decide (x = Qc_of_Z 0) then Some x
  else
    let e := Z.max (ilog2 x - 52) (-1074) in
    let y := (Qc_of_Z (py_round (x / pow2 e)) * pow2 e)%Qc in
    if decide (Qc_abs y < pow2 1024)%Qc then Some y else None.

End Floats.

(** ** Option preprocessing (source lines 288-324) *)

Module Options.

Inductive ob_kind := MESH | ARMATURE | OTHER.

(** What the preprocessing reads of a Blender object. *)
Record object := {
  ob_instanced : bool;   (* ob.parent and ob.parent.instance_type in {'VERTS','FACES'} *)
  ob_type : ob_kind;
  ob_polygons : Z        (* len(ob.data.polygons) *)
}.

(** The keyword arguments of [write_m3d] that the block reads;
    [use_quality] is the value of [int(use_quality)]. *)
Record args := {
  use_skeleton : bool;
  use_animation : bool;
  use_fps : Z;
  use_quality : Z;
  use_gridcompress : bool
}.

(** The locals after the block.  [digits] is [None] while the Python
    local is unbound. *)
Record settings := {
  s_use_skeleton : bool;
  s_use_animation : bool;
  s_use_fps : Z;
  s_use_quality : Z;
  s_digits : option Z
}.

(** [if use_animation: use_skeleton = True] *)
Definition force_skeleton (a : args) : bool :=
  if use_animation a then true else use_skeleton a.

(** [if use_fps < 1 or use_fps > 120: use_fps = 25] *)
Definition clamp_fps (fps : Z) : Z :=
  if (fps <? 1) || (fps >? 120) then 25 else fps.

(** The triangle count of the auto selection. *)
Fixpoint count_polygons (objects : list object) (n : Z) : Z :=
  match objects with
  | [] => n
  | ob :: rest =>
      if ob_instanced ob then count_polygons rest n
      else match ob_type ob with
           | MESH => count_polygons rest (n + ob_polygons ob)
           | _ => count_polygons rest n
           end
  end.

Definition select_quality (objects : list object) (q : Z) (gridcompress : bool) : Z :=
  let q :=
    if (q <? 0) || (q >? 3) then
      if count_polygons objects 0 <? 1024 then 0 else 1
    else q in
  (* we must use floating point without grid compression *)
  if negb gridcompress && (q <? 2) then 2 else q.

(** The three statements of lines 319-324, in order: an [if] without
    [else], then an independent [if]/[else]. *)
Definition digits_of_quality (q : Z) : option Z :=
  let digits : option Z := None in
  let digits := if q =? 3 then Some 15 else digits in
  let digits := if q =? 2 then Some 7 else Some 4 in
  digits.

Definition preprocess (objects : list object) (a : args) : settings :=
  let q := select_quality objects (use_quality a) (use_gridcompress a) in
  {| s_use_skeleton := force_skeleton a;
     s_use_animation := use_animation a;
     s_use_fps := clamp_fps (use_fps a);
     s_use_quality := q;
     s_digits := digits_of_quality q |}.

End Options.

(** ** Index widths and index fields (source lines 169-196) *)

Module Index.

(** [idxsize]: the two-bit width code stored in the header flags. *)
Definition idxsize (cnt : Z) : Z :=
  if cnt =? 0 then 3
  else if cnt <? 254 then 0
  else if cnt <? 65534 then 1
  else 2.

Definition byte_of_Z (v : Z) : byte :=
  match Byte.of_N (Z.to_N (v mod 256)) with
  | Some b => b
  | None => Byte.x00
  end.

Definition Z_of_byte (b : byte) : Z := Z.of_N (Byte.to_N b).

(** [n] bytes of [v], least significant first. *)
Fixpoint le_bytes (n : nat) (v : Z) : list byte :=
  match n with
  | O => []
  | S k => byte_of_Z v :: le_bytes k (v / 256)
  end.

(** The unsigned value a reader recovers from little-endian bytes. *)
Fixpoint le_value (bs : list byte) : Z :=
  match bs with
  | [] => 0
  | b :: rest => Z_of_byte b + 256 * le_value rest
  end.

(** [pack("<B" | "<H" | "<I" | "<L", v)]: [struct.error] outside the range. *)
Definition pack_unsigned (n : nat) (v : Z) : option (list byte) :=
  if (0 <=? v) && (v <? 256 ^ Z.of_nat n) then Some (le_bytes n v) else None.

(** [pack("<b" | "<h", v)]: two's complement, [struct.error] outside the range. *)
Definition pack_signed (n : nat) (v : Z) : option (list byte) :=
  let half := 256 ^ Z.of_nat n / 2 in
  if (- half <=? v) && (v <? half) then Some (le_bytes n (v mod 256 ^ Z.of_nat n)) else None.

(** [addidx]: an index field of width code [fmt]; [b''] for any other code. *)
Definition addidx (fmt : Z) (idx : Z) : option (list byte) :=
  if fmt =? 0 then
    let idx := if idx <? 0 then 256 + idx else idx in
    pack_unsigned 1 idx
  else if fmt =? 1 then
    let idx := if idx <? 0 then 65536 + idx else idx in
    pack_unsigned 2 idx
  else if fmt =? 2 then
    let idx := if idx <? 0 then 4294967296 + idx else idx in
    pack_unsigned 4 idx
  else Some [].

(** Bytes written per index field for a width code. *)
Definition idx_bytes (fmt : Z) : nat :=
  if fmt =? 0 then 1%nat else if fmt =? 1 then 2%nat else if fmt =? 2 then 4%nat else 0%nat.

End Index.

(** ** Interning tables (source lines 143-167) and the pooled records *)

Module Tables.

(** A Python [dict] in insertion order: key, then the stored
    [[index, element]] pair.  Keys are unique. *)
Abbreviation dict K E := (list (K * (Z * E))) (only parsing).

Section Dict.
Context {K E : Type} `{EqDecision K}.

Fixpoint dict_get (k : K) (l : dict K E) : option (Z * E) :=
  match l with
  | [] => None
  | (k', v) :: rest => if decide (k = k') then Some v else dict_get k rest
  end.

(** [l[k] = v]: replaces in place, or appends a new key. *)
Fixpoint dict_set (k : K) (v : Z * E) (l : dict K E) : dict K E :=
  match l with
  | [] => [(k, v)]
  | (k', v') :: rest =>
      if decide (k = k') then (k', v) :: rest else (k', v') :: dict_set k v rest
  end.

Definition py_len {A} (l : list A) : Z := Z.of_nat (length l).

(** [list.insert(i, x)] for [0 <= i]: before position [i], at the end
    when [i] is past it. *)
Definition py_insert {A} (r : list A) (i : Z) (x : A) : list A :=
  take (Z.to_nat i) r ++ x :: drop (Z.to_nat i) r.

(** [dict2list]. *)
Definition dict2list (l : dict K E) : list E :=
  fold_left (fun r kv => py_insert r (fst (snd kv)) (snd (snd kv))) l [].

(** The stored indices count the entries from [n] on, in order. *)
Fixpoint sequential (n : nat) (l : dict K E) : Prop :=
  match l with
  | [] => True
  | (_, (i, _)) :: rest => i = Z.of_nat n ∧ sequential (S n) rest
  end.
End Dict.

Section Unique.
Context {E : Type}.
(** [hash(str(e))] *)
Variable hash_str : E -> Z.

(** [uniquedict]: the index of the entry stored under the hash of [e],
    a new entry with the next index when there is none. *)
Definition uniquedict (l : dict Z E) (e : E) : Z * dict Z E :=
  let h := hash_str e in
  match dict_get h l with
  | Some (i, _) => (i, l)
  | None => let i := py_len l in (i, dict_set h (i, e) l)
  end.
End Unique.

(** [l[i]] on a list: negative positions count from the end,
    [None] is [IndexError]. *)
Definition py_nth {A} (l : list A) (i : Z) : option A :=
  if i <? 0 then
    if - i <=? py_len l then l !! Z.to_nat (py_len l + i) else None
  else l !! Z.to_nat i.

Record color := { cr : Qc; cg : Qc; cb : Qc; ca : Qc }.

(** [[x, y, z, w, c, s]]; [vs = -2] marks an orientation quaternion,
    [vs = -1] a position without skin. *)
Record vertex := { vx : Qc; vy : Qc; vz : Qc; vw : Qc; vc : Z; vs : Z }.

(** The [vert] helper: the value is already free of negative zero. *)
Definition vert (x y z w : Qc) (c s : Z) : vertex :=
  {| vx := x; vy := y; vz := z; vw := w; vc := c; vs := s |}.

Record uv := { tu : Qc; tv : Qc }.

(** [[materialRef, [3] vertex ids, [3] uv ids, [3] normal ids]] *)
Record face := { f_mat : Z; f_v : list Z; f_t : list Z; f_n : list Z }.

(** [[parent, name strid, pos vertexid, ori vertexid]] *)
Record bone := { b_parent : Z; b_name : Z; b_pos : Z; b_ori : Z }.

(** A skin: [[boneid, weight]] pairs. *)
Abbreviation skin := (list (Z * Z)) (only parsing).

Inductive propval :=
| PRef (i : Z)       (* colour or string index *)
| PFloat (x : Qc)
| PByte (n : Z).

(** A material's [props]: a dict from property code to [[code, value]],
    in insertion order. *)
Abbreviation props := (list (Z * propval)) (only parsing).

Record material := { m_name : Z; m_props : props }.

(** [[boneid, pos vertexid, ori vertexid]] *)
Record delta := { d_bone : Z; d_pos : Z; d_ori : Z }.

(** [[timestamp msec, changed]] *)
Record frame := { fr_time : Z; fr_changed : list delta }.

(** [[name strid, duration msec, frames]] *)
Record action := { a_name : Z; a_duration : Z; a_frames : list frame }.

Record asset := { as_name : Z; as_data : list byte }.

(** The lists after the conversion of lines 775-781. *)
Record tables := {
  cmap : list color;
  strs : list string;
  verts : list vertex;
  tmaps : list uv;
  bones : list bone;
  skins : list skin;
  inlined : list asset
}.

(** Structural equality of the pooled records is decidable. *)
#[global] Instance byte_eq_dec : EqDecision byte := Byte.byte_eq_dec.
#[global] Instance color_eq_dec : EqDecision color.
Proof. solve_decision. Defined.
#[global] Instance vertex_eq_dec : EqDecision vertex.
Proof. solve_decision. Defined.
#[global] Instance uv_eq_dec : EqDecision uv.
Proof. solve_decision. Defined.
#[global] Instance face_eq_dec : EqDecision face.
Proof. solve_decision. Defined.
#[global] Instance bone_eq_dec : EqDecision bone.
Proof. solve_decision. Defined.
#[global] Instance propval_eq_dec : EqDecision propval.
Proof. solve_decision. Defined.
#[global] Instance material_eq_dec : EqDecision material.
Proof. solve_decision. Defined.
#[global] Instance delta_eq_dec : EqDecision delta.
Proof. solve_decision. Defined.
#[global] Instance frame_eq_dec : EqDecision frame.
Proof. solve_decision. Defined.
#[global] Instance action_eq_dec : EqDecision action.
Proof. solve_decision. Defined.
#[global] Instance asset_eq_dec : EqDecision asset.
Proof. solve_decision. Defined.
#[global] Instance tables_eq_dec : EqDecision tables.
Proof. solve_decision. Defined.

End Tables.


(** ** Skin weights of one vertex (source lines 507-544) *)

Module Skin.
Import Num Tables.

(** A [v.groups] element. *)
Record group := { g_group : Z; g_weight : Qc }.

(** The locals that survive from one vertex to the next.  [si] is a
    function-level local: it is unbound ([None]) until the first
    assignment and keeps its last value afterwards. *)
Record state := {
  use_skeleton : bool;
  vg : list string;            (* names of [ob.vertex_groups]; emptied on failure *)
  si : option nat;
  skins : dict Z skin;
  nb_m : Z;
  reports : list string
}.

(** [bones[vg[g.group].name][0]] *)
Inductive lookup := Found (i : Z) | NoBone (name : string) | BadGroup.

Definition bone_of_group (bones : dict string bone) (vg : list string) (g : group) : lookup :=
  match py_nth vg (g_group g) with
  | None => BadGroup
  | Some name =>
      match dict_get name bones with
      | Some (i, _) => Found i
      | None => NoBone name
      end
  end.

(** The locals of the loop over [v.groups]. *)
Record acc := { a_skin : skin; a_w : Z; a_wm : Z; a_si : option nat }.

Inductive loop_end :=
| Done
| Break (name : string)   (* the handler ran: reported, then [break] *)
| Crash.                  (* the handler itself raised on [vg[g.group]] *)

(** [round(g.weight / wf * 255.0)] *)
Definition rounded (wf : Qc) (g : group) : Z :=
  py_round (g_weight g / wf * Qc_of_Z 255)%Qc.

(** [if s < 1: s = 1] and [if s > 255: s = 255] *)
Definition clamp (s : Z) : Z :=
  let s := if s <? 1 then 1 else s in
  if 255 <? s then 255 else s.

Fixpoint weigh (bones : dict string bone) (vg : list string) (wf : Qc)
    (gs : list group) (a : acc) : acc * loop_end :=
  match gs with
  | [] => (a, Done)
  | g :: rest =>
      let s := rounded wf g in
      let a := if a_wm a <? s
               then {| a_skin := a_skin a; a_w := a_w a; a_wm := s;
                       a_si := Some (length (a_skin a)) |}
               else a in
      let s := clamp s in
      match bone_of_group bones vg g with
      | Found b =>
          weigh bones vg wf rest
            {| a_skin := a_skin a ++ [(b, s)]; a_w := a_w a + s;
               a_wm := a_wm a; a_si := a_si a |}
      | NoBone name => (a, Break name)
      | BadGroup => (a, Crash)
      end
  end.

(** [if w != 255: skin[si][1] += 255 - w], any exception swallowed. *)
Definition absorb (sk : skin) (w : Z) (si : option nat) : skin :=
  if w =? 255 then sk
  else match si with
       | None => sk
       | Some i =>
           match sk !! i with
           | Some (b, x) => <[i := (b, x + (255 - w))]> sk
           | None => sk
           end
       end.

Definition sum_weights (gs : list group) : Qc :=
  fold_left (fun wf g => (wf + g_weight g)%Qc) gs (Qc_of_Z 0).

Section Vertex.
Variable hash_str : skin -> Z.
Variable bones : dict string bone.

(** The skin reference [s] of one vertex and the state after it;
    [None] when an exception leaves [write_m3d]. *)
Definition vertex_skin (groups : list group) (st : state) : option (Z * state) :=
  if use_skeleton st && (0 <? py_len (vg st)) && (0 <? py_len groups) then
    let wf := sum_weights groups in
    if decide (Qc_of_Z 0 < wf)%Qc then
      let '(a, e) := weigh bones (vg st) wf groups
                       {| a_skin := []; a_w := 0; a_wm := 0; a_si := si st |} in
      let after_loop :=
        match e with
        | Done => Some (use_skeleton st, vg st, reports st)
        | Break name =>
            Some (false, [],
                  reports st ++ [("Vertex group name '" +:+ name +:+ "' does not match any bone.")%string])
        | Crash => None
        end in
      match after_loop with
      | None => None
      | Some (us, vg', rep) =>
          let sk := absorb (a_skin a) (a_w a) (a_si a) in
          let '(s, skins') := uniquedict hash_str (skins st) sk in
          let nb := if nb_m st <? py_len sk then py_len sk else nb_m st in
          Some (s, {| use_skeleton := us; vg := vg'; si := a_si a;
                      skins := skins'; nb_m := nb; reports := rep |})
      end
    else Some (-1, st)
  else Some (-1, st).
End Vertex.

(** The stored weights of a skin. *)
Definition weights (sk : skin) : list Z := map snd sk.

Definition total (sk : skin) : Z := fold_right Z.add 0 (weights sk).

(** What holds of the locals of the loop after the groups [gs]: the
    skin holds their clamped weights, [w] is their sum, [wm] bounds their
    rescaled weights and is one of them unless it is still 0, and [si]
    points at the entry of a positive [wm]. *)
Definition weighed (wf : Qc) (gs : list group) (a : acc) : Prop :=
  weights (a_skin a) = map (fun g => clamp (rounded wf g)) gs
  ∧ a_w a = Z_sum (map (fun g => clamp (rounded wf g)) gs)
  ∧ Forall (fun g => rounded wf g ≤ a_wm a) gs
  ∧ (a_wm a = 0 ∨ a_wm a ∈ map (rounded wf) gs)
  ∧ (0 < a_wm a → ∃ i b, a_si a = Some i ∧ a_skin a !! i = Some (b, clamp (a_wm a))).

End Skin.

(** ** Grid compression (source lines 816-843) *)

Module Grid.
Import Num Tables.

Record extent := {
  min_x : Qc; max_x : Qc; min_y : Qc; max_y : Qc; min_z : Qc; max_z : Qc
}.

Definition big : Qc := Qc_of_Z (10 ^ 10).

Definition extent0 : extent :=
  {| min_x := big; max_x := (- big)%Qc; min_y := big; max_y := (- big)%Qc;
     min_z := big; max_z := (- big)%Qc |}.

Definition lower (m x : Qc) : Qc := if decide (x < m)%Qc then x else m.
Definition upper (m x : Qc) : Qc := if decide (m < x)%Qc then x else m.

(** One iteration of [for v in verts]: every pooled entry is looked at. *)
Definition widen (e : extent) (v : vertex) : extent :=
  {| min_x := lower (min_x e) (vx v); max_x := upper (max_x e) (vx v);
     min_y := lower (min_y e) (vy v); max_y := upper (max_y e) (vy v);
     min_z := lower (min_z e) (vz v); max_z := upper (max_z e) (vz v) |}.

Definition bounds (verts : list vertex) : extent := fold_left widen verts extent0.

(** [max(abs(min_x), abs(max_x), abs(min_y), abs(max_y), abs(min_z), abs(max_z))] *)
Definition extent_scale (e : extent) : Qc :=
  fold_left Qc_max
    [Qc_abs (max_x e); Qc_abs (min_y e); Qc_abs (max_y e); Qc_abs (min_z e); Qc_abs (max_z e)]
    (Qc_abs (min_x e)).

Definition grid_scale (verts : list vertex) : Qc := extent_scale (bounds verts).

(** The body of the rescaling loop for one entry. *)
Definition rescale (s : Qc) (digits : Z) (v : vertex) : vertex :=
  if vs v =? -2 then v
  else {| vx := py_round_nd (vx v / s) digits;
          vy := py_round_nd (vy v / s) digits;
          vz := py_round_nd (vz v / s) digits;
          vw := vw v; vc := vc v; vs := vs v |}.

(** Lines 816-843: the vertex list and [use_scale] afterwards. *)
Definition normalize (use_gridcompress : bool) (digits : Z) (use_scale : Qc)
    (verts : list vertex) : list vertex * Qc :=
  let '(verts, use_scale) :=
    if use_gridcompress then
      let s := grid_scale verts in
      let verts :=
        if negb (bool_decide (s = Qc_of_Z 1)) && negb (bool_decide (s = Qc_of_Z 0))
        then map (rescale s digits) verts else verts in
      (verts, if decide (use_scale ≤ Qc_of_Z 0)%Qc then s else use_scale)
    else (verts, use_scale) in
  (verts, if decide (use_scale ≤ Qc_of_Z 0)%Qc then Qc_of_Z 1 else use_scale).

(** Modelled from the spec's words, for comparison: the bounding extent
    of the position-kind entries only ([skinRef != -2]). *)
Definition position_kind (v : vertex) : bool := negb (vs v =? -2).

Definition spec_scale (verts : list vertex) : Qc :=
  extent_scale (bounds (filter (fun v => position_kind v = true) verts)).

End Grid.


(** ** Names (source lines 127-139) *)

Module Names.

Definition chr (n : nat) : ascii := Ascii.ascii_of_nat n.

Definition CR : ascii := chr 13.
Definition LF : ascii := chr 10.

(** A Python [str] is held as its UTF-8 bytes.  The characters that
    [str.isspace] accepts, each as its bytes: U+0009..U+000D,
    U+001C..U+0020, U+0085, U+00A0, U+1680, U+2000..U+200A, U+2028,
    U+2029, U+202F, U+205F and U+3000. *)
Definition spaces : list (list ascii) :=
  map (map chr)
    [ [9]; [10]; [11]; [12]; [13]; [28]; [29]; [30]; [31]; [32];
      [194; 133]; [194; 160]; [225; 154; 128];
      [226; 128; 128]; [226; 128; 129]; [226; 128; 130]; [226; 128; 131];
      [226; 128; 132]; [226; 128; 133]; [226; 128; 134]; [226; 128; 135];
      [226; 128; 136]; [226; 128; 137]; [226; 128; 138];
      [226; 128; 168]; [226; 128; 169]; [226; 128; 175];
      [226; 129; 159]; [227; 128; 128] ]%nat.

(** [s.replace(a, b)] for a single character [a]. *)
Definition replace (a : ascii) (b : list ascii) (s : list ascii) : list ascii :=
  flat_map (fun c => if Ascii.eqb c a then b else [c]) s.

Fixpoint starts_with (w s : list ascii) : bool :=
  match w, s with
  | [], _ => true
  | a :: w, b :: s => Ascii.eqb a b && starts_with w s
  | _ :: _, [] => false
  end.

(** Drops the words of [ws] from the front of [s] as long as one of
    them is there; [fuel] bounds the number of words dropped. *)
Fixpoint lstrip_by (ws : list (list ascii)) (fuel : nat) (s : list ascii) : list ascii :=
  match fuel with
  | O => s
  | S fuel =>
      match find (fun w => starts_with w s) ws with
      | Some w => lstrip_by ws fuel (drop (length w) s)
      | None => s
      end
  end.

(** [s.lstrip()], [s.rstrip()] and [s.strip()]: white space is taken
    from the ends a character at a time. *)
Definition lstrip (s : list ascii) : list ascii := lstrip_by spaces (length s) s.

Definition rstrip (s : list ascii) : list ascii :=
  rev (lstrip_by (map (@rev ascii) spaces) (length s) (rev s)).

Definition strip (s : list ascii) : list ascii := rstrip (lstrip s).

(** [safestr(name, morelines)] *)
Definition safestr (name : option string) (morelines : Z) : string :=
  match name with
  | None => EmptyString
  | Some name =>
      let s := list_ascii_of_string name in
      string_of_list_ascii
        (if morelines =? 3 then strip (replace CR [] s)
         else if morelines =? 2 then strip (replace LF [chr 32] (replace CR [] s))
         else if morelines =? 1 then strip (replace LF [CR; LF] (replace CR [] s))
         else strip (replace LF [chr 32] (replace CR []
                (replace (chr 92) [chr 95] (replace (chr 47) [chr 95]
                (replace (chr 32) [chr 95] s))))))
  end.

End Names.

(** ** Material properties (source lines 567-652) *)

Module Material.
Import Num Tables.

(** [mat_property_map]: code, then format, wrapper attribute and ASCII
    keyword, in the order of the source. *)
Definition mat_property_map : list (Z * (string * string * string)) :=
  [ (0, ("color", "base_color", "Kd"));
    (1, ("gscale", "metallic", "Ka"));
    (2, ("gscale", "specular", "Ks"));
    (3, ("color", "specular_tint", "Ns"));
    (4, ("//color", "emissive", "Ke"));
    (5, ("gscale", "transmission", "Tf"));
    (6, ("float", "normalmap_strength", "Km"));
    (7, ("float", "alpha", "d"));
    (8, ("//byte", "illumination", "il"));
    (64, ("float", "roughness", "Pr"));
    (65, ("float", "metallic", "Pm"));
    (66, ("//float", "sheen", "Ps"));
    (67, ("float", "ior", "Ni"));
    (128, ("map", "base_color_texture", "map_Kd"));
    (130, ("//map", "specular_texture", "map_Ks"));
    (133, ("map", "transmission_texture", "map_Tf"));
    (134, ("map", "normalmap_texture", "map_Km"));
    (135, ("map", "alpha_texture", "map_D"));
    (192, ("map", "roughness_texture", "map_Pr"));
    (193, ("map", "metallic_texture", "map_Pm"));
    (195, ("map", "ior_texture", "map_Ni")) ]%string.

(** [mat_property_map[code]]; [None] is [KeyError]. *)
Definition property_entry (code : Z) : option (string * string * string) :=
  snd <$> find (fun e => fst e =? code) mat_property_map.

Definition fmt_of (t : string * string * string) : string := fst (fst t).
Definition attr_of (t : string * string * string) : string := snd (fst t).
Definition ascii_of (t : string * string * string) : string := snd t.

(** The values a wrapper attribute can hold. *)
Inductive pyval :=
| VFloat (x : Qc)
| VSeq (xs : list Qc)             (* a colour *)
| VTex (image : option string).   (* a texture wrapper and the name of its image, if any *)

(** What the exporter reads of a [PrincipledBSDFWrapper].  A texture
    attribute is [None] when the property returns [None]. *)
Record wrapper := {
  base_color : list Qc;
  metallic : Qc;
  specular : Qc;
  specular_tint : pyval;
  transmission : Qc;
  normalmap_strength : Qc;
  alpha : Qc;
  roughness : Qc;
  ior : Qc;
  base_color_texture : option (option string);
  transmission_texture : option (option string);
  normalmap_texture : option (option string);
  alpha_texture : option (option string);
  roughness_texture : option (option string);
  metallic_texture : option (option string);
  ior_texture : option (option string)
}.

(** [getattr(mat_wrap, name, None)] *)
Definition getattr (w : wrapper) (name : string) : option pyval :=
  if bool_decide (name = "base_color"%string) then Some (VSeq (base_color w))
  else if bool_decide (name = "metallic"%string) then Some (VFloat (metallic w))
  else if bool_decide (name = "specular"%string) then Some (VFloat (specular w))
  else if bool_decide (name = "specular_tint"%string) then Some (specular_tint w)
  else if bool_decide (name = "transmission"%string) then Some (VFloat (transmission w))
  else if bool_decide (name = "normalmap_strength"%string) then Some (VFloat (normalmap_strength w))
  else if bool_decide (name = "alpha"%string) then Some (VFloat (alpha w))
  else if bool_decide (name = "roughness"%string) then Some (VFloat (roughness w))
  else if bool_decide (name = "ior"%string) then Some (VFloat (ior w))
  else if bool_decide (name = "base_color_texture"%string) then VTex <$> base_color_texture w
  else if bool_decide (name = "transmission_texture"%string) then VTex <$> transmission_texture w
  else if bool_decide (name = "normalmap_texture"%string) then VTex <$> normalmap_texture w
  else if bool_decide (name = "alpha_texture"%string) then VTex <$> alpha_texture w
  else if bool_decide (name = "roughness_texture"%string) then VTex <$> roughness_texture w
  else if bool_decide (name = "metallic_texture"%string) then VTex <$> metallic_texture w
  else if bool_decide (name = "ior_texture"%string) then VTex <$> ior_texture w
  else None.

(** What the pass reads of a Blender material. *)
Record blender_material := {
  mat_name : string;
  (* the first TEX_IMAGE node of the node tree with a named image *)
  mat_node_image : option string;
  (* [PrincipledBSDFWrapper(mat)], [None] when it is falsy *)
  mat_wrap : option wrapper
}.

(** [props[k] = [k, v]]: in place when the code is there, appended otherwise. *)
Fixpoint props_set (k : Z) (v : propval) (p : props) : props :=
  match p with
  | [] => [(k, v)]
  | (k', v') :: rest => if k =? k' then (k', v) :: rest else (k', v') :: props_set k v rest
  end.

(** [props[k][1]] *)
Fixpoint props_get (k : Z) (p : props) : option propval :=
  match p with
  | [] => None
  | (k', v) :: rest => if k =? k' then Some v else props_get k rest
  end.

(** The pools the pass interns into, and its result. *)
Record state := {
  cmap : dict Z color;
  strs : dict Z string;
  inlined : dict Z asset;
  materials : list material;
  reports : list string
}.

(** The locals of the loop over the property table; [d] is unbound
    before code 0 is visited. *)
Record locals := { l_props : props; l_d : option Qc; l_st : state }.

Section Pass.
Variable hash_color : color -> Z.
Variable hash_string : string -> Z.
Variable hash_asset : asset -> Z.
(** The bytes [get_texturedata] returns for an image when inlining. *)
Variable texturedata : string -> list byte.
Variable use_inline : bool.

Definition get_texturedata (image : string) : list byte :=
  if use_inline then texturedata image else [].

Definition intern_color (c : color) (l : locals) : Z * locals :=
  let '(i, cm) := uniquedict hash_color (cmap (l_st l)) c in
  (i, {| l_props := l_props l; l_d := l_d l;
         l_st := {| cmap := cm; strs := strs (l_st l); inlined := inlined (l_st l);
                    materials := materials (l_st l); reports := reports (l_st l) |} |}).

Definition set_prop (k : Z) (v : propval) (l : locals) : locals :=
  {| l_props := props_set k v (l_props l); l_d := l_d l; l_st := l_st l |}.

Definition set_color_prop (k : Z) (c : color) (l : locals) : locals :=
  let '(i, l) := intern_color c l in set_prop k (PRef i) l.

(** A texture property: the image's name is interned, its data inlined
    when there are more than 8 bytes of it. *)
Definition set_map_prop (k : Z) (image : string) (l : locals) : locals :=
  let data := get_texturedata image in
  let st := l_st l in
  let '(s, ss) := uniquedict hash_string (strs st) image in
  let inl :=
    if use_inline && (8 <? py_len data)
    then snd (uniquedict hash_asset (inlined st) {| as_name := s; as_data := data |})
    else inlined st in
  {| l_props := props_set k (PRef s) (l_props l); l_d := l_d l;
     l_st := {| cmap := cmap st; strs := ss; inlined := inl;
                materials := materials st; reports := reports st |} |}.

(** Code 0, first part: the alpha-derived diffuse colour. *)
Definition derive_kd (w : wrapper) (l : locals) : option locals :=
  let d :=
    if negb (bool_decide (alpha w = Qc_of_Z 0)) && negb (bool_decide (alpha w = Qc_of_Z 1))
    then Some (alpha w)
    else if negb (bool_decide (base_color w = [])) && (3 <? py_len (base_color w))
    then base_color w !! 3%nat
    else Some (Qc_of_Z 0) in
  match d with
  | None => None
  | Some d =>
      let l := {| l_props := l_props l; l_d := Some d; l_st := l_st l |} in
      if negb (bool_decide (d = Qc_of_Z 0)) then
        match base_color w with
        | r :: g :: b :: _ => Some (set_color_prop 0 {| cr := r; cg := g; cb := b; ca := d |} l)
        | _ => None   (* IndexError *)
        end
      else Some l
  end.

(** Code 8, first part: the illumination model. *)
Definition illumination (w : wrapper) (d : Qc) : Z :=
  let il := 0 in
  if bool_decide (specular w = Qc_of_Z 0) then 1
  else if negb (bool_decide (metallic w = Qc_of_Z 0)) then
    if negb (bool_decide (d = Qc_of_Z 1)) then 6 else 3
  else if negb (bool_decide (d = Qc_of_Z 1)) then 9
  else 2.

Definition derive_il (w : wrapper) (l : locals) : option locals :=
  match l_d l with
  | None => None   (* NameError *)
  | Some d =>
      let il := illumination w d in
      Some (if negb (il =? 0) then set_prop 8 (PByte il) l else l)
  end.

(** The part of the loop body after the [if]/[elif] chain; [None] is an
    exception that leaves [write_m3d]. *)
Definition emit_generic (key : Z) (fmt : string) (val : pyval) (l : locals) : option locals :=
  if 128 <=? key then
    match val with
    | VTex None => Some l
    | VTex (Some name) =>
        if bool_decide (name = EmptyString) then Some l else Some (set_map_prop key name l)
    | _ => None
    end
  else if bool_decide (fmt = "gscale"%string) then
    match val with
    | VFloat x =>
        if negb (bool_decide (x = Qc_of_Z 0))
        then Some (set_color_prop key {| cr := x; cg := x; cb := x; ca := Qc_of_Z 1 |} l)
        else Some l
    | _ => None
    end
  else if bool_decide (fmt = "color"%string) then
    match val with
    | VSeq [r; g; b] =>
        Some (set_color_prop key {| cr := r; cg := g; cb := b; ca := Qc_of_Z 1 |} l)
    | VSeq [r; g; b; a] =>
        Some (set_color_prop key {| cr := r; cg := g; cb := b; ca := a |} l)
    | VSeq _ => Some l
    | _ => None   (* TypeError: no len() *)
    end
  else if bool_decide (fmt = "float"%string) then
    match val with
    | VFloat x => Some (if negb (bool_decide (x = Qc_of_Z 0)) then set_prop key (PFloat x) l else l)
    | _ => None
    end
  else if bool_decide (fmt = "byte"%string) || bool_decide (fmt = "int"%string) then
    match val with
    | VFloat x => Some (if negb (bool_decide (x = Qc_of_Z 0)) then set_prop key (PFloat x) l else l)
    | _ => None
    end
  else Some l.

(** One iteration of [for key, mat_wrap_key in mat_property_map.items()]. *)
Definition emit_key (w : wrapper) (l : option locals) (entry : Z * (string * string * string))
    : option locals :=
  match l with
  | None => None
  | Some l =>
      let key := fst entry in
      let t := snd entry in
      let chain :=
        if key =? 0 then (derive_kd w l, true)
        else if key =? 8 then (derive_il w l, true)
        else if bool_decide (String.substring 0 2 (fmt_of t) = "//"%string) then (Some l, false)
        else (Some l, true) in
      match chain with
      | (None, _) => None
      | (Some l, false) => Some l   (* continue *)
      | (Some l, true) =>
          match getattr w (attr_of t) with
          | None => Some l
          | Some val => emit_generic key (fmt_of t) val l
          end
      end
  end.

(** One iteration of [for i, v in refmats.items()]. *)
Definition export_material (st : option state) (mat : option blender_material) : option state :=
  match st, mat with
  | None, _ => None
  | Some st, None => Some st
  | Some st, Some mat =>
      let l := {| l_props := []; l_d := None; l_st := st |} in
      let l :=
        match mat_node_image mat with
        | Some image => set_map_prop 128 image l
        | None => l
        end in
      let l :=
        match mat_wrap mat with
        | Some w => fold_left (emit_key w) mat_property_map (Some l)
        | None =>
            Some {| l_props := l_props l; l_d := l_d l;
                    l_st := {| cmap := cmap (l_st l); strs := strs (l_st l);
                               inlined := inlined (l_st l); materials := materials (l_st l);
                               reports := reports (l_st l) ++
                                 [("Material '" +:+ mat_name mat +:+
                                   "' does not use PrincipledBSDF surface, not parsing.")%string] |} |}
        end in
      match l with
      | None => None
      | Some l =>
          let st := l_st l in
          (* append material if it has at least one property *)
          if 0 <? py_len (l_props l) then
            let '(n, ss) := uniquedict hash_string (strs st)
                              (Names.safestr (Some (mat_name mat)) 0) in
            Some {| cmap := cmap st; strs := ss; inlined := inlined st;
                    materials := materials st ++ [{| m_name := n; m_props := l_props l |}];
                    reports := reports st |}
          else Some st
      end
  end.

(** Lines 568-652. *)
Definition export_materials (use_materials : bool) (refmats : list (option blender_material))
    (st : state) : option state :=
  if use_materials then fold_left export_material refmats (Some st) else Some st.

End Pass.

End Material.


(** ** Actions (source lines 657-758) *)

Module Anim.
Import Num Tables.

(** A pose bone of a sampled frame: its name, and the translation [p]
    and normalized quaternion [q] of lines 725-731. *)
Record pose_bone := {
  pb_name : string;
  pb_p : Qc * Qc * Qc;
  pb_q : Qc * Qc * Qc * Qc      (* x, y, z, w *)
}.

(** An element of [acts]: [[name, pose index, start frame, end frame]]. *)
Record act := { act_name : string; act_index : Z; act_start : Z; act_end : Z }.

(** The state shared by all actions. *)
Record state := {
  verts : dict Z vertex;
  strs : dict Z string;
  actions : list action;
  fi_m : Z;
  reports : list string
}.

(** The locals of one sampled frame. *)
Record walk := {
  w_lastpose : gmap string (Z * Z);
  w_verts : dict Z vertex;
  w_changed : list delta;
  w_reports : list string
}.

(** The locals of the loop over the frames of one action. *)
Record run := {
  r_origin : Z;                 (* a[2] *)
  r_lf : Z;
  r_frames : list frame;
  r_fi_m : Z;
  r_lastpose : gmap string (Z * Z);
  r_verts : dict Z vertex;
  r_reports : list string
}.

Section Actions.
(** The rounding of the float arithmetic: [Floats.binary64] on the
    machine. *)
Variable nearest : Qc -> option Qc.
Variable hash_vertex : vertex -> Z.
Variable hash_string : string -> Z.
Variable digits : Z.
Variable bones : dict string bone.
(** The pose bones of every armature once [scene.frame_set(frame)] has
    been called under an action. *)
Variable pose : act -> Z -> list (list pose_bone).
(** For each armature object, whether its [animation_data] is there
    ([None] on an armature that was never animated). *)
Variable animated : list bool.

(** [mpf = 1000.0 / use_fps]: [ZeroDivisionError] for 0. *)
Definition per_frame (use_fps : Z) : option Qc :=
  nearest (Qc_of_Z use_fps) ≫= fun d =>
  if decide (d = Qc_of_Z 0) then None else nearest (Qc_of_Z 1000 / d)%Qc.

(** [int(n * mpf)]: the integer is converted to a float, the product is
    rounded, and [int] truncates it; [OverflowError] when the integer or
    the product is beyond the largest float. *)
Definition msec (mpf : Qc) (n : Z) : option Z :=
  nearest (Qc_of_Z n) ≫= fun x =>
  nearest (x * mpf)%Qc ≫= fun y =>
  Some (py_int y).

(** Lines 695-703, before the frames of an action are sampled: an
    action of [bpy.data.actions] (its index is not -1, and was handed out
    by [enumerate] over that collection) is assigned to the animation
    data of every armature; [AttributeError] on an armature that has
    none. *)
Definition set_action_pose (a : act) : option unit :=
  if (act_index a =? -1) || forallb id animated then Some tt else None.

(** [lastpose], filled with the bind pose. *)
Definition bind_pose : gmap string (Z * Z) :=
  fold_left (fun m nb => <[fst nb := (b_pos (snd (snd nb)), b_ori (snd (snd nb)))]> m) bones ∅.

Definition pooled_position (b : pose_bone) : vertex :=
  let '(x, y, z) := pb_p b in
  vert (py_round_nd x digits) (py_round_nd y digits) (py_round_nd z digits) (Qc_of_Z 1) 0 (-1).

Definition pooled_orientation (b : pose_bone) : vertex :=
  let '(x, y, z, w) := pb_q b in
  vert (py_round_nd x digits) (py_round_nd y digits) (py_round_nd z digits)
       (py_round_nd w digits) 0 (-2).

(** [for i, b in enumerate(ob_main.pose.bones)]; [None] is an exception
    that leaves [write_m3d]. *)
Fixpoint walk_bones (bs : list pose_bone) (s : walk) : option walk :=
  match bs with
  | [] => Some s
  | b :: rest =>
      match dict_get (pb_name b) bones with
      | None =>
          (* reported, then [break] *)
          Some {| w_lastpose := w_lastpose s; w_verts := w_verts s; w_changed := w_changed s;
                  w_reports := w_reports s ++
                    [("Animated bone name '" +:+ pb_name b +:+
                      "' does not match any bind-pose bone???")%string] |}
      | Some (idx, _) =>
          let '(pos, vs1) := uniquedict hash_vertex (w_verts s) (pooled_position b) in
          let '(ori, vs2) := uniquedict hash_vertex vs1 (pooled_orientation b) in
          match w_lastpose s !! pb_name b with
          | None => None   (* KeyError *)
          | Some (lp, lo) =>
              if negb (lp =? pos) || negb (lo =? ori) then
                walk_bones rest
                  {| w_lastpose := <[pb_name b := (pos, ori)]> (w_lastpose s);
                     w_verts := vs2;
                     w_changed := w_changed s ++ [{| d_bone := idx; d_pos := pos; d_ori := ori |}];
                     w_reports := w_reports s |}
              else
                walk_bones rest
                  {| w_lastpose := w_lastpose s; w_verts := vs2;
                     w_changed := w_changed s; w_reports := w_reports s |}
          end
      end
  end.

(** The loop over the armatures of one frame. *)
Definition walk_armatures (arms : list (list pose_bone)) (s : walk) : option walk :=
  fold_left (fun s bs => s ≫= walk_bones bs) arms (Some s).

(** One iteration of [for frame in range(a[2], a[3] + 1)]. *)
Definition sample_frame (a : act) (mpf : Qc) (r : option run) (frame : Z) : option run :=
  r ≫= fun r =>
  walk_armatures (pose a frame)
    {| w_lastpose := r_lastpose r; w_verts := r_verts r; w_changed := [];
       w_reports := r_reports r |} ≫= fun s =>
  let changed := w_changed s in
  if 0 <? py_len changed then
    let origin := if py_len (r_frames r) <? 1 then frame else r_origin r in
    msec mpf (frame - origin) ≫= fun t =>
    Some {| r_origin := origin; r_lf := frame;
            r_frames := r_frames r ++ [{| fr_time := t; fr_changed := changed |}];
            r_fi_m := if r_fi_m r <? py_len changed then py_len changed else r_fi_m r;
            r_lastpose := w_lastpose s; r_verts := w_verts s; r_reports := w_reports s |}
  else
    Some {| r_origin := r_origin r; r_lf := r_lf r; r_frames := r_frames r;
            r_fi_m := r_fi_m r;
            r_lastpose := w_lastpose s; r_verts := w_verts s; r_reports := w_reports s |}.

(** The frames of one action: lines 704-753. *)
Definition record_frames (a : act) (mpf : Qc) (st : state) : option run :=
  fold_left (sample_frame a mpf)
    (seqZ (act_start a) (act_end a + 1 - act_start a))
    (Some {| r_origin := act_start a; r_lf := 0; r_frames := []; r_fi_m := fi_m st;
             r_lastpose := bind_pose; r_verts := verts st; r_reports := reports st |}).

(** One iteration of [for a in acts]. *)
Definition export_action (mpf : Qc) (st : option state) (a : act) : option state :=
  st ≫= fun st =>
  set_action_pose a ≫= fun _ =>
  record_frames a mpf st ≫= fun r =>
  (* if the action has at least one frame, save it *)
  if 0 <? py_len (r_frames r) then
    let '(n, ss) := uniquedict hash_string (strs st) (Names.safestr (Some (act_name a)) 0) in
    msec mpf (r_lf r - r_origin r + 1) ≫= fun duration =>
    Some {| verts := r_verts r; strs := ss;
            actions := actions st ++
              [{| a_name := n; a_duration := duration; a_frames := r_frames r |}];
            fi_m := r_fi_m r; reports := r_reports r |}
  else
    Some {| verts := r_verts r; strs := strs st; actions := actions st;
            fi_m := r_fi_m r; reports := r_reports r |}.

(** Lines 657-758, given the list [acts]. *)
Definition export_actions (use_animation use_skeleton : bool) (use_fps : Z)
    (acts : list act) (st : state) : option state :=
  if use_animation then
    if use_skeleton && (0 <? py_len bones) then
      per_frame use_fps ≫= fun mpf =>
      fold_left (export_action mpf) acts (Some st)
    else
      Some {| verts := verts st; strs := strs st; actions := actions st; fi_m := fi_m st;
              reports := reports st ++
                ["Trying to export animations without armature and skin"%string] |}
  else Some st.

End Actions.

End Anim.


(** ** What both writers are given (source lines 845-851) *)

Module Model.
Import Tables.

Record config := {
  use_name : option string;
  use_license : option string;
  use_author : option string;
  use_comment : option string;
  use_scale : Qc;
  use_quality : Z;
  digits : Z;
  use_uvs : bool;
  use_normals : bool;
  allow_unnormalized_uvs : bool;
  use_strmcompress : bool;
  nb_m : Z;
  fi_m : Z
}.

(** The lists that are not pooled tables. *)
Record content := {
  faces : list face;
  labels : list unit;                       (* never filled by the source *)
  materials : list material;
  actions : list action;
  extras : list (list byte * list byte)     (* never filled by the source *)
}.

(** [if use_author is None or use_author == "": use_author = os.getenv("LOGNAME", "")] *)
Definition author (logname : string) (c : config) : option string :=
  match use_author c with
  | None => Some logname
  | Some a => if bool_decide (a = EmptyString) then Some logname else Some a
  end.

Definition bytes_of (s : string) : list byte := list_byte_of_string s.

End Model.

(** ** The binary writer (source lines 983-1190) *)

Module Binary.
Import Num Tables Index Model.

(** All parts, in order; [None] as soon as one of them raised. *)
Definition cat (parts : list (option (list byte))) : option (list byte) :=
  fold_right (fun p acc => b ← p; r ← acc; Some (b ++ r)) (Some []) parts.

Definition for_each {A} (l : list A) (body : A -> option (list byte)) : option (list byte) :=
  cat (map body l).

Definition NUL : list byte := [Byte.x00].   (* pack("<b", 0) *)

(** [{tag}{length including the 8 header bytes}{payload}] *)
Definition chunk (tag : string) (payload : list byte) : option (list byte) :=
  len ← pack_unsigned 4 (py_len payload + 8); Some (bytes_of tag ++ len ++ payload).

(** The header strings, then the string table; with each table entry's
    offset ([stridx]) and the final offset [o]. *)
Definition string_table (logname : string) (c : config) (strs : list string)
    : list byte * list Z * Z :=
  let st := bytes_of (Names.safestr (use_name c) 2) ++ NUL
         ++ bytes_of (Names.safestr (use_license c) 2) ++ NUL
         ++ bytes_of (Names.safestr (author logname c) 2) ++ NUL
         ++ bytes_of (Names.safestr (use_comment c) 1) ++ NUL in
  fold_left
    (fun acc s =>
       let '(st, stridx, o) := acc in
       let s := bytes_of s ++ NUL in
       (st ++ s, stridx ++ [o], o + py_len s))
    strs (st, [], py_len st).

(** The index widths of the header. *)
Record widths := {
  ci_s : Z; ti_s : Z; vi_s : Z; si_s : Z; bi_s : Z; sk_s : Z; fi_s : Z; nb_s : Z; fc_s : Z
}.

Definition select_widths (c : config) (t : tables) (m : content) (o : Z) : widths :=
  {| ci_s := idxsize (py_len (cmap t));
     ti_s := idxsize (py_len (tmaps t));
     vi_s := idxsize (py_len (verts t));
     si_s := idxsize o;
     bi_s := idxsize (py_len (bones t));
     sk_s := idxsize (py_len (skins t));
     fi_s := idxsize (py_len (faces m));
     nb_s := if nb_m c <? 2 then 0 else if nb_m c =? 2 then 1 else if nb_m c <=? 4 then 2 else 3;
     fc_s := idxsize (fi_m c) |}.

Definition header_flags (c : config) (w : widths) : Z :=
  let flags :=
    Z.lor (Z.shiftl (use_quality c) 0) (Z.lor (Z.shiftl (vi_s w) 2) (Z.lor (Z.shiftl (si_s w) 4)
   (Z.lor (Z.shiftl (ci_s w) 6) (Z.lor (Z.shiftl (ti_s w) 8) (Z.lor (Z.shiftl (bi_s w) 10)
          (Z.shiftl (nb_s w) 12)))))) in
  Z.lor flags (Z.lor (Z.shiftl (sk_s w) 14) (Z.lor (Z.shiftl (fc_s w) 16) (Z.shiftl (fi_s w) 20))).

Section Writer.
(** [pack("<f", x)] and [pack("<d", x)]: the IEEE encodings. *)
Variable pack_f : Qc -> list byte.
Variable pack_d : Qc -> list byte.
(** [zlib.compress(buf, 9)] *)
Variable zlib_compress : list byte -> list byte.
(** [os.getenv("LOGNAME", "")] *)
Variable logname : string.

Variable c : config.
Variable t : tables.
Variable m : content.

Definition head_chunk (w : widths) (st : list byte) : option (list byte) :=
  flags ← pack_unsigned 4 (header_flags c w);
  chunk "HEAD" (pack_f (use_scale c) ++ flags ++ st).

(** A colour reference of a vertex or a material property. *)
Definition color_ref (w : widths) (i : Z) : option (list byte) :=
  if ci_s w <? 4 then addidx (ci_s w) i
  else None.   (* pack("<I", cmap[i]) on a list: struct.error *)

Definition cmap_chunk (w : widths) : option (list byte) :=
  if (0 <? py_len (cmap t)) && (ci_s w <? 4) then
    body ← for_each (cmap t) (fun col =>
      for_each [cr col; cg col; cb col; ca col] (fun x =>
        pack_unsigned 1 (py_int (x * Qc_of_Z 255)%Qc)));
    len ← pack_unsigned 4 (py_len (cmap t) * 4 + 8);
    Some (bytes_of "CMAP" ++ len ++ body)
  else Some [].

Definition clamp01 (x : Qc) : Qc := Qc_max (if decide (Qc_of_Z 1 < x)%Qc then Qc_of_Z 1 else x) (Qc_of_Z 0).

Definition out_of_range (uv : uv) : bool :=
  bool_decide (tu uv < Qc_of_Z 0)%Qc || bool_decide (Qc_of_Z 1 < tu uv)%Qc
  || bool_decide (tv uv < Qc_of_Z 0)%Qc || bool_decide (Qc_of_Z 1 < tv uv)%Qc.

(** One iteration of the TMAP loop.  The clamped pair is a new list bound
    to the loop variable: the table's entry is not written. *)
Definition tmap_entry (e : uv) : option (list byte) :=
  let e :=
    if out_of_range e && negb (allow_unnormalized_uvs c)
    then {| tu := clamp01 (tu e); tv := clamp01 (tv e) |} else e in
  if use_quality c =? 0 then
    cat [pack_unsigned 1 (py_int (tu e * Qc_of_Z 255)%Qc); pack_unsigned 1 (py_int (tv e * Qc_of_Z 255)%Qc)]
  else if use_quality c =? 1 then
    cat [pack_unsigned 2 (py_int (tu e * Qc_of_Z 65535)%Qc); pack_unsigned 2 (py_int (tv e * Qc_of_Z 65535)%Qc)]
  else if use_quality c =? 3 then Some (pack_d (tu e) ++ pack_d (tv e))
  else Some (pack_f (tu e) ++ pack_f (tv e)).

Definition tmap_chunk : option (list byte) :=
  if 0 <? py_len (tmaps t) then
    body ← for_each (tmaps t) tmap_entry;
    len ← pack_unsigned 4 (py_len (tmaps t) * 2 * Z.shiftl 1 (use_quality c) + 8);
    Some (bytes_of "TMAP" ++ len ++ body)
  else Some [].

Definition coordinate (x : Qc) : option (list byte) :=
  if use_quality c =? 0 then pack_signed 1 (py_int (x * Qc_of_Z 127)%Qc)
  else if use_quality c =? 1 then pack_signed 2 (py_int (x * Qc_of_Z 32767)%Qc)
  else if use_quality c =? 3 then Some (pack_d x)
  else Some (pack_f x).

Definition vrts_chunk (w : widths) : option (list byte) :=
  if 0 <? py_len (verts t) then
    o ← for_each (verts t) (fun v =>
      cat [coordinate (vx v); coordinate (vy v); coordinate (vz v); coordinate (vw v);
           color_ref w (vc v); addidx (sk_s w) (vs v)]);
    chunk "VRTS" o
  else Some [].

Definition skin_record (w : widths) (s : skin) : option (list byte) :=
  let slots := Z.shiftl 1 (nb_s w) in
  cat [ (if 0 <? nb_s w then
           for_each (seqZ 0 slots) (fun i =>
             if py_len s <=? i then pack_unsigned 1 0
             else '(_, x) ← py_nth s i; pack_unsigned 1 x)
         else Some []);
        for_each (seqZ 0 (Z.min (py_len s) slots)) (fun i =>
          '(b, x) ← py_nth s i;
          if negb (x =? 0) then addidx (bi_s w) b else Some []) ].

Definition bone_chunk (w : widths) (stridx : list Z) : option (list byte) :=
  if (0 <? py_len (bones t)) || (0 <? py_len (skins t)) then
    o ← cat [ addidx (bi_s w) (py_len (bones t)); addidx (sk_s w) (py_len (skins t));
              for_each (bones t) (fun b =>
                cat [addidx (bi_s w) (b_parent b);
                     (o ← py_nth stridx (b_name b); addidx (si_s w) o);
                     addidx (vi_s w) (b_pos b); addidx (vi_s w) (b_ori b)]);
              for_each (skins t) (skin_record w) ];
    chunk "BONE" o
  else Some [].

(** One property of a material.  A stored index and a stored byte are
    both Python integers: [pack("<B", v)], an index into a list and
    [pack("<f", v)] take either, and only a float is refused where an
    integer is needed. *)
Definition property (w : widths) (stridx : list Z) (p : Z * propval) : option (list byte) :=
  let code := fst p in
  cat [ pack_unsigned 1 code;
        (e ← Material.property_entry code;
         let fmt := Material.fmt_of e in
         if bool_decide (fmt = "color"%string) || bool_decide (fmt = "gscale"%string) then
           match snd p with
           | PRef i | PByte i => color_ref w i
           | PFloat _ =>
               (* [addidx(ci_s, float)]: [struct.error] in [pack] *)
               if ci_s w <? 4 then
                 if (ci_s w =? 0) || (ci_s w =? 1) || (ci_s w =? 2) then None else Some []
               else None
           end
         else if bool_decide (fmt = "byte"%string) || bool_decide (fmt = "//byte"%string) then
           match snd p with
           | PRef n | PByte n => pack_unsigned 1 n
           | PFloat _ => None
           end
         else if 128 <=? code then
           match snd p with
           | PRef i | PByte i => o ← py_nth stridx i; addidx (si_s w) o
           | PFloat _ => None
           end
         else
           match snd p with
           | PFloat x => Some (pack_f x)
           | PRef i | PByte i => Some (pack_f (Qc_of_Z i))
           end) ].

Definition mtrl_chunks (w : widths) (stridx : list Z) : option (list byte) :=
  if 0 <? py_len (materials m) then
    for_each (materials m) (fun mat =>
      o ← cat [ (o ← py_nth stridx (m_name mat); addidx (si_s w) o);
                for_each (m_props mat) (property w stridx) ];
      chunk "MTRL" o)
  else Some [].

(** The corners of one face. *)
Definition corners (w : widths) (f : face) : option (list byte) :=
  let each (body : Z -> Z -> option (list byte)) :=
    for_each (zip (seqZ 0 (py_len (f_v f))) (f_v f)) (fun iv => body (fst iv) (snd iv)) in
  if use_uvs c && use_normals c then
    each (fun i v => cat [addidx (vi_s w) v; (x ← py_nth (f_t f) i; addidx (ti_s w) x);
                          (x ← py_nth (f_n f) i; addidx (vi_s w) x)])
  else if use_uvs c then
    each (fun i v => cat [addidx (vi_s w) v; (x ← py_nth (f_t f) i; addidx (ti_s w) x)])
  else if use_normals c then
    each (fun i v => cat [addidx (vi_s w) v; (x ← py_nth (f_n f) i; addidx (vi_s w) x)])
  else each (fun _ v => addidx (vi_s w) v).

(** The loop over the faces, with the last material seen in [l]. *)
Fixpoint mesh_records (w : widths) (stridx : list Z) (l : Z) (fs : list face)
    : option (list byte) :=
  match fs with
  | [] => Some []
  | f :: rest =>
      cat [ (if negb (l =? f_mat f)
             then cat [Some NUL; (o ← py_nth stridx (f_mat f); addidx (si_s w) o)]
             else Some []);
            pack_signed 1 (Z.lor (Z.shiftl (py_len (f_v f)) 4)
                             (Z.lor (Z.b2z (use_uvs c)) (Z.shiftl (Z.b2z (use_normals c)) 1)));
            corners w f;
            mesh_records w stridx (f_mat f) rest ]
  end.

Definition mesh_chunk (w : widths) (stridx : list Z) : option (list byte) :=
  if 0 <? py_len (faces m) then o ← mesh_records w stridx (-1) (faces m); chunk "MESH" o
  else Some [].

Definition lbls_chunk : option (list byte) :=
  if 0 <? py_len (labels m) then chunk "LBLS" [] else Some [].

Definition actn_chunks (w : widths) (stridx : list Z) : option (list byte) :=
  if 0 <? py_len (actions m) then
    for_each (actions m) (fun a =>
      if py_len (a_frames a) <? 1 then Some []
      else
        o ← cat [ (o ← py_nth stridx (a_name a); addidx (si_s w) o);
                  pack_unsigned 2 (py_len (a_frames a));
                  pack_unsigned 4 (a_duration a);
                  for_each (a_frames a) (fun f =>
                    cat [ pack_unsigned 4 (fr_time f);
                          addidx (fc_s w) (py_len (fr_changed f));
                          for_each (fr_changed f) (fun d =>
                            cat [addidx (bi_s w) (d_bone d); addidx (vi_s w) (d_pos d);
                                 addidx (vi_s w) (d_ori d)]) ]) ];
        chunk "ACTN" o)
  else Some [].

Definition aset_chunks (w : widths) (stridx : list Z) : option (list byte) :=
  for_each (inlined t) (fun i =>
    o ← py_nth stridx (as_name i);
    ref ← addidx (si_s w) o;
    chunk "ASET" (ref ++ as_data i)).

Definition extra_chunks : option (list byte) :=
  for_each (extras m) (fun e =>
    len ← pack_unsigned 4 (py_len (snd e) + 8);
    Some (take 4 (fst e) ++ len ++ snd e)).

(** The chunk buffer before the end marker. *)
Definition chunks : option (list byte) :=
  let '(st, stridx, o) := string_table logname c (strs t) in
  let w := select_widths c t m o in
  cat [ head_chunk w st; cmap_chunk w; tmap_chunk; vrts_chunk w; bone_chunk w stridx;
        mtrl_chunks w stridx; mesh_chunk w stridx; lbls_chunk; actn_chunks w stridx;
        aset_chunks w stridx; extra_chunks ].

(** Lines 1182-1190: end chunk, stream compression, file header. *)
Definition finish (buf : list byte) : option (list byte) :=
  let buf := buf ++ bytes_of "OMD3" in
  let buf := if use_strmcompress c then zlib_compress buf else buf in
  let s := py_len buf + 8 in
  len ← pack_unsigned 4 s;
  Some (bytes_of "3DMO" ++ len ++ buf).

(** The bytes written to the file, and the tables afterwards: no
    statement of the binary branch assigns to a table or to one of its
    entries. *)
Definition write_binary : option (list byte * tables) :=
  buf ← chunks; file ← finish buf; Some (file, t).

End Writer.

End Binary.


(** ** The textual writer (source lines 853-981) *)

Module Ascii.
Import Num Tables Model.

Definition CRLF : string := String Names.CR (String Names.LF EmptyString).

(** All parts, in order; [None] as soon as one of them raised. *)
Definition scat (parts : list (option string)) : option string :=
  fold_right (fun p acc => a ← p; r ← acc; Some (a +:+ r)) (Some EmptyString) parts.

Definition each {A} (l : list A) (body : A -> option string) : option string :=
  scat (map body l).

(** What is written: a text file, or the bytes of the gzip stream. *)
Inductive output := Text (s : string) | Bytes (b : list byte).

(** The locals of the Textmap loop together with the table it walks. *)
Record textmap := { tm_tmaps : list uv; tm_r : bool; tm_s : string; tm_reports : list string }.

Section Writer.
(** [str(x)] on a float and ["%02x" % n]. *)
Variable str_float : Qc -> string.
Variable fmt_02x : Z -> string.
(** [gzip.compress(b, 9)] *)
Variable gzip_compress : list byte -> list byte.
Variable logname : string.

Variable c : config.
Variable m : content.

Definition str_int (n : Z) : string := pretty n.

Definition header : string :=
  "3dmodel " +:+ str_float (use_scale c) +:+ CRLF
  +:+ Names.safestr (use_name c) 2 +:+ CRLF
  +:+ Names.safestr (use_license c) 2 +:+ CRLF
  +:+ Names.safestr (author logname c) 2 +:+ CRLF
  +:+ Names.safestr (use_comment c) 1 +:+ CRLF +:+ CRLF.

(** [#aabbggrr] of a pooled colour. *)
Definition hex_color (t : tables) (i : Z) : option string :=
  col ← py_nth (cmap t) i;
  Some ("#" +:+ fmt_02x (py_int (ca col * Qc_of_Z 255)%Qc)
            +:+ fmt_02x (py_int (cb col * Qc_of_Z 255)%Qc)
            +:+ fmt_02x (py_int (cg col * Qc_of_Z 255)%Qc)
            +:+ fmt_02x (py_int (cr col * Qc_of_Z 255)%Qc)).

Definition property_line (t : tables) (p : Z * propval) : option string :=
  e ← Material.property_entry (fst p);
  let fmt := Material.fmt_of e in
  v ← (if bool_decide (fmt = "color"%string) || bool_decide (fmt = "gscale"%string) then
         match snd p with PRef i | PByte i => hex_color t i | PFloat _ => None end
       else if bool_decide (fmt = "float"%string) then
         match snd p with
         | PFloat x => Some (str_float (py_round_nd x (digits c)))
         | PRef i | PByte i =>
             (* [round] of an integer is an integer *)
             Some (str_int (py_int (py_round_nd (Qc_of_Z i) (digits c))))
         end
       else if 128 <=? fst p then
         match snd p with PRef i | PByte i => py_nth (strs t) i | PFloat _ => None end
       else
         match snd p with
         | PRef i | PByte i => Some (str_int i)
         | PFloat x => Some (str_float x)
         end);
  Some (Material.ascii_of e +:+ " " +:+ v +:+ CRLF).

Definition materials_section (t : tables) : option string :=
  if 0 <? py_len (materials m) then
    each (materials m) (fun mat =>
      scat [ (n ← py_nth (strs t) (m_name mat); Some ("Material " +:+ n +:+ CRLF));
             each (m_props mat) (property_line t); Some CRLF ])
  else Some EmptyString.

(** The failsafe of the Textmap loop: four assignments to the entry. *)
Definition clamp_in_place (e : uv) : uv :=
  let e := if decide (Qc_of_Z 1 < tu e)%Qc then {| tu := Qc_of_Z 1; tv := tv e |} else e in
  let e := if decide (tu e < Qc_of_Z 0)%Qc then {| tu := Qc_of_Z 0; tv := tv e |} else e in
  let e := if decide (Qc_of_Z 1 < tv e)%Qc then {| tu := tu e; tv := Qc_of_Z 1 |} else e in
  let e := if decide (tv e < Qc_of_Z 0)%Qc then {| tu := tu e; tv := Qc_of_Z 0 |} else e in
  e.

(** One iteration of [for t in tmaps]: the loop variable is the entry at
    position [i] itself, so the assignments of the failsafe land in the
    table. *)
Definition textmap_step (st : textmap) (i : nat) : textmap :=
  match tm_tmaps st !! i with
  | None => st
  | Some e =>
      let fix_it := Binary.out_of_range e && negb (allow_unnormalized_uvs c) in
      let e' := if fix_it then clamp_in_place e else e in
      {| tm_tmaps := if fix_it then <[i := e']> (tm_tmaps st) else tm_tmaps st;
         tm_r := if fix_it then false else tm_r st;
         tm_s := tm_s st +:+ str_float (py_round_nd (tu e') (digits c)) +:+ " "
                         +:+ str_float (py_round_nd (tv e') (digits c)) +:+ CRLF;
         tm_reports :=
           if fix_it && tm_r st
           then tm_reports st ++ ["Texture UV's are out of 0..1 range"%string]
           else tm_reports st |}
  end.

(** The entry one iteration leaves in the table. *)
Definition fixed (e : uv) : uv :=
  if Binary.out_of_range e && negb (allow_unnormalized_uvs c) then clamp_in_place e else e.

(** The Textmap section and the UV table after it. *)
Definition textmap_section (tmaps : list uv) : textmap :=
  if 0 <? py_len tmaps then
    let st := fold_left textmap_step (seq 0 (length tmaps))
                {| tm_tmaps := tmaps; tm_r := true; tm_s := "Textmap" +:+ CRLF; tm_reports := [] |} in
    {| tm_tmaps := tm_tmaps st; tm_r := tm_r st; tm_s := tm_s st +:+ CRLF;
       tm_reports := tm_reports st |}
  else {| tm_tmaps := tmaps; tm_r := true; tm_s := EmptyString; tm_reports := [] |}.

Definition in_range (i : Z) (n : Z) : bool := (0 <=? i) && (i <? n).

Definition vertex_line (t : tables) (v : vertex) : option string :=
  scat [ Some (str_float (vx v) +:+ " " +:+ str_float (vy v) +:+ " " +:+ str_float (vz v)
               +:+ " " +:+ str_float (vw v));
         (if in_range (vc v) (py_len (cmap t)) then h ← hex_color t (vc v); Some (" " +:+ h)
          else if in_range (vs v) (py_len (skins t)) then Some " #ffffffff"%string
          else Some EmptyString);
         (if in_range (vs v) (py_len (skins t)) then
            sk ← py_nth (skins t) (vs v);
            each (take 8 sk) (fun bw =>
              Some (if negb (fst bw =? -1) && negb (snd bw =? 0)
                    then " " +:+ str_int (fst bw) +:+ ":" +:+
                         str_float (py_round_nd (Qc_of_Z (snd bw) / Qc_of_Z 255)%Qc 4)
                    else EmptyString))
          else Some EmptyString);
         Some CRLF ].

Definition vertex_section (t : tables) : option string :=
  if 0 <? py_len (verts t) then
    scat [Some ("Vertex" +:+ CRLF); each (verts t) (vertex_line t); Some CRLF]
  else Some EmptyString.

Definition corner (f : face) (iv : Z * Z) : option string :=
  scat [ Some (if negb (fst iv =? 0) then " "%string else EmptyString);
         Some (str_int (snd iv) +:+ "/");
         (if use_uvs c then str_int <$> py_nth (f_t f) (fst iv) else Some EmptyString);
         Some "/"%string;
         (if use_normals c then str_int <$> py_nth (f_n f) (fst iv) else Some EmptyString) ].

Fixpoint mesh_lines (t : tables) (l : Z) (fs : list face) : option string :=
  match fs with
  | [] => Some EmptyString
  | f :: rest =>
      scat [ (if negb (l =? f_mat f) then
                if f_mat f =? -1 then Some ("use" +:+ CRLF)
                else n ← py_nth (strs t) (f_mat f); Some ("use " +:+ n +:+ CRLF)
              else Some EmptyString);
             each (zip (seqZ 0 (py_len (f_v f))) (f_v f)) (corner f);
             Some CRLF;
             mesh_lines t (f_mat f) rest ]
  end.

Definition mesh_section (t : tables) : option string :=
  if 0 <? py_len (faces m) then
    scat [Some ("Mesh" +:+ CRLF); mesh_lines t (-1) (faces m); Some CRLF]
  else Some EmptyString.

Definition slashes (level : nat) : string := string_of_list_ascii (repeat (Names.chr 47) level).

(** [bonestr]; the recursion descends one level of the hierarchy per
    unit of [fuel]. *)
Fixpoint bonestr (fuel : nat) (t : tables) (parent : Z) (level : nat) : option string :=
  match fuel with
  | O => Some EmptyString
  | S fuel =>
      each (zip (seqZ 0 (py_len (bones t))) (bones t)) (fun ib =>
        let b := snd ib in
        if b_parent b =? parent then
          scat [ (n ← py_nth (strs t) (b_name b);
                  Some (slashes level +:+ str_int (b_pos b) +:+ " " +:+ str_int (b_ori b)
                        +:+ " " +:+ n +:+ CRLF));
                 bonestr fuel t (fst ib) (S level) ]
        else Some EmptyString)
  end.

Definition bones_section (t : tables) : option string :=
  if (0 <? py_len (bones t)) || (0 <? py_len (skins t)) then
    scat [Some ("Bones" +:+ CRLF); bonestr (S (length (bones t))) t (-1) 0; Some CRLF]
  else Some EmptyString.

Definition actions_section (t : tables) : option string :=
  if 0 <? py_len (actions m) then
    each (actions m) (fun a =>
      if py_len (a_frames a) <? 1 then Some EmptyString
      else
        scat [ (n ← py_nth (strs t) (a_name a);
                Some ("Action " +:+ str_int (a_duration a) +:+ " " +:+ n +:+ CRLF));
               each (a_frames a) (fun f =>
                 scat [ Some ("frame " +:+ str_int (fr_time f) +:+ CRLF);
                        each (fr_changed f) (fun d =>
                          Some (str_int (d_bone d) +:+ " " +:+ str_int (d_pos d) +:+ " "
                                +:+ str_int (d_ori d) +:+ CRLF)) ]);
               Some CRLF ])
  else Some EmptyString.

Definition assets_section (t : tables) : option string :=
  if 0 <? py_len (inlined t) then
    scat [ Some ("Assets" +:+ CRLF);
           each (inlined t) (fun i => n ← py_nth (strs t) (as_name i); Some (n +:+ ".png" +:+ CRLF));
           Some CRLF ]
  else Some EmptyString.

(** What is written, and the tables afterwards. *)
Definition write_ascii (t : tables) : option (output * tables) :=
  mats ← materials_section t;
  let tm := textmap_section (tmaps t) in
  let t := {| cmap := cmap t; strs := strs t; verts := verts t; tmaps := tm_tmaps tm;
              bones := bones t; skins := skins t; inlined := inlined t |} in
  rest ← scat [ vertex_section t; mesh_section t; bones_section t; actions_section t;
                assets_section t ];
  let s := header +:+ mats +:+ tm_s tm +:+ rest in
  Some (if use_strmcompress c then Bytes (gzip_compress (bytes_of s)) else Text s, t).

End Writer.

End Ascii.

(** ** From the conversion to the file (source lines 775-1190) *)

Module Pipeline.
Import Tables Model.

(** The interning dictionaries as they are when the conversion starts. *)
Record pools := {
  p_cmap : dict Z color;
  p_strs : dict Z string;
  p_verts : dict Z vertex;
  p_tmaps : dict Z uv;
  p_bones : dict string bone;
  p_skins : dict Z skin;
  p_inlined : dict Z asset
}.

(** Lines 775-781. *)
Definition convert (p : pools) : tables :=
  {| cmap := dict2list (p_cmap p); strs := dict2list (p_strs p); verts := dict2list (p_verts p);
     tmaps := dict2list (p_tmaps p); bones := dict2list (p_bones p);
     skins := dict2list (p_skins p); inlined := dict2list (p_inlined p) |}.


Section Run.
Variable pack_f : Qc -> list byte.
Variable pack_d : Qc -> list byte.
Variable zlib_compress : list byte -> list byte.
Variable gzip_compress : list byte -> list byte.
Variable str_float : Qc -> string.
Variable fmt_02x : Z -> string.
Variable logname : string.



End Run.

End Pipeline.


(** ** Concrete inputs used by the statements below *)

Module Examples.
Import Num Tables.

Definition q (a b : Z) : Qc := (Qc_of_Z a / Qc_of_Z b)%Qc.

(** A position at x = 1/2 and the orientation of a bone turned half a
    turn about the x axis, the quaternion (x, y, z, w) = (1, 0, 0, 0). *)
Definition half_turn_pool : list vertex :=
  [ vert (q 1 2) (q 0 1) (q 0 1) (q 1 1) 0 (-1);
    vert (q 1 1) (q 0 1) (q 0 1) (q 0 1) 0 (-2) ].

(** A skeleton of [n] bones named b0, b1, ... in a chain, the vertex
    groups of the same names, and a vertex that belongs to all of them
    with weight 1. *)
Definition bone_name (i : nat) : string := "b" +:+ pretty i.

Definition chain (n : nat) : dict string bone :=
  map (fun i => (bone_name i,
                 (Z.of_nat i, {| b_parent := Z.of_nat i - 1; b_name := Z.of_nat i;
                                 b_pos := 2 * Z.of_nat i; b_ori := 2 * Z.of_nat i + 1 |})))
      (seq 0 n).

Definition groups_of (n : nat) : list string := map bone_name (seq 0 n).

Definition even_weights (n : nat) : list Skin.group :=
  map (fun i => {| Skin.g_group := Z.of_nat i; Skin.g_weight := q 1 1 |}) (seq 0 n).

Definition skin_start (n : nat) : Skin.state :=
  {| Skin.use_skeleton := true; Skin.vg := groups_of n; Skin.si := None;
     Skin.skins := []; Skin.nb_m := 0; Skin.reports := [] |}.

(** Two influences with the raw weights 3.0 and 1.0. *)
Definition three_to_one : list Skin.group :=
  [ {| Skin.g_group := 0; Skin.g_weight := q 3 1 |};
    {| Skin.g_group := 1; Skin.g_weight := q 1 1 |} ].

(** A material whose wrapper has specular 0 and every other value zero. *)
Definition zero_wrapper : Material.wrapper :=
  {| Material.base_color := [q 0 1; q 0 1; q 0 1];
     Material.metallic := q 0 1;
     Material.specular := q 0 1;
     Material.specular_tint := Material.VSeq [q 0 1; q 0 1; q 0 1];
     Material.transmission := q 0 1;
     Material.normalmap_strength := q 0 1;
     Material.alpha := q 0 1;
     Material.roughness := q 0 1;
     Material.ior := q 0 1;
     Material.base_color_texture := None;
     Material.transmission_texture := None;
     Material.normalmap_texture := None;
     Material.alpha_texture := None;
     Material.roughness_texture := None;
     Material.metallic_texture := None;
     Material.ior_texture := None |}.

Definition zero_material : Material.blender_material :=
  {| Material.mat_name := "Material"; Material.mat_node_image := None;
     Material.mat_wrap := Some zero_wrapper |}.

Definition no_materials : Material.state :=
  {| Material.cmap := []; Material.strs := []; Material.inlined := [];
     Material.materials := []; Material.reports := [] |}.

(** Stand-ins for [hash(str(e))], injective on the values used here. *)
Definition hash_color (c : color) : Z :=
  Qfloor (cr c * Qc_of_Z 255)%Qc + 256 * Qfloor (cg c * Qc_of_Z 255)%Qc
  + 65536 * Qfloor (cb c * Qc_of_Z 255)%Qc + 16777216 * Qfloor (ca c * Qc_of_Z 255)%Qc.

Definition hash_string (s : string) : Z :=
  fold_left (fun h c => 31 * h + Z.of_nat (Ascii.nat_of_ascii c)) (list_ascii_of_string s) 7.

Definition hash_asset (a : asset) : Z := as_name a.

End Examples.

(** ** Concrete models for the writers *)

Module Samples.
Import Num Tables Model.

(** Stand-ins for the IEEE encodings, the compressors and the number
    formats, which the writers only pass on. *)
Definition four_bytes (x : Qc) : list byte :=
  Index.le_bytes 4 (Qfloor (x * Qc_of_Z 65536)%Qc mod 4294967296).
Definition eight_bytes (x : Qc) : list byte :=
  Index.le_bytes 8 (Qfloor (x * Qc_of_Z 65536)%Qc mod 18446744073709551616).
Definition stored (b : list byte) : list byte := Byte.x78 :: Byte.x01 :: b.
Definition unstored (b : list byte) : list byte := drop 2 b.

(** Two bones, A and B, and five sampled frames in which only B moves,
    on frame 3. *)
Definition two_bones : dict string bone :=
  [ ("A"%string, (0, {| b_parent := -1; b_name := 0; b_pos := 0; b_ori := 1 |}));
    ("B"%string, (1, {| b_parent := 0; b_name := 1; b_pos := 2; b_ori := 1 |})) ].

Definition rest_A : Anim.pose_bone :=
  {| Anim.pb_name := "A"; Anim.pb_p := (Examples.q 0 1, Examples.q 0 1, Examples.q 0 1);
     Anim.pb_q := (Examples.q 0 1, Examples.q 0 1, Examples.q 0 1, Examples.q 1 1) |}.

Definition rest_B : Anim.pose_bone :=
  {| Anim.pb_name := "B"; Anim.pb_p := (Examples.q 0 1, Examples.q 1 1, Examples.q 0 1);
     Anim.pb_q := (Examples.q 0 1, Examples.q 0 1, Examples.q 0 1, Examples.q 1 1) |}.

Definition moved_B : Anim.pose_bone :=
  {| Anim.pb_name := "B"; Anim.pb_p := (Examples.q 0 1, Examples.q 1 1, Examples.q 1 2);
     Anim.pb_q := (Examples.q 0 1, Examples.q 0 1, Examples.q 0 1, Examples.q 1 1) |}.

Definition wave (a : Anim.act) (frame : Z) : list (list Anim.pose_bone) :=
  [[rest_A; if frame <? 3 then rest_B else moved_B]].

Definition wave_act : Anim.act :=
  {| Anim.act_name := "Wave"; Anim.act_index := 0; Anim.act_start := 1; Anim.act_end := 5 |}.

Definition hash_vertex (v : vertex) : Z :=
  Qfloor (vx v * Qc_of_Z 16)%Qc + 64 * Qfloor (vy v * Qc_of_Z 16)%Qc
  + 4096 * Qfloor (vz v * Qc_of_Z 16)%Qc + 262144 * Qfloor (vw v * Qc_of_Z 16)%Qc
  + 16777216 * (vs v + 2).

(** The pools after the bind pose of the two bones has been interned. *)
Definition wave_start : Anim.state :=
  {| Anim.verts :=
       [ (hash_vertex (Anim.pooled_position 4 rest_A), (0, Anim.pooled_position 4 rest_A));
         (hash_vertex (Anim.pooled_orientation 4 rest_A), (1, Anim.pooled_orientation 4 rest_A));
         (hash_vertex (Anim.pooled_position 4 rest_B), (2, Anim.pooled_position 4 rest_B)) ];
     Anim.strs := [(Examples.hash_string "A", (0, "A"%string));
                   (Examples.hash_string "B", (1, "B"%string))];
     Anim.actions := []; Anim.fi_m := 0; Anim.reports := [] |}.

Definition config0 : config :=
  {| use_name := Some "tri"%string; use_license := Some "MIT"%string;
     use_author := Some "me"%string; use_comment := Some EmptyString;
     use_scale := Examples.q 1 1; use_quality := 0; digits := 4;
     use_uvs := true; use_normals := false; allow_unnormalized_uvs := false;
     use_strmcompress := false; nb_m := 0; fi_m := 0 |}.

(** The same settings with stream compression on. *)
Definition config_z : config :=
  {| use_name := use_name config0; use_license := use_license config0;
     use_author := use_author config0; use_comment := use_comment config0;
     use_scale := use_scale config0; use_quality := 0; digits := 4;
     use_uvs := true; use_normals := false; allow_unnormalized_uvs := false;
     use_strmcompress := true; nb_m := 0; fi_m := 0 |}.

(** One triangle with one material and no skeleton. *)
Definition triangle_tables : tables :=
  {| cmap := [{| cr := Examples.q 4 5; cg := Examples.q 4 5; cb := Examples.q 4 5;
                 ca := Examples.q 1 1 |}];
     strs := ["Material"%string];
     verts := [ vert (Examples.q 0 1) (Examples.q 0 1) (Examples.q 0 1) (Examples.q 1 1) 0 (-1);
                vert (Examples.q 1 1) (Examples.q 0 1) (Examples.q 0 1) (Examples.q 1 1) 0 (-1);
                vert (Examples.q 0 1) (Examples.q 1 1) (Examples.q 0 1) (Examples.q 1 1) 0 (-1) ];
     tmaps := []; bones := []; skins := []; inlined := [] |}.

Definition triangle_content : content :=
  {| faces := [{| f_mat := 0; f_v := [0; 1; 2]; f_t := [-1; -1; -1]; f_n := [-1; -1; -1] |}];
     labels := [];
     materials := [{| m_name := 0; m_props := [(0, PRef 0); (8, PByte 1)] |}];
     actions := []; extras := [] |}.


(** The same triangle, twice as large. *)
Definition large_tables : tables :=
  {| cmap := cmap triangle_tables; strs := strs triangle_tables;
     verts := [ vert (Examples.q 0 1) (Examples.q 0 1) (Examples.q 0 1) (Examples.q 1 1) 0 (-1);
                vert (Examples.q 2 1) (Examples.q 0 1) (Examples.q 0 1) (Examples.q 1 1) 0 (-1);
                vert (Examples.q 0 1) (Examples.q 2 1) (Examples.q 0 1) (Examples.q 1 1) 0 (-1) ];
     tmaps := []; bones := []; skins := []; inlined := [] |}.

(** The tags of a chunk buffer, as a reader walks it: a tag, a length
    that counts the 8 header bytes, the payload; the end tag has no length. *)
Fixpoint chunk_tags (fuel : nat) (buf : list byte) : list string :=
  match fuel with
  | O => []
  | S fuel =>
      let tag := string_of_list_byte (take 4 buf) in
      if bool_decide (tag = "OMD3"%string) then [tag]
      else if (length buf <? 8)%nat then []
      else tag :: chunk_tags fuel
                    (drop (Z.to_nat (Index.le_value (take 4 (drop 4 buf)))) buf)
  end.

End Samples.

(** ** The recorded poses of an action, in the words of the specification *)

Module Recorded.
Import Num Tables.

(** The bind pose of the bone with index [idx]. *)
Definition bind_of (bones : dict string bone) (idx : Z) : option (Z * Z) :=
  (fun e => (b_pos e.2.2, b_ori e.2.2)) <$> find (fun e => e.2.1 =? idx) bones.

(** The last recorded pose of a bone after the deltas [h] (oldest
    first): the pose of its latest delta, the bind pose when it has none. *)
Definition last_recorded (bones : dict string bone) (h : list delta) (idx : Z)
    : option (Z * Z) :=
  match find (fun d => d_bone d =? idx) (rev h) with
  | Some d => Some (d_pos d, d_ori d)
  | None => bind_of bones idx
  end.

(** Every delta of [rest] differs from the last recorded pose of its
    bone, [seen] being the deltas before it. *)
Fixpoint all_changes (bones : dict string bone) (seen rest : list delta) : bool :=
  match rest with
  | [] => true
  | d :: rest =>
      negb (bool_decide (last_recorded bones seen (d_bone d) = Some (d_pos d, d_ori d)))
      && all_changes bones (seen ++ [d]) rest
  end.

(** [lastpose] holds, for every bone, its last recorded pose after the
    deltas [h]. *)
Definition tracks (bones : dict string bone) (lastpose : gmap string (Z * Z))
    (h : list delta) : Prop :=
  ∀ name idx b, dict_get name bones = Some (idx, b) →
    lastpose !! name = last_recorded bones h idx.

Section Expected.
Variable hash_vertex : vertex -> Z.
Variable digits : Z.
Variable bones : dict string bone.
Variable pose : Anim.act -> Z -> list (list Anim.pose_bone).

(** What a sampled frame shows of the bones of an armature, in their
    order: for each one its bone index and the references of its rounded
    position and orientation in the vertex pool, which grows by those
    that are new.  A bone without a bind-pose bone ends the armature. *)
Fixpoint seen_bones (bs : list Anim.pose_bone) (vs : dict Z vertex)
    : list delta * dict Z vertex :=
  match bs with
  | [] => ([], vs)
  | b :: rest =>
      match dict_get (Anim.pb_name b) bones with
      | None => ([], vs)
      | Some (idx, _) =>
          let '(pos, vs) := uniquedict hash_vertex vs (Anim.pooled_position digits b) in
          let '(ori, vs) := uniquedict hash_vertex vs (Anim.pooled_orientation digits b) in
          let '(ds, vs) := seen_bones rest vs in
          ({| d_bone := idx; d_pos := pos; d_ori := ori |} :: ds, vs)
      end
  end.

Fixpoint seen (arms : list (list Anim.pose_bone)) (vs : dict Z vertex)
    : list delta * dict Z vertex :=
  match arms with
  | [] => ([], vs)
  | bs :: rest =>
      let '(ds, vs) := seen_bones bs vs in
      let '(ds', vs) := seen rest vs in
      (ds ++ ds', vs)
  end.

(** The delta list of a frame: of what the frame shows, in order, each
    pose that differs from the last recorded pose of its bone, [h] being
    the deltas recorded before. *)
Fixpoint changes (h : list delta) (obs : list delta) : list delta :=
  match obs with
  | [] => []
  | d :: rest =>
      if bool_decide (last_recorded bones h (d_bone d) = Some (d_pos d, d_ori d))
      then changes h rest
      else d :: changes (h ++ [d]) rest
  end.

(** The frames to record of the sample indices [fs], each with its delta
    list: a frame whose delta list is empty is left out.  Also the vertex
    pool after the last frame. *)
Fixpoint expected (a : Anim.act) (fs : list Z) (h : list delta) (vs : dict Z vertex)
    : list (Z * list delta) * dict Z vertex :=
  match fs with
  | [] => ([], vs)
  | f :: fs =>
      let '(obs, vs) := seen (pose a f) vs in
      let new := changes h obs in
      let '(L, vs) := expected a fs (h ++ new) vs in
      (match new with [] => L | _ :: _ => (f, new) :: L end, vs)
  end.

End Expected.

(** The recorded frame [f] is the sample index and delta list [fc],
    stamped against a time origin. *)
Definition stamped (nearest : Qc -> option Qc) (mpf : Qc) (origin : Z)
    (f : frame) (fc : Z * list delta) : Prop :=
  Anim.msec nearest mpf (fc.1 - origin) = Some (fr_time f) ∧ fr_changed f = fc.2.

(** The locals of the frame loop after the sample indices [fs], when
    [L] lists the sample indices that were recorded with their deltas:
    the frames are those of [L] stamped against the origin, the origin is
    the first and [lf] the last recorded index, the indices are among the
    sampled ones in their order, no delta list is empty, and every delta
    is a change. *)
Definition recorded_as (nearest : Qc -> option Qc) (bones : dict string bone) (mpf : Qc)
    (fs : list Z) (r : Anim.run) (L : list (Z * list delta)) : Prop :=
  Forall2 (stamped nearest mpf (Anim.r_origin r)) (Anim.r_frames r) L
  ∧ (∀ fc, head L = Some fc → Anim.r_origin r = fc.1)
  ∧ (∀ fc, last L = Some fc → Anim.r_lf r = fc.1)
  ∧ sublist (L.*1) fs
  ∧ Forall (fun fc => fc.2 ≠ []) L
  ∧ tracks bones (Anim.r_lastpose r) (concat (L.*2))
  ∧ all_changes bones [] (concat (L.*2)) = true.

End Recorded.

(** ** Building a table element by element (source lines 143-167) *)

Module Interning.
Import Tables.

Section Lists.
Context {E : Type}.
(** [x == e] on two elements. *)
Variable py_eq : E -> E -> bool.

(** [l.index(e)]: the first position whose element compares equal to
    [e]; [None] is [ValueError]. *)
Fixpoint index (e : E) (l : list E) : option nat :=
  match l with
  | [] => None
  | x :: rest => if py_eq x e then Some 0%nat else S <$> index e rest
  end.

(** [uniquelist]: the list-based helper that [uniquedict] replaces. *)
Definition uniquelist (l : list E) (e : E) : Z * list E :=
  match index e l with
  | Some i => (Z.of_nat i, l)
  | None => (py_len l, l ++ [e])
  end.
End Lists.

(** The dictionary after [uniquedict] has been called on the elements of
    [es] in turn, starting from [{}]. *)
Definition interned {E} (hash_str : E -> Z) (es : list E) : dict Z E :=
  fold_left (fun d e => snd (uniquedict hash_str d e)) es [].

End Interning.

(** ** A chunk buffer as a reader walks it *)

Module Layout.
Import Tables Index Model.

(** One chunk: a tag, the length of the whole chunk in four bytes, least
    significant first, then the payload. *)
Definition framed (tag payload : list byte) : list byte :=
  tag ++ le_bytes 4 (py_len payload + 8) ++ payload.

(** Chunks one after the other, each given by its tag and payload. *)
Definition stream (cs : list (list byte * list byte)) : list byte :=
  concat (map (fun c => framed (fst c) (snd c)) cs).

(** The tag has four bytes and the length fits its field. *)
Definition well_formed (c : list byte * list byte) : Prop :=
  length (fst c) = 4%nat ∧ py_len (snd c) + 8 < 2 ^ 32.

End Layout.

(** ** What a reader relies on in a recorded action *)

Module Timeline.
Import Num Tables.

(** The action has a frame, its first frame is at time 0, the frames are
    in strictly increasing order of time, and all of them lie before the
    end of the action. *)
Definition well_timed (a : action) : Prop :=
  a_frames a ≠ []
  ∧ (∀ f, head (a_frames a) = Some f → fr_time f = 0)
  ∧ StronglySorted Z.lt (fr_time <$> a_frames a)
  ∧ Forall (fun f => fr_time f < a_duration a) (a_frames a).

(** Every frame changes at least one bone and at most [bound] of them. *)
Definition counted (bound : Z) (a : action) : Prop :=
  Forall (fun f => 0 < py_len (fr_changed f) ≤ bound) (a_frames a).

(** What the loop over the frames keeps true of its locals: the times
    recorded so far increase and start at 0, the origin is a sampled
    index from [lo] on, and the last of the times is the time of the last
    recorded frame [lf]. *)
Definition timed (nearest : Qc -> option Qc) (mpf : Qc) (lo : Z) (r : Anim.run) : Prop :=
  StronglySorted Z.lt (fr_time <$> Anim.r_frames r)
  ∧ (∀ f, head (Anim.r_frames r) = Some f → fr_time f = 0)
  ∧ (Anim.r_frames r ≠ [] →
     lo ≤ Anim.r_origin r ≤ Anim.r_lf r
     ∧ ∃ tl, last (fr_time <$> Anim.r_frames r) = Some tl
             ∧ Anim.msec nearest mpf (Anim.r_lf r - Anim.r_origin r) = Some tl).

End Timeline.

(** ** The bind-pose skeleton (source lines 361-411) *)

Module Armature.
Import Num Tables.

(** What the stage reads of a bone of an armature: its name, the name of
    its parent (bone names are unique inside one armature, so the
    source's [p == b.parent] is the equality of names), and the
    translation and normalized quaternion that lines 368-384 compute
    for it. *)
Record rest_bone := {
  rb_name : string;
  rb_parent : option string;
  rb_p : Qc * Qc * Qc;
  rb_q : Qc * Qc * Qc * Qc      (* x, y, z, w *)
}.

(** The locals the stage reads and writes. *)
Record state := {
  strs : dict Z string;
  verts : dict Z vertex;
  bones : dict string bone;
  idx : Z;
  use_skeleton : bool;
  use_animation : bool;
  reports : list string
}.

(** The locals when the stage starts: every pool is still empty. *)
Definition start (use_skeleton use_animation : bool) : state :=
  {| strs := []; verts := []; bones := []; idx := 0;
     use_skeleton := use_skeleton; use_animation := use_animation; reports := [] |}.

Section Stage.
Variable hash_string : string -> Z.
Variable hash_vertex : vertex -> Z.
Variable digits : Z.

(** The search for the parent's position in the armature's own bone
    collection; [-1] without a parent, or when it is not found. *)
Definition parent_index (arm : list rest_bone) (b : rest_bone) : Z :=
  match rb_parent b with
  | None => -1
  | Some p =>
      match list_find (fun x => rb_name x = p) arm with
      | Some (j, _) => Z.of_nat j
      | None => -1
      end
  end.

Definition not_unique (b : rest_bone) (n : string) : string :=
  ("Bone name " +:+ "'" +:+ rb_name b +:+ "'"
   +:+ (if bool_decide (rb_name b = n) then EmptyString else " (" +:+ n +:+ ")")
   +:+ " not unique.")%string.

Definition rest_position (b : rest_bone) : vertex :=
  let '(x, y, z) := rb_p b in
  vert (py_round_nd x digits) (py_round_nd y digits) (py_round_nd z digits) (Qc_of_Z 1) 0 (-1).

Definition rest_orientation (b : rest_bone) : vertex :=
  let '(x, y, z, w) := rb_q b in
  vert (py_round_nd x digits) (py_round_nd y digits) (py_round_nd z digits)
       (py_round_nd w digits) 0 (-2).

(** One iteration of [for b in ob_main.data.bones]; the boolean is
    [false] when the iteration ends in [break]. *)
Definition add_bone (arm : list rest_bone) (st : state) (b : rest_bone) : state * bool :=
  let n := Names.safestr (Some (rb_name b)) 0 in
  match dict_get (hash_string n) (strs st) with
  | Some _ =>
      ({| strs := strs st; verts := verts st; bones := []; idx := idx st;
          use_skeleton := false; use_animation := false;
          reports := reports st ++ [not_unique b n] |}, false)
  | None =>
      let a := parent_index arm b in
      let '(ni, ss) := uniquedict hash_string (strs st) n in
      let '(pos, vs1) := uniquedict hash_vertex (verts st) (rest_position b) in
      let '(ori, vs2) := uniquedict hash_vertex vs1 (rest_orientation b) in
      ({| strs := ss; verts := vs2;
          bones := dict_set (rb_name b)
                     (idx st, {| b_parent := a; b_name := ni; b_pos := pos; b_ori := ori |})
                     (bones st);
          idx := idx st + 1;
          use_skeleton := use_skeleton st; use_animation := use_animation st;
          reports := reports st |}, true)
  end.

(** The loop over the bones of one armature. *)
Fixpoint add_bones (arm : list rest_bone) (bs : list rest_bone) (st : state) : state :=
  match bs with
  | [] => st
  | b :: rest =>
      let '(st', go) := add_bone arm st b in
      if go then add_bones arm rest st' else st'
  end.

(** Lines 361-411, over the bone collections of the objects of type
    ARMATURE in the order of [objects]. *)
Definition stage (armatures : list (list rest_bone)) (st : state) : state :=
  if use_skeleton st then
    let st := fold_left (fun st arm => add_bones arm arm st) armatures
                {| strs := strs st; verts := verts st; bones := bones st; idx := 0;
                   use_skeleton := use_skeleton st; use_animation := use_animation st;
                   reports := reports st |} in
    if (py_len (bones st) <? 1) && use_animation st then
      {| strs := strs st; verts := verts st; bones := bones st; idx := idx st;
         use_skeleton := use_skeleton st; use_animation := false;
         reports := reports st ++ ["Skipping skeletal animation in lack of armature."%string] |}
    else st
  else st.

End Stage.

(** The safe name of a bone and the key it is looked up by. *)
Definition safe_name (b : rest_bone) : string := Names.safestr (Some (rb_name b)) 0.

(** What the stage has built after the bones [ps], as long as no name
    was found twice: one string and one bone per bone of [ps], in their
    order, numbered from 0, every bone referring to its own name. *)
Definition built (hash_string : string -> Z) (ps : list rest_bone) (st : state) : Prop :=
  use_skeleton st = true
  ∧ (strs st).*1 = (fun b => hash_string (safe_name b)) <$> ps
  ∧ sequential 0 (strs st)
  ∧ (strs st).*2.*2 = safe_name <$> ps
  ∧ (bones st).*1 = rb_name <$> ps
  ∧ sequential 0 (bones st)
  ∧ Forall (fun e => b_name e.2.2 = e.2.1) (bones st)
  ∧ idx st = py_len ps.

End Armature.

(** ** The value a writer expects of a material property *)

Module Kinds.
Import Tables.

(** The branch the binary writer takes on a property (source lines
    1098-1111) finds the kind of value it reads there: an index for a
    colour or a texture, a small integer for a byte, a float otherwise. *)
Definition kind_ok (p : Z * propval) : bool :=
  match Material.property_entry (fst p) with
  | None => false
  | Some e =>
      let fmt := Material.fmt_of e in
      if bool_decide (fmt = "color"%string) || bool_decide (fmt = "gscale"%string) then
        match snd p with PRef _ => true | _ => false end
      else if bool_decide (fmt = "byte"%string) || bool_decide (fmt = "//byte"%string) then
        match snd p with PByte _ => true | _ => false end
      else if 128 <=? fst p then
        match snd p with PRef _ => true | _ => false end
      else
        match snd p with PFloat _ => true | _ => false end
  end.

(** What the generic part of the material loop stores for a code of a
    given format is of the expected kind.  The value stored is an index
    for a texture, a colour or a grey scale, and a float for the formats
    "float", "byte" and "int". *)
Definition stores_ok (key : Z) (fmt : string) : bool :=
  if 128 <=? key then kind_ok (key, PRef 0)
  else if bool_decide (fmt = "gscale"%string) then kind_ok (key, PRef 0)
  else if bool_decide (fmt = "color"%string) then kind_ok (key, PRef 0)
  else if bool_decide (fmt = "float"%string) then kind_ok (key, PFloat (Qc_of_Z 0))
  else if bool_decide (fmt = "byte"%string) || bool_decide (fmt = "int"%string)
  then kind_ok (key, PFloat (Qc_of_Z 0))
  else true.

(** The same for one row of the property table, with the two codes that
    the loop treats on their own. *)
Definition row_ok (e : Z * (string * string * string)) : bool :=
  if fst e =? 0 then kind_ok (0, PRef 0) && stores_ok 0 (Material.fmt_of (snd e))
  else if fst e =? 8 then
    kind_ok (8, PByte 0) && bool_decide (Material.attr_of (snd e) = "illumination"%string)
  else bool_decide (String.substring 0 2 (Material.fmt_of (snd e)) = "//"%string)
       || stores_ok (fst e) (Material.fmt_of (snd e)).

End Kinds.

(** ** The size of a vertex record *)

Module Records.
Import Tables Index Model.

(** Bytes per coordinate for a quality setting. *)
Definition coordinate_bytes (quality : Z) : nat :=
  if quality =? 0 then 1%nat else if quality =? 1 then 2%nat
  else if quality =? 3 then 8%nat else 4%nat.

(** Four coordinates, a colour reference and a skin reference, the two
    references as wide as the header flags say. *)
Definition vertex_bytes (c : config) (w : Binary.widths) : nat :=
  (4 * coordinate_bytes (use_quality c)
   + idx_bytes (Binary.ci_s w) + idx_bytes (Binary.sk_s w))%nat.

End Records.

(** ** The bones that the recursion of the ASCII writer visits *)

Module Hierarchy.
Import Tables Model.

(** The calls of [bonestr]: the first one is for the parent -1, and a
    call for [p] makes one for each bone index whose entry names [p] as its
    parent.  [reach t d p]: there is a call for [p] at depth [d]. *)
Inductive reach (t : tables) : nat -> Z -> Prop :=
  | reach_root : reach t 0 (-1)
  | reach_child (d : nat) (p i : Z) (b : bone) :
      reach t d p -> 0 ≤ i -> bones t !! Z.to_nat i = Some b -> b_parent b = p ->
      reach t (S d) i.

End Hierarchy.

(** ** The list of actions to sample *)

Module Acts.
Import Num Tables Anim.

(** A timeline marker, and an action of [bpy.data.actions] with the
    frame range that lines 676-679 select. *)
Record marker := { mk_name : string; mk_frame : Z }.
Record bpy_action := { ba_name : string; ba_range : Qc * Qc }.

Record scene := {
  timeline_markers : list marker;
  frame_start : Z;
  frame_end : Z
}.

(** [sorted(markers, key=lambda tl: tl.frame)]: the sort is stable, a
    marker stays before the later ones of the same frame. *)
Fixpoint insert_marker (t : marker) (l : list marker) : list marker :=
  match l with
  | [] => [t]
  | u :: rest =>
      if mk_frame t <=? mk_frame u then t :: l else u :: insert_marker t rest
  end.

Definition sorted_markers (l : list marker) : list marker := foldr insert_marker [] l.

(** [for i, t in enumerate(tlm)], with [acts] and [nf]; the marker at
    [i + 1] is the head of what is left. *)
Fixpoint marker_acts (frame_end : Z) (tlm : list marker) (acc : list act * Z) : list act * Z :=
  match tlm with
  | [] => acc
  | t :: rest =>
      let et := match rest with [] => frame_end | u :: _ => mk_frame u - 1 end in
      marker_acts frame_end rest
        (if mk_frame t <? et then
           (fst acc ++ [{| act_name := Names.safestr (Some (mk_name t)) 0; act_index := -1;
                           act_start := mk_frame t; act_end := et |}],
            snd acc + (et - mk_frame t))
         else acc)
  end.

(** [for i, a in enumerate(bpy_actions)] *)
Definition action_acts (bpy_actions : list bpy_action) : list act * Z :=
  fold_left
    (fun acc ia =>
       let st := py_int (fst (ba_range (snd ia))) in
       let et := py_int (snd (ba_range (snd ia))) in
       ((if 0 <? et then
           fst acc ++ [{| act_name := Names.safestr (Some (ba_name (snd ia))) 0;
                          act_index := fst ia; act_start := st; act_end := et |}]
         else fst acc),
        snd acc + (et - st)))
    (zip (seqZ 0 (py_len bpy_actions)) bpy_actions) ([], 0).

(** Lines 659-690: the list [acts]. *)
Definition collect_acts (use_markers : bool) (sc : scene) (bpy_actions : list bpy_action)
    : list act :=
  let '(acts, nf) :=
    if use_markers && (0 <? py_len (timeline_markers sc))
    then marker_acts (frame_end sc) (sorted_markers (timeline_markers sc)) ([], 0)
    else action_acts bpy_actions in
  if nf =? 0 then
    (* no actions nor markers, one big happy animation only *)
    acts ++ [{| act_name := "Anim"; act_index := -1;
                act_start := frame_start sc; act_end := frame_end sc |}]
  else acts.

End Acts.

(** ** An action sampled at 19 frames per second *)

Module Sway.
Import Num Tables.

(** The two bones of [Samples.two_bones]; B is moved on frame 1, back
    at rest from frame 2 on, and moved again from frame 20 on. *)
Definition sway (a : Anim.act) (frame : Z) : list (list Anim.pose_bone) :=
  [[Samples.rest_A;
    if (frame =? 1) || (20 <=? frame) then Samples.moved_B else Samples.rest_B]].

Definition sway_act : Anim.act :=
  {| Anim.act_name := "Sway"; Anim.act_index := 0; Anim.act_start := 1; Anim.act_end := 20 |}.

End Sway.

(** * Properties *)

(** Case analysis on the integer comparisons of the goal. *)
Ltac no_branch a :=
  lazymatch a with
  | context [if _ then _ else _] => fail
  | _ => idtac
  end.

Ltac zcases :=
  repeat match goal with
    | |- context [?a <? ?b] => no_branch a; no_branch b; destruct (Z.ltb_spec a b)
    | |- context [?a <=? ?b] => no_branch a; no_branch b; destruct (Z.leb_spec a b)
    | |- context [?a >? ?b] => rewrite (Z.gtb_ltb a b)
    | |- context [?a =? ?b] => no_branch a; no_branch b; destruct (Z.eqb_spec a b)
    | |- _ => progress simpl
    end; try lia; try done.

(** ** Option preprocessing *)

Section OptionsFacts.
Import Options.

Lemma digits_of_quality_eq (q : Z) :
  digits_of_quality q = Some (if q =? 2 then 7 else 4).
Proof. unfold digits_of_quality. by destruct (q =? 2). Qed.

Lemma select_quality_range (objects : list object) (q : Z) (g : bool) :
  0 ≤ select_quality objects q g ≤ 3.
Proof.
  unfold select_quality. destruct g; zcases.
Qed.

Lemma select_quality_fixed (objects : list object) (q : Z) (g : bool) :
  2 ≤ q ≤ 3 → select_quality objects q g = q.
Proof.
  intros Hq. unfold select_quality. destruct g; zcases.
Qed.

(** C1.  The digits chosen for tier 3: the assignment of 15 is followed
    by an independent [if]/[else] on tier 2 whose [else] assigns 4, so an
    export at tier 3 rounds to 4 digits (tiers 0, 1 and 2 get 4, 4 and 7). *)
Theorem digits_tier3_overwritten (objects : list object) (sk an g : bool) (fps : Z) :
  let s := preprocess objects
             {| use_skeleton := sk; use_animation := an; use_fps := fps;
                use_quality := 3; use_gridcompress := g |} in
  s_use_quality s = 3 ∧ s_digits s = Some 4
  ∧ digits_of_quality 0 = Some 4 ∧ digits_of_quality 1 = Some 4
  ∧ digits_of_quality 2 = Some 7.
Proof.
  simpl. rewrite select_quality_fixed by lia. by repeat split.
Qed.

End OptionsFacts.

(** ** Index widths *)

Section IndexFacts.
Import Index.

(** C5.  [idxsize] on an entry count: the reserved code 3 exactly for 0,
    the 1-byte code below 254, the 2-byte code below 65534, the 4-byte
    code from there on; the byte counts are those [addidx] writes. *)
Theorem idxsize_widths (cnt : Z) :
  (idxsize cnt = 3 ↔ cnt = 0)
  ∧ (0 < cnt < 254 → idxsize cnt = 0 ∧ idx_bytes (idxsize cnt) = 1%nat)
  ∧ (254 ≤ cnt < 65534 → idxsize cnt = 1 ∧ idx_bytes (idxsize cnt) = 2%nat)
  ∧ (65534 ≤ cnt → idxsize cnt = 2 ∧ idx_bytes (idxsize cnt) = 4%nat)
  ∧ map idxsize [0; 1; 253; 254; 65533; 65534] = [3; 0; 0; 1; 1; 2]
  ∧ map (fun n => idx_bytes (idxsize n)) [1; 253; 254; 65533; 65534]
    = [1; 1; 2; 2; 4]%nat.
Proof.
  unfold idxsize. split.
  { split; [zcases | by intros ->]. }
  repeat split; try reflexivity; intros; zcases.
Qed.

Lemma idxsize_widths_witness :
  (idxsize 100 = 0 ∧ idx_bytes (idxsize 100) = 1%nat)
  ∧ (idxsize 1000 = 1 ∧ idx_bytes (idxsize 1000) = 2%nat)
  ∧ (idxsize 100000 = 2 ∧ idx_bytes (idxsize 100000) = 4%nat).
Proof.
  split; [|split].
  - apply (idxsize_widths 100). lia.
  - apply (idxsize_widths 1000). lia.
  - apply (idxsize_widths 100000). lia.
Defined.

Lemma Z_of_byte_of_Z (v : Z) : Z_of_byte (byte_of_Z v) = v mod 256.
Proof.
  unfold Z_of_byte, byte_of_Z.
  assert (Hr : 0 ≤ v mod 256 < 256) by (apply Z.mod_pos_bound; lia).
  destruct (Byte.of_N (Z.to_N (v mod 256))) as [b|] eqn:Hb.
  - apply Byte.to_of_N in Hb. rewrite Hb. lia.
  - apply Byte.of_N_None_iff in Hb. lia.
Qed.

Lemma length_le_bytes (n : nat) (v : Z) : length (le_bytes n v) = n.
Proof. revert v. induction n as [|n IH]; intros v; simpl; [done|by rewrite IH]. Qed.

(** A reader gets back what was written. *)
Lemma le_value_le_bytes (n : nat) (v : Z) :
  0 ≤ v < 256 ^ Z.of_nat n → le_value (le_bytes n v) = v.
Proof.
  revert v. induction n as [|n IH]; intros v Hv.
  - simpl in *. lia.
  - simpl. rewrite Z_of_byte_of_Z, IH.
    + pose proof (Z.div_mod v 256). lia.
    + rewrite Nat2Z.inj_succ, Z.pow_succ_r in Hv by lia.
      split; [apply Z.div_pos; lia|apply Z.div_lt_upper_bound; lia].
Qed.

Lemma pack_unsigned_in_range (n : nat) (v : Z) :
  0 ≤ v < 256 ^ Z.of_nat n → pack_unsigned n v = Some (le_bytes n v).
Proof.
  intros Hv. unfold pack_unsigned. zcases.
Qed.

Lemma addidx_sentinels (fmt : Z) :
  0 ≤ fmt ≤ 2 →
  addidx fmt (-1) = Some (le_bytes (idx_bytes fmt) (256 ^ Z.of_nat (idx_bytes fmt) - 1))
  ∧ addidx fmt (-2) = Some (le_bytes (idx_bytes fmt) (256 ^ Z.of_nat (idx_bytes fmt) - 2)).
Proof.
  intros Hf. by assert (fmt = 0 ∨ fmt = 1 ∨ fmt = 2) as [->|[->| ->]] by lia.
Qed.

Lemma addidx_in_range (fmt idx : Z) :
  0 ≤ fmt ≤ 2 → 0 ≤ idx < 256 ^ Z.of_nat (idx_bytes fmt) →
  addidx fmt idx = Some (le_bytes (idx_bytes fmt) idx).
Proof.
  intros Hf Hidx.
  assert (fmt = 0 ∨ fmt = 1 ∨ fmt = 2) as [->|[->| ->]] by lia;
    unfold addidx; simpl (_ =? _); cbv iota;
    destruct (Z.ltb_spec idx 0); try lia; by apply pack_unsigned_in_range.
Qed.

(** C6.  [addidx] at the widths of 1, 2 and 4 bytes: -1 is written as the
    largest unsigned value of the width and -2 as one less; an index the
    width can hold is written as its little-endian unsigned value. *)
Theorem addidx_encoding :
  le_value <$> addidx 0 (-1) = Some 255 ∧ le_value <$> addidx 0 (-2) = Some 254
  ∧ le_value <$> addidx 1 (-1) = Some 65535 ∧ le_value <$> addidx 1 (-2) = Some 65534
  ∧ le_value <$> addidx 2 (-1) = Some 4294967295
  ∧ le_value <$> addidx 2 (-2) = Some 4294967294
  ∧ (∀ fmt : Z, 0 ≤ fmt ≤ 2 →
       addidx fmt (-1) = Some (le_bytes (idx_bytes fmt) (256 ^ Z.of_nat (idx_bytes fmt) - 1))
       ∧ addidx fmt (-2) = Some (le_bytes (idx_bytes fmt) (256 ^ Z.of_nat (idx_bytes fmt) - 2)))
  ∧ (∀ fmt idx : Z, 0 ≤ fmt ≤ 2 → 0 ≤ idx < 256 ^ Z.of_nat (idx_bytes fmt) →
       addidx fmt idx = Some (le_bytes (idx_bytes fmt) idx)
       ∧ length (le_bytes (idx_bytes fmt) idx) = idx_bytes fmt
       ∧ le_value (le_bytes (idx_bytes fmt) idx) = idx).
Proof.
  split_and!; try reflexivity.
  - apply addidx_sentinels.
  - intros fmt idx Hf Hidx. split_and!.
    + by apply addidx_in_range.
    + apply length_le_bytes.
    + by apply le_value_le_bytes.
Qed.

Lemma addidx_encoding_witness :
  addidx 1 300 = Some (le_bytes 2 300) ∧ le_value (le_bytes 2 300) = 300.
Proof.
  destruct addidx_encoding as (_ & _ & _ & _ & _ & _ & _ & H).
  destruct (H 1 300) as (H1 & _ & H2);
    [lia | vm_compute; split; [discriminate | reflexivity] | ].
  split; [exact H1 | exact H2].
Defined.

(** X3.  An index into a table, at the width [idxsize] selects for the
    table's entry count: it is written as its own value and cannot be
    taken for one of the two sentinels. *)
Lemma addidx_of_table_index (cnt idx : Z) :
  0 ≤ idx < cnt → cnt < 4294967295 →
  addidx (idxsize cnt) idx = Some (le_bytes (idx_bytes (idxsize cnt)) idx)
  ∧ le_value (le_bytes (idx_bytes (idxsize cnt)) idx) = idx
  ∧ addidx (idxsize cnt) idx ≠ addidx (idxsize cnt) (-1)
  ∧ addidx (idxsize cnt) idx ≠ addidx (idxsize cnt) (-2).
Proof.
  intros Hidx Hcnt.
  assert (0 ≤ idxsize cnt ≤ 2 ∧ idx < 256 ^ Z.of_nat (idx_bytes (idxsize cnt)) - 2) as [Hf Hr].
  { unfold idxsize, idx_bytes. zcases. }
  pose proof (addidx_in_range (idxsize cnt) idx Hf ltac:(lia)) as H1.
  destruct (addidx_sentinels (idxsize cnt) Hf) as [Hm1 Hm2].
  split_and!; [done|by apply le_value_le_bytes; lia| |].
  - rewrite H1, Hm1. intros [= Heq]. apply (f_equal le_value) in Heq.
    rewrite !le_value_le_bytes in Heq by lia. lia.
  - rewrite H1, Hm2. intros [= Heq]. apply (f_equal le_value) in Heq.
    rewrite !le_value_le_bytes in Heq by lia. lia.
Qed.

End IndexFacts.

(** ** Grid compression *)

Section GridFacts.
Import Num Tables Grid.

(** The rescaling loop skips exactly the orientation entries. *)
Lemma rescale_orientation (s : Qc) (digits : Z) (v : vertex) :
  vs v = -2 → rescale s digits v = v.
Proof. intros H. unfold rescale. by rewrite H. Qed.

Lemma rescale_position (s : Qc) (digits : Z) (v : vertex) :
  vs v ≠ -2 →
  rescale s digits v =
    vert (py_round_nd (vx v / s) digits) (py_round_nd (vy v / s) digits)
         (py_round_nd (vz v / s) digits) (vw v) (vc v) (vs v).
Proof. intros H. unfold rescale. by destruct (Z.eqb_spec (vs v) (-2)). Qed.

(** With grid compression on, every entry goes through [rescale] when the
    scale is neither 0 nor 1, none otherwise; a use_scale that is not
    positive is replaced by the scale (by 1.0 when that is 0 too). *)
Lemma normalize_grid (digits : Z) (use_scale : Qc) (verts : list vertex) :
  let s := grid_scale verts in
  normalize true digits use_scale verts =
    (if decide (s = Qc_of_Z 1 ∨ s = Qc_of_Z 0) then verts else map (rescale s digits) verts,
     if decide (Qc_of_Z 0 < use_scale)%Qc then use_scale
     else if decide (Qc_of_Z 0 < s)%Qc then s else Qc_of_Z 1).
Proof.
  cbv zeta. unfold normalize. generalize (grid_scale verts) as s. intros s. f_equal.
  - destruct (decide (s = Qc_of_Z 1)) as [->|H1].
    + rewrite bool_decide_eq_true_2 by done. cbn [negb andb]. by rewrite decide_True by auto.
    + rewrite (bool_decide_eq_false_2 _ H1). cbn [negb andb].
      destruct (decide (s = Qc_of_Z 0)) as [->|H0].
      * rewrite bool_decide_eq_true_2 by done. cbn [negb]. by rewrite decide_True by auto.
      * rewrite (bool_decide_eq_false_2 _ H0). cbn [negb]. rewrite decide_False; [done|]. intros [?|?]; done.
  - destruct (decide (use_scale ≤ Qc_of_Z 0)%Qc) as [Hu|Hu].
    + rewrite (decide_False (P := (Qc_of_Z 0 < use_scale)%Qc)) by (by apply Qcle_not_lt).
      destruct (decide (s ≤ Qc_of_Z 0)%Qc) as [Hs|Hs].
      * by rewrite decide_False by (by apply Qcle_not_lt).
      * by rewrite decide_True by (by apply Qcnot_le_lt).
    + rewrite (decide_False (P := (use_scale ≤ Qc_of_Z 0)%Qc)) by done.
      by rewrite decide_True by (by apply Qcnot_le_lt).
Qed.

(** C2.  The scale of grid compression is taken over every pooled entry,
    orientations included, while the rescaling loop a few lines below
    skips them.  For a pool with one position at x = 1/2 and the
    quaternion (1, 0, 0, 0), the source finds the scale 1, rescales
    nothing and declares the scale 1; the extent of the position-kind
    entries alone is 1/2, which would move the position to x = 1 and
    declare the scale 1/2. *)
Theorem grid_scale_counts_orientations :
  let pool := Examples.half_turn_pool in
  grid_scale pool = Examples.q 1 1
  ∧ spec_scale pool = Examples.q 1 2
  ∧ normalize true 4 (Examples.q 0 1) pool = (pool, Examples.q 1 1)
  ∧ map (rescale (spec_scale pool) 4) pool =
      [ vert (Examples.q 1 1) (Examples.q 0 1) (Examples.q 0 1) (Examples.q 1 1) 0 (-1);
        vert (Examples.q 1 1) (Examples.q 0 1) (Examples.q 0 1) (Examples.q 0 1) 0 (-2) ].
Proof. repeat split; compute_done. Qed.

End GridFacts.

(** ** Skin weights *)

Section SkinFacts.
Import Num Tables Skin.

Lemma total_app (a b : skin) : total (a ++ b) = total a + total b.
Proof.
  unfold total, weights. induction a as [|x a IH]; simpl; [done|]. rewrite IH. lia.
Qed.

Lemma total_cons (e : Z * Z) (sk : skin) : total (e :: sk) = snd e + total sk.
Proof. reflexivity. Qed.

Lemma total_insert (sk : skin) (i : nat) (b b' x y : Z) :
  sk !! i = Some (b, x) → total (<[i := (b', y)]> sk) = total sk - x + y.
Proof.
  revert i. induction sk as [|e sk IH]; intros [|i] H; try done.
  - injection H as ->.
    change (<[0%nat := (b', y)]> ((b, x) :: sk)) with ((b', y) :: sk).
    rewrite !total_cons. simpl. lia.
  - change (<[S i := (b', y)]> (e :: sk)) with (e :: <[i := (b', y)]> sk).
    rewrite !total_cons, (IH i H). lia.
Qed.

(** After the correction the weights add up to 255, as long as [si]
    points into the skin. *)
Lemma absorb_total (sk : skin) (i : nat) :
  is_Some (sk !! i) → total (absorb sk (total sk) (Some i)) = 255.
Proof.
  intros [[b x] H]. unfold absorb.
  destruct (Z.eqb_spec (total sk) 255) as [->|_]; [done|].
  rewrite H. rewrite (total_insert _ _ _ _ _ _ H). lia.
Qed.

(** A vertex whose raw weights do not add up to more than 0 gets no skin. *)
Lemma zero_sum_unskinned hash bones (groups : list group) (st : state) :
  (sum_weights groups ≤ Qc_of_Z 0)%Qc → vertex_skin hash bones groups st = Some (-1, st).
Proof.
  intros H. unfold vertex_skin.
  destruct (_ && _); [|done].
  case_decide as Hlt; [|done]. by apply Qclt_not_le in Hlt.
Qed.

(** Raw weights 3.0 and 1.0: the bytes 191 and 64. *)
Lemma three_to_one_bytes :
  (fun r => (fst r, Skin.skins (snd r))) <$>
    vertex_skin (fun _ => 0) (Examples.chain 2) Examples.three_to_one (Examples.skin_start 2)
  = Some (0, [(0, (0, [(0, 191); (1, 64)]))]).
Proof. compute_done. Qed.

(** C7.  A vertex in 33 vertex groups with equal weights: every weight is
    rescaled to 8, the sum is 264, and the correction of -9 lands on the
    first entry, which is written as -1.  The skin still adds up to 255
    but its first weight is outside [1, 255]. *)
Theorem skin_weight_below_range :
  let r := vertex_skin (fun _ => 0) (Examples.chain 33) (Examples.even_weights 33)
             (Examples.skin_start 33) in
  (fun r => (fst r, (fun e => weights (snd (snd e))) <$> Skin.skins (snd r))) <$> r
    = Some (0, [-1 :: repeat 8 32%nat])
  ∧ fold_right Z.add 0 (-1 :: repeat 8 32%nat) = 255.
Proof. split; compute_done. Qed.

End SkinFacts.

(** ** Skin weights of a vertex with few influences *)

Section RoundFacts.
Import Num.

(** [round(x)] is within one half of [x]. *)
Lemma py_round_bounds (x : Qc) :
  (Qc_of_Z (2 * py_round x - 1) ≤ Qc_of_Z 2 * x)%Qc
  ∧ (Qc_of_Z 2 * x ≤ Qc_of_Z (2 * py_round x + 1))%Qc.
Proof.
  unfold py_round.
  pose proof (Qfloor_le x) as Hlo. pose proof (Qlt_floor x) as Hhi.
  set (f := Qfloor x) in *.
  assert (∀ r : Z, (inject_Z (2 * r - 1) <= 2 * this x)%Q →
                   (2 * this x <= inject_Z (2 * r + 1))%Q →
           (Qc_of_Z (2 * r - 1) ≤ Qc_of_Z 2 * x)%Qc
           ∧ (Qc_of_Z 2 * x ≤ Qc_of_Z (2 * r + 1))%Qc) as Hgoal.
  { intros r H1 H2. unfold Qcle. simpl. rewrite !Qred_correct. split; [exact H1|exact H2]. }
  assert (this (x - Qc_of_Z f)%Qc == this x - inject_Z f)%Q as Hd.
  { unfold Qcminus, Qcplus, Qcopp. simpl. rewrite !Qred_correct. reflexivity. }
  rewrite inject_Z_plus in Hhi.
  repeat case_decide;
    repeat match goal with
      | H : (_ < _)%Qc |- _ => unfold Qclt in H; rewrite Hd in H
      | H : ¬ (_ < _)%Qc |- _ => apply Qcnot_lt_le in H; unfold Qcle in H; rewrite Hd in H
      end;
    change (this (Q2Qc (1 # 2))) with (1 # 2)%Q in *;
    try destruct (Z.even f);
    apply Hgoal; unfold Z.sub;
    repeat (rewrite inject_Z_plus || rewrite inject_Z_mult || rewrite inject_Z_opp);
    change (inject_Z 2) with 2%Q in *; change (inject_Z 1) with 1%Q in *; lra.
Qed.

Lemma Qc_sum_app (l k : list Qc) : Qc_sum (l ++ k) = (Qc_sum l + Qc_sum k)%Qc.
Proof.
  induction l as [|x l IH]; simpl.
  - by rewrite Z2Qc_inj_0, Qcplus_0_l.
  - rewrite IH. ring.
Qed.

Lemma Qc_sum_scale (c : Qc) (l : list Qc) :
  Qc_sum (map (fun x => x * c)%Qc l) = (Qc_sum l * c)%Qc.
Proof.
  induction l as [|x l IH]; simpl.
  - rewrite Z2Qc_inj_0. ring.
  - rewrite IH. ring.
Qed.

Lemma Qc_sum_nonneg (l : list Qc) :
  Forall (fun x => Qc_of_Z 0 ≤ x)%Qc l → (Qc_of_Z 0 ≤ Qc_sum l)%Qc.
Proof.
  induction 1 as [|x l Hx _ IH]; simpl; [done|].
  rewrite Z2Qc_inj_0 in *. by apply Qcplus_nonneg_nonneg.
Qed.

Lemma Qc_sum_elem (l : list Qc) (x : Qc) :
  Forall (fun x => Qc_of_Z 0 ≤ x)%Qc l → x ∈ l → (x ≤ Qc_sum l)%Qc.
Proof.
  induction 1 as [|y l Hy Hl IH]; intros Hin; [by apply elem_of_nil in Hin|].
  apply Qc_sum_nonneg in Hl as Hs. rewrite Z2Qc_inj_0 in *. simpl.
  apply elem_of_cons in Hin as [->|Hin].
  - rewrite <- (Qcplus_0_r y) at 1. by apply Qcplus_le_mono_l.
  - trans (Qc_sum l); [by apply IH|].
    rewrite <- (Qcplus_0_l (Qc_sum l)) at 1. by apply Qcplus_le_mono_r.
Qed.

Lemma Qc_sum_le (l k : list Qc) : Forall2 Qcle l k → (Qc_sum l ≤ Qc_sum k)%Qc.
Proof.
  induction 1 as [|x y l k Hxy _ IH]; simpl; [done|]. by apply Qcplus_le_compat.
Qed.

Lemma Qc_sum_of_Z (l : list Z) : Qc_sum (map Qc_of_Z l) = Qc_of_Z (Z_sum l).
Proof. induction l as [|x l IH]; simpl; [done|]. by rewrite IH, Z2Qc_inj_add. Qed.

End RoundFacts.

Section ScaledFacts.
Import Num.

Lemma round_sum_bounds (xs : list Qc) :
  (Qc_of_Z (2 * Z_sum (map py_round xs) - Z.of_nat (length xs)) ≤ Qc_of_Z 2 * Qc_sum xs)%Qc
  ∧ (Qc_of_Z 2 * Qc_sum xs ≤ Qc_of_Z (2 * Z_sum (map py_round xs) + Z.of_nat (length xs)))%Qc.
Proof.
  induction xs as [|x xs [IHlo IHhi]].
  - simpl. rewrite Z2Qc_inj_0, Qcmult_0_r. done.
  - destruct (py_round_bounds x) as [Hlo Hhi]. cbn [map Z_sum fold_right Qc_sum length].
    fold (Z_sum (map py_round xs)). fold (Qc_sum xs).
    replace (Qc_of_Z 2 * (x + Qc_sum xs))%Qc
      with (Qc_of_Z 2 * x + Qc_of_Z 2 * Qc_sum xs)%Qc by ring.
    split.
    + replace (2 * (py_round x + Z_sum (map py_round xs)) - Z.of_nat (S (length xs)))
        with ((2 * py_round x - 1) + (2 * Z_sum (map py_round xs) - Z.of_nat (length xs)))
        by lia.
      rewrite Z2Qc_inj_add. by apply Qcplus_le_compat.
    + replace (2 * (py_round x + Z_sum (map py_round xs)) + Z.of_nat (S (length xs)))
        with ((2 * py_round x + 1) + (2 * Z_sum (map py_round xs) + Z.of_nat (length xs)))
        by lia.
      rewrite Z2Qc_inj_add. by apply Qcplus_le_compat.
Qed.

(** Where the values are not negative and add up to 255, every rounded
    value is between 0 and 255 and their sum is within half the number of
    values of 255. *)
Lemma rounded_parts (xs : list Qc) :
  Forall (fun x => Qc_of_Z 0 ≤ x)%Qc xs → Qc_sum xs = Qc_of_Z 255 →
  Forall (fun r => 0 ≤ r ≤ 255) (map py_round xs)
  ∧ 510 - Z.of_nat (length xs) ≤ 2 * Z_sum (map py_round xs) ≤ 510 + Z.of_nat (length xs).
Proof.
  intros Hpos Hsum. split.
  - apply Forall_fmap, Forall_forall. intros x Hx. simpl.
    destruct (py_round_bounds x) as [Hlo Hhi].
    assert (Qc_of_Z 0 ≤ Qc_of_Z 2 * x)%Qc as H0.
    { rewrite Z2Qc_inj_0. apply Qcmult_nonneg_nonneg; [by rewrite <- Z2Qc_inj_0, <- Z2Qc_inj_le|].
      rewrite <- Z2Qc_inj_0. by eapply Forall_forall in Hpos. }
    assert (Qc_of_Z 2 * x ≤ Qc_of_Z 510)%Qc as H1.
    { change 510 with (2 * 255). rewrite Z2Qc_inj_mul, <- Hsum.
      apply Qcmult_le_mono_nonneg_l; [by rewrite <- Z2Qc_inj_0, <- Z2Qc_inj_le|].
      by apply Qc_sum_elem. }
    assert (Qc_of_Z 0 ≤ Qc_of_Z (2 * py_round x + 1))%Qc as H2 by (by etrans).
    assert (Qc_of_Z (2 * py_round x - 1) ≤ Qc_of_Z 510)%Qc as H3 by (by etrans).
    apply Z2Qc_inj_le in H2, H3. lia.
  - destruct (round_sum_bounds xs) as [Hlo Hhi].
    rewrite Hsum, <- Z2Qc_inj_mul in Hlo, Hhi. apply Z2Qc_inj_le in Hlo, Hhi. lia.
Qed.

End ScaledFacts.

Section FewInfluences.
Import Num Tables Skin.

Lemma clamp_range (s : Z) : 1 ≤ clamp s ≤ 255.
Proof. unfold clamp. zcases. Qed.

Lemma clamp_id (s : Z) : 1 ≤ s ≤ 255 → clamp s = s.
Proof. intros H. unfold clamp. zcases. Qed.

Lemma clamp_le_succ (s : Z) : 0 ≤ s → clamp s ≤ s + 1.
Proof. intros H. unfold clamp. zcases. Qed.

Lemma sum_weights_sum (gs : list group) : sum_weights gs = Qc_sum (map g_weight gs).
Proof.
  unfold sum_weights.
  assert (∀ a, fold_left (fun wf g => (wf + g_weight g)%Qc) gs a
               = (a + Qc_sum (map g_weight gs))%Qc) as H.
  { induction gs as [|g gs IH]; intros a; simpl.
    - rewrite Z2Qc_inj_0. ring.
    - rewrite IH. ring. }
  rewrite H, Z2Qc_inj_0. ring.
Qed.

(** The rescaled weights of a vertex add up to 255. *)
Lemma scaled_sum (gs : list group) (wf : Qc) :
  wf = sum_weights gs → (Qc_of_Z 0 < wf)%Qc →
  Qc_sum (map (fun g => g_weight g / wf * Qc_of_Z 255)%Qc gs) = Qc_of_Z 255.
Proof.
  intros Hwf Hpos.
  assert (wf ≠ 0%Qc) as Hne.
  { intros ->. rewrite Z2Qc_inj_0 in Hpos. by apply Qclt_not_eq in Hpos. }
  rewrite (map_ext _ (fun g => (fun x => x * (/ wf * Qc_of_Z 255))%Qc (g_weight g)))
    by (intros g; unfold Qcdiv; ring).
  rewrite <- (map_map g_weight (fun x => x * (/ wf * Qc_of_Z 255))%Qc), Qc_sum_scale.
  rewrite <- sum_weights_sum, <- Hwf, Qcmult_assoc, Qcmult_inv_r by done. ring.
Qed.

Lemma scaled_nonneg (gs : list group) (wf : Qc) :
  (Qc_of_Z 0 < wf)%Qc → Forall (fun g => Qc_of_Z 0 ≤ g_weight g)%Qc gs →
  Forall (fun x => Qc_of_Z 0 ≤ x)%Qc (map (fun g => g_weight g / wf * Qc_of_Z 255)%Qc gs).
Proof.
  intros Hpos Hgs. apply Forall_fmap. eapply Forall_impl; [exact Hgs|].
  intros g Hg. simpl. rewrite Z2Qc_inj_0 in *.
  apply Qcmult_nonneg_nonneg; [|by rewrite <- Z2Qc_inj_0, <- Z2Qc_inj_le].
  unfold Qcdiv. apply Qcmult_nonneg_nonneg; [done|]. by apply Qclt_le_weak, Qcinv_pos.
Qed.

Lemma Z_sum_app (l k : list Z) : Z_sum (l ++ k) = Z_sum l + Z_sum k.
Proof. induction l as [|x l IH]; simpl; [done|]. rewrite IH. lia. Qed.

Lemma weigh_done bones vg (wf : Qc) (gs seen : list group) (a a' : acc) :
  weighed wf seen a → weigh bones vg wf gs a = (a', Done) → weighed wf (seen ++ gs) a'.
Proof.
  revert seen a. induction gs as [|g gs IH]; intros seen a Ha H.
  - cbn [weigh] in H. simplify_eq. by rewrite app_nil_r.
  - cbn [weigh] in H. cbv zeta in H.
    destruct (bone_of_group bones vg g) as [b| |]; [|done..].
    replace (seen ++ g :: gs) with ((seen ++ [g]) ++ gs) by (by rewrite <- app_assoc).
    eapply IH; [|exact H]. clear H IH.
    destruct Ha as (H1 & H2 & H3 & H4 & H5).
    destruct (Z.ltb_spec (a_wm a) (rounded wf g)) as [Hlt|Hge]; unfold weighed;
      cbn [a_skin a_w a_wm a_si].
    + split_and!.
      * unfold weights in *. by rewrite !map_app, H1.
      * rewrite map_app, Z_sum_app, H2. simpl. lia.
      * apply Forall_app. split; [|by apply Forall_singleton].
        eapply Forall_impl; [exact H3|]. simpl. intros; lia.
      * right. rewrite map_app. apply elem_of_app. right. by apply list_elem_of_singleton.
      * intros _. exists (length (a_skin a)), b. split; [done|].
        by rewrite lookup_app_r, Nat.sub_diag by lia.
    + split_and!.
      * unfold weights in *. by rewrite !map_app, H1.
      * rewrite map_app, Z_sum_app, H2. simpl. lia.
      * apply Forall_app. split; [done|]. by apply Forall_singleton.
      * destruct H4 as [H4|H4]; [by left|]. right. rewrite map_app. apply elem_of_app. by left.
      * intros Hwm. destruct (H5 Hwm) as (i & b' & Hi & Hl). exists i, b'. split; [done|].
        by apply lookup_app_l_Some.
Qed.

Lemma Z_sum_clamp (rs : list Z) :
  Forall (fun r => 0 ≤ r ≤ 255) rs → Z_sum (map clamp rs) ≤ Z_sum rs + Z.of_nat (length rs).
Proof.
  induction 1 as [|r rs Hr _ IH]; simpl; [done|].
  pose proof (clamp_le_succ r). lia.
Qed.

Lemma Z_sum_bounded (rs : list Z) (m : Z) :
  Forall (fun r => r ≤ m) rs → 0 ≤ m → (length rs ≤ 8)%nat → Z_sum rs ≤ 8 * m.
Proof.
  intros H Hm. revert H.
  assert (∀ rs, Forall (fun r => r ≤ m) rs → Z_sum rs ≤ Z.of_nat (length rs) * m) as Hgen.
  { induction 1 as [|r rs' Hr _ IH]; simpl; [lia|].
    fold (Z_sum rs'). lia. }
  intros H Hlen. specialize (Hgen rs H). nia.
Qed.

Lemma Z_sum_elem (ws : list Z) (x : Z) :
  Forall (fun w => 0 ≤ w) ws → x ∈ ws → x ≤ Z_sum ws.
Proof.
  induction 1 as [|w ws Hw Hws IH]; intros Hin; [by apply elem_of_nil in Hin|].
  assert (0 ≤ Z_sum ws) by (clear -Hws; induction Hws; simpl; [lia|]; fold (Z_sum l); lia).
  simpl. fold (Z_sum ws). apply elem_of_cons in Hin as [->|Hin]; [lia|].
  specialize (IH Hin). lia.
Qed.

(** A vertex with at most 8 influences, none of them negative, whose
    groups all match bones: the corrected skin adds up to 255 and every
    weight of it is in [1, 255]. *)
Lemma few_influences_in_range bones vg (gs : list group) (si0 : option nat) (a : acc) :
  (0 < length gs ≤ 8)%nat →
  Forall (fun g => Qc_of_Z 0 ≤ g_weight g)%Qc gs →
  (Qc_of_Z 0 < sum_weights gs)%Qc →
  weigh bones vg (sum_weights gs) gs {| a_skin := []; a_w := 0; a_wm := 0; a_si := si0 |}
    = (a, Done) →
  let sk := absorb (a_skin a) (a_w a) (a_si a) in
  total sk = 255 ∧ Forall (fun w => 1 ≤ w ≤ 255) (weights sk) ∧ length sk = length gs.
Proof.
  intros Hlen Hgs Hwf Hrun sk. set (wf := sum_weights gs) in *.
  apply (weigh_done _ _ _ _ []) in Hrun;
    [|by split_and!; [done|done|apply Forall_nil|left|simpl; lia]].
  cbn [app] in Hrun. destruct Hrun as (H1 & H2 & H3 & H4 & H5).
  destruct (rounded_parts (map (fun g => g_weight g / wf * Qc_of_Z 255)%Qc gs)) as [Hr Hs];
    [by apply scaled_nonneg|by apply scaled_sum|].
  rewrite map_map, length_map in *. fold (rounded wf) in *.
  set (rs := map (rounded wf) gs) in *.
  assert (Forall (fun r => r ≤ a_wm a) rs) as H3' by (by apply Forall_fmap).
  assert (0 ≤ a_wm a ≤ 255) as Hwm.
  { destruct H4 as [->|H4]; [lia|]. by eapply Forall_forall in Hr. }
  assert (length rs = length gs) as Hlr by (by unfold rs; rewrite length_map).
  assert (Z_sum rs ≤ 8 * a_wm a) as Hb by (apply Z_sum_bounded; [done|lia|lia]).
  assert (32 ≤ a_wm a) as Hm by lia.
  destruct (H5 ltac:(lia)) as (i & b & Hsi & Hi).
  rewrite clamp_id in Hi by lia.
  assert (a_w a = total (a_skin a)) as Hw by (unfold total; by rewrite H1, H2).
  assert (Forall (fun w => 1 ≤ w ≤ 255) (weights (a_skin a))) as Hin.
  { rewrite H1. apply Forall_fmap, Forall_forall. intros g _. apply clamp_range. }
  assert (length (a_skin a) = length gs) as Hls.
  { rewrite <- (length_map snd (a_skin a)). fold (weights (a_skin a)).
    by rewrite H1, length_map. }
  split; [subst sk; rewrite Hsi, Hw; by apply absorb_total|].
  subst sk. unfold absorb. destruct (Z.eqb_spec (a_w a) 255) as [_|Hne]; [done|].
  rewrite Hsi, Hi. split; [|by rewrite length_insert].
  unfold weights. rewrite list_fmap_insert. apply Forall_insert; [done|]. simpl.
  assert (a_w a ≤ Z_sum rs + Z.of_nat (length rs)) as Hup.
  { rewrite H2, <- (map_map (rounded wf) clamp). by apply Z_sum_clamp. }
  assert (a_wm a ≤ a_w a) as Hlo.
  { rewrite Hw. apply Z_sum_elem.
    - eapply Forall_impl; [exact Hin|]. simpl. intros; lia.
    - unfold weights. apply (list_elem_of_fmap_2 snd _ (b, a_wm a)).
      by eapply list_elem_of_lookup_2. }
  lia.
Qed.

End FewInfluences.

(** ** Material properties *)

Section MaterialFacts.
Import Num Tables Material.

Variable hash_color : color -> Z.
Variable hash_string : string -> Z.
Variable hash_asset : asset -> Z.
Variable texturedata : string -> list byte.
Variable use_inline : bool.

Local Abbreviation emit_key := (emit_key hash_color hash_string hash_asset texturedata use_inline).
Local Abbreviation emit_generic := (emit_generic hash_color hash_string hash_asset texturedata use_inline).
Local Abbreviation set_color_prop := (set_color_prop hash_color).
Local Abbreviation set_map_prop := (set_map_prop hash_string hash_asset texturedata use_inline).

Lemma props_get_set (k k0 : Z) (v : propval) (p : props) :
  props_get k0 (props_set k v p) = if k0 =? k then Some v else props_get k0 p.
Proof.
  induction p as [|[k' v'] p IH]; simpl.
  - by destruct (k0 =? k).
  - destruct (Z.eqb_spec k k') as [->|Hk]; simpl.
    + by destruct (k0 =? k').
    + rewrite IH. destruct (Z.eqb_spec k0 k') as [->|]; [|done].
      by destruct (Z.eqb_spec k' k).
Qed.

(** Only the property of code [k] differs between [l] and [l']; the
    list of materials and the local [d] are the same. *)
Definition only (k : Z) (l l' : locals) : Prop :=
  materials (l_st l') = materials (l_st l) ∧ l_d l' = l_d l
  ∧ ∀ k0, k0 ≠ k → props_get k0 (l_props l') = props_get k0 (l_props l).

Lemma only_refl k l : only k l l.
Proof. by repeat split. Qed.

Lemma only_set_prop k v l : only k l (set_prop k v l).
Proof.
  repeat split. intros k0 Hk. simpl. rewrite props_get_set.
  by destruct (Z.eqb_spec k0 k).
Qed.

Lemma only_set_color_prop k c l : only k l (set_color_prop k c l).
Proof.
  unfold Material.set_color_prop, intern_color.
  destruct (uniquedict _ _ _) as [i cm]. repeat split.
  intros k0 Hk. simpl. rewrite props_get_set. by destruct (Z.eqb_spec k0 k).
Qed.

Lemma only_set_map_prop k image l : only k l (set_map_prop k image l).
Proof.
  unfold Material.set_map_prop.
  destruct (uniquedict _ _ _) as [i ss]. repeat split.
  intros k0 Hk. simpl. rewrite props_get_set. by destruct (Z.eqb_spec k0 k).
Qed.

Lemma only_emit_generic key fmt val l l' :
  emit_generic key fmt val l = Some l' → only key l l'.
Proof.
  unfold Material.emit_generic. intros H.
  repeat (case_match; simplify_eq);
    auto using only_refl, only_set_prop, only_set_color_prop, only_set_map_prop.
Qed.

(** Every code but 0 and 8 goes through the generic part alone. *)
Lemma only_emit_key w l l' (e : Z * (string * string * string)) :
  e.1 ≠ 0 → e.1 ≠ 8 → emit_key w (Some l) e = Some l' → only e.1 l l'.
Proof.
  intros H0 H8. unfold Material.emit_key.
  destruct (Z.eqb_spec e.1 0); [done|]. destruct (Z.eqb_spec e.1 8); [done|].
  case_bool_decide; [intros; simplify_eq; apply only_refl|].
  destruct (getattr w _); [apply only_emit_generic|intros; simplify_eq; apply only_refl].
Qed.

Lemma emit_key_None w es : fold_left (emit_key w) es None = None.
Proof. by induction es. Qed.

Lemma fold_emit_key w es l l' :
  Forall (fun e => e.1 ≠ 0 ∧ e.1 ≠ 8) es →
  fold_left (emit_key w) es (Some l) = Some l' →
  materials (l_st l') = materials (l_st l) ∧ l_d l' = l_d l
  ∧ props_get 8 (l_props l') = props_get 8 (l_props l).
Proof.
  intros Hes. revert l. induction Hes as [|e es [H0 H8] _ IH]; intros l H; cbn [fold_left] in H.
  - by simplify_eq.
  - destruct (emit_key w (Some l) e) as [l1|] eqn:He; [|by rewrite emit_key_None in H].
    apply only_emit_key in He as (Hm & Hd & Hp); [|done..].
    destruct (IH _ H) as (Hm' & Hd' & Hp').
    rewrite Hm', Hd', Hp', (Hp 8) by done. done.
Qed.

(** Code 0: the material list is untouched and [d] is bound afterwards. *)
Lemma emit_key_kd w l l' t :
  emit_key w (Some l) (0, t) = Some l' →
  materials (l_st l') = materials (l_st l) ∧ is_Some (l_d l').
Proof.
  unfold Material.emit_key. simpl. unfold derive_kd.
  destruct (if _ : bool then _ else _) as [d|]; [|done].
  set (l0 := {| l_props := l_props l; l_d := Some d; l_st := l_st l |}).
  assert (∀ l1, only 0 l0 l1 →
            ∀ l2, match getattr w (attr_of t) with
                  | Some val => emit_generic 0 (fmt_of t) val l1
                  | None => Some l1
                  end = Some l2 →
            materials (l_st l2) = materials (l_st l) ∧ is_Some (l_d l2)) as Hgen.
  { intros l1 (Hm & Hd & _) l2 H2.
    assert (only 0 l1 l2) as (Hm' & Hd' & _).
    { destruct (getattr w _); [by eapply only_emit_generic|simplify_eq; apply only_refl]. }
    rewrite Hm', Hd', Hm, Hd. by eauto. }
  destruct (negb _).
  - destruct (base_color w) as [|r [|g [|b ?]]]; try done.
    apply Hgen, only_set_color_prop.
  - apply Hgen, only_refl.
Qed.

(** No branch of the decision table leaves the illumination at 0. *)
Lemma illumination_nonzero w d : illumination w d ≠ 0.
Proof. unfold illumination. repeat case_match; lia. Qed.

Lemma illumination_no_specular w d : specular w = Qc_of_Z 0 → illumination w d = 1.
Proof. intros H. unfold illumination. by rewrite bool_decide_eq_true_2. Qed.

(** Code 8: the illumination is stored, whatever the wrapper holds. *)
Lemma emit_key_il w l l' d t :
  attr_of t = "illumination"%string → l_d l = Some d →
  emit_key w (Some l) (8, t) = Some l' →
  materials (l_st l') = materials (l_st l) ∧ l_d l' = Some d
  ∧ props_get 8 (l_props l') = Some (PByte (illumination w d)).
Proof.
  intros Ht Hd. unfold Material.emit_key. simpl. unfold derive_il. rewrite Hd, Ht.
  destruct (Z.eqb_spec (illumination w d) 0) as [H0|_]; [by apply illumination_nonzero in H0|].
  simpl. intros; simplify_eq. repeat split; [done|]. simpl. by rewrite props_get_set.
Qed.

(** The whole loop over the property table. *)
Lemma property_loop w l l' :
  fold_left (emit_key w) mat_property_map (Some l) = Some l' →
  materials (l_st l') = materials (l_st l)
  ∧ ∃ d, props_get 8 (l_props l') = Some (PByte (illumination w d)).
Proof.
  change mat_property_map with
    ([hd (0, (""%string, ""%string, ""%string)) mat_property_map]
     ++ take 7 (drop 1 mat_property_map)
     ++ [(8, ("//byte"%string, "illumination"%string, "il"%string))]
     ++ drop 9 mat_property_map).
  rewrite !fold_left_app. simpl hd. cbn [fold_left].
  destruct (emit_key w (Some l) _) as [l1|] eqn:H1; [|by rewrite !emit_key_None].
  apply emit_key_kd in H1 as [Hm1 [d Hd1]].
  destruct (fold_left _ (take 7 _) _) as [l2|] eqn:H2; [|by rewrite !emit_key_None].
  apply fold_emit_key in H2 as (Hm2 & Hd2 & _);
    [|by repeat (apply Forall_cons; split; [done|]); apply Forall_nil].
  destruct (emit_key w (Some l2) _) as [l3|] eqn:H3; [|by rewrite !emit_key_None].
  apply (emit_key_il _ _ _ d) in H3 as (Hm3 & Hd3 & Hp3); [|done|congruence].
  intros H4. apply fold_emit_key in H4 as (Hm4 & _ & Hp4);
    [|by repeat (apply Forall_cons; split; [done|]); apply Forall_nil].
  split; [congruence|]. exists d. congruence.
Qed.

Lemma props_get_nonempty (k : Z) (p : props) : is_Some (props_get k p) → 0 < py_len p.
Proof. destruct p; [by intros [? ?]|]. unfold py_len. simpl. lia. Qed.

(** C3, as amended.  A material that has a wrapper always gets the
    illumination property (code 8), which is 1 when specular is 0; so its
    record is appended to the materials, with that property in it,
    whenever the pass returns. *)
Theorem illumination_always_emitted (st st' : state) (mat : blender_material) (w : wrapper) :
  mat_wrap mat = Some w →
  export_material hash_color hash_string hash_asset texturedata use_inline
    (Some st) (Some mat) = Some st' →
  ∃ (n : Z) (p : props) (d : Qc),
    materials st' = materials st ++ [{| m_name := n; m_props := p |}]
    ∧ props_get 8 p = Some (PByte (illumination w d))
    ∧ illumination w d ≠ 0
    ∧ (specular w = Qc_of_Z 0 → props_get 8 p = Some (PByte 1)).
Proof.
  intros Hw. unfold export_material. rewrite Hw.
  set (l0 := match mat_node_image mat with Some _ => _ | None => _ end).
  assert (materials (l_st l0) = materials st) as Hm0.
  { subst l0. destruct (mat_node_image mat); [|done]. apply only_set_map_prop. }
  destruct (fold_left _ _ _) as [l1|] eqn:Hl; [|done].
  apply property_loop in Hl as [Hm1 [d Hp]].
  destruct (Z.ltb_spec 0 (py_len (l_props l1))) as [_|Hlen].
  - destruct (uniquedict _ _ _) as [n ss]. intros; simplify_eq. simpl.
    exists n, (l_props l1), d. rewrite Hm1, Hm0. repeat split; [done|apply illumination_nonzero|].
    intros Hs. by rewrite Hp, illumination_no_specular.
  - assert (0 < py_len (l_props l1)) by (apply (props_get_nonempty 8); by rewrite Hp). lia.
Qed.

End MaterialFacts.

Section MaterialExamples.
Import Num Tables Material.

(** C3, the claim as stated fails: the material with specular 0 and
    every other value zero is written, with three properties. *)
Lemma zero_material_is_written :
  materials <$> export_material Examples.hash_color Examples.hash_string Examples.hash_asset
                  (fun _ => []) false (Some Examples.no_materials) (Some Examples.zero_material)
  = Some [{| m_name := 0; m_props := [(0, PRef 0); (3, PRef 0); (8, PByte 1)] |}]
  ∧ materials <$> export_material Examples.hash_color Examples.hash_string Examples.hash_asset
                    (fun _ => []) false (Some Examples.no_materials) (Some Examples.zero_material)
    ≠ Some [].
Proof. split; [compute_done|]. by vm_compute. Qed.

Lemma illumination_always_emitted_witness :
  ∃ st',
    export_material Examples.hash_color Examples.hash_string Examples.hash_asset
      (fun _ => []) false (Some Examples.no_materials) (Some Examples.zero_material) = Some st'
    ∧ ∃ (n : Z) (p : props) (d : Qc),
        materials st' = materials Examples.no_materials ++ [{| m_name := n; m_props := p |}]
        ∧ props_get 8 p = Some (PByte (illumination Examples.zero_wrapper d))
        ∧ illumination Examples.zero_wrapper d ≠ 0
        ∧ (specular Examples.zero_wrapper = Qc_of_Z 0 → props_get 8 p = Some (PByte 1)).
Proof.
  destruct (export_material Examples.hash_color Examples.hash_string Examples.hash_asset
              (fun _ => []) false (Some Examples.no_materials) (Some Examples.zero_material))
    as [st'|] eqn:E; [|by vm_compute in E].
  exists st'. split; [reflexivity|].
  exact (illumination_always_emitted _ _ _ _ _ _ _ Examples.zero_material
           Examples.zero_wrapper eq_refl E).
Defined.

End MaterialExamples.

(** ** Interning tables *)

Section TableFacts.
Import Tables.
Context {K E : Type} `{EqDecision K}.

Lemma dict_set_fresh (k : K) (v : Z * E) (l : dict K E) :
  dict_get k l = None → dict_set k v l = l ++ [(k, v)].
Proof.
  induction l as [|[k' v'] l IH]; [done|]. simpl. case_decide; [done|].
  intros H'. by rewrite IH.
Qed.

Lemma sequential_snoc (n : nat) (l : dict K E) (k : K) (e : E) :
  sequential n l → sequential n (l ++ [(k, (Z.of_nat (n + length l), e))]).
Proof.
  revert n. induction l as [|[k' [i e']] l IH]; intros n; simpl.
  - intros _. split; [|done]. f_equal. lia.
  - intros [-> H']. split; [done|].
    replace (n + S (length l))%nat with (S n + length l)%nat by lia. by apply IH.
Qed.

Lemma py_insert_end {A} (r : list A) (x : A) : py_insert r (py_len r) x = r ++ [x].
Proof.
  unfold py_insert, py_len. rewrite Nat2Z.id, firstn_all, drop_all. done.
Qed.

Lemma dict2list_from (l : dict K E) (r : list E) :
  sequential (length r) l →
  fold_left (fun r kv => py_insert r (fst (snd kv)) (snd (snd kv))) l r = r ++ l.*2.*2.
Proof.
  revert r. induction l as [|[k [i e]] l IH]; intros r; simpl.
  - intros _. by rewrite app_nil_r.
  - intros [-> Hl]. fold (py_len r). rewrite py_insert_end, IH.
    + by rewrite <- app_assoc.
    + rewrite length_app. simpl. by replace (length r + 1)%nat with (S (length r)) by lia.
Qed.

(** The conversion of a dictionary whose indices were handed out in
    order of insertion: its elements, in that order. *)
Lemma dict2list_sequential (l : dict K E) : sequential 0 l → dict2list l = l.*2.*2.
Proof. intros H'. unfold dict2list. by rewrite (dict2list_from l []). Qed.

End TableFacts.

Section UniqueFacts.
Import Tables.
Context {E : Type}.
Variable hash_str : E → Z.

(** [uniquedict] keeps the indices in order of insertion, and the table
    grows by at most one entry. *)
Lemma uniquedict_sequential (l : dict Z E) (e : E) :
  sequential 0 l →
  sequential 0 (uniquedict hash_str l e).2
  ∧ ((uniquedict hash_str l e).2 = l
     ∨ (uniquedict hash_str l e).2 = l ++ [(hash_str e, (py_len l, e))]).
Proof.
  intros Hl. unfold uniquedict. destruct (dict_get (hash_str e) l) as [[i x]|] eqn:Hg; simpl.
  - split; [done|by left].
  - rewrite dict_set_fresh by done. split; [|by right].
    by apply (sequential_snoc 0 l).
Qed.

Lemma dict_get_snoc (k : Z) (v : Z * E) (l : dict Z E) :
  dict_get k l = None → dict_get k (l ++ [(k, v)]) = Some v.
Proof.
  induction l as [|[k' v'] l IH]; simpl.
  - intros _. by rewrite decide_True.
  - case_decide; [done|]. exact IH.
Qed.

(** Interning the same element twice gives the same index. *)
Lemma uniquedict_again (l : dict Z E) (e : E) :
  uniquedict hash_str (uniquedict hash_str l e).2 e = uniquedict hash_str l e.
Proof.
  unfold uniquedict. destruct (dict_get (hash_str e) l) as [[i x]|] eqn:Hg; simpl.
  - by rewrite Hg.
  - rewrite dict_set_fresh by done. by rewrite dict_get_snoc.
Qed.

End UniqueFacts.

(** ** The tables after the conversion *)

Section FrameFacts.
Import Num Tables Model.

Variable pack_f : Qc -> list byte.
Variable pack_d : Qc -> list byte.
Variable zlib_compress : list byte -> list byte.
Variable gzip_compress : list byte -> list byte.
Variable str_float : Qc -> string.
Variable fmt_02x : Z -> string.
Variable logname : string.

(** The failsafe changes nothing inside the unit square. *)
Lemma clamp_in_place_id (e : uv) : Binary.out_of_range e = false → Ascii.clamp_in_place e = e.
Proof.
  unfold Binary.out_of_range. rewrite !orb_false_iff, !bool_decide_eq_false.
  intros [[[H1 H2] H3] H4]. unfold Ascii.clamp_in_place. destruct e as [u v]; cbn [tu tv] in *.
  rewrite (decide_False (P := (Qc_of_Z 1 < u)%Qc)) by done. cbn [tu tv].
  rewrite (decide_False (P := (u < Qc_of_Z 0)%Qc)) by done. cbn [tu tv].
  rewrite (decide_False (P := (Qc_of_Z 1 < v)%Qc)) by done. cbn [tu tv].
  rewrite (decide_False (P := (v < Qc_of_Z 0)%Qc)) by done. done.
Qed.

Local Abbreviation fixed := (Ascii.fixed).

Lemma fixed_eq (c : config) (e : uv) :
  fixed c e = if allow_unnormalized_uvs c then e else Ascii.clamp_in_place e.
Proof.
  unfold Ascii.fixed. destruct (allow_unnormalized_uvs c); [by rewrite andb_false_r|].
  rewrite andb_true_r. destruct (Binary.out_of_range e) eqn:H; [done|].
  by rewrite clamp_in_place_id.
Qed.

Lemma textmap_loop (c : config) (l : list uv) (st : Ascii.textmap) (k : nat) :
  (k ≤ length l)%nat → Ascii.tm_tmaps st = l →
  Ascii.tm_tmaps (fold_left (Ascii.textmap_step str_float c) (seq 0 k) st)
  = map (fixed c) (take k l) ++ drop k l.
Proof.
  intros Hk Hst. induction k as [|k IH].
  - by rewrite take_0, drop_0.
  - rewrite seq_S, fold_left_app. cbn [fold_left Nat.add].
    specialize (IH ltac:(lia)).
    destruct (lookup_lt_is_Some_2 l k ltac:(lia)) as [e He].
    unfold Ascii.textmap_step at 1. rewrite IH.
    assert (length (map (fixed c) (take k l)) = k) as Hlen
      by (rewrite length_map, length_take; lia).
    rewrite lookup_app_r, Hlen, Nat.sub_diag, (drop_S _ _ _ He) by lia. cbn [lookup list_lookup].
    rewrite (take_S_r _ _ _ He), map_app, <- app_assoc. cbn [map app].
    destruct (Binary.out_of_range e && negb (allow_unnormalized_uvs c)) eqn:Hc;
      cbn [Ascii.tm_tmaps].
    + replace (fixed c e) with (Ascii.clamp_in_place e) by (unfold Ascii.fixed; by rewrite Hc).
      by rewrite insert_app_r_alt, Hlen, Nat.sub_diag by lia.
    + replace (fixed c e) with e by (unfold Ascii.fixed; by rewrite Hc).
      done.
Qed.

Lemma textmap_section_tmaps (c : config) (l : list uv) :
  Ascii.tm_tmaps (Ascii.textmap_section str_float c l) = map (fixed c) l.
Proof.
  unfold Ascii.textmap_section. destruct (Z.ltb_spec 0 (py_len l)) as [_|H].
  - cbn [Ascii.tm_tmaps]. rewrite (textmap_loop c l) by done.
    by rewrite firstn_all, drop_all, app_nil_r.
  - destruct l; [done|]. unfold py_len in H. simpl in H. lia.
Qed.


(** The textual writer writes to the UV table alone. *)
Lemma write_ascii_tables (c : config) (m : content) (t t' : tables) (out : Ascii.output) :
  Ascii.write_ascii str_float fmt_02x gzip_compress logname c m t = Some (out, t') →
  t' = {| cmap := cmap t; strs := strs t; verts := verts t;
          tmaps := map (fixed c) (tmaps t);
          bones := bones t; skins := skins t; inlined := inlined t |}.
Proof.
  unfold Ascii.write_ascii. intros H.
  apply bind_Some in H as (mats & _ & H). apply bind_Some in H as (rest & _ & H).
  simplify_eq. by rewrite textmap_section_tmaps.
Qed.


End FrameFacts.

Section FrameExamples.
Import Num Tables Model Samples.



End FrameExamples.

(** ** The binary file *)

Section BinaryFacts.
Import Num Tables Index Model.

Variable pack_f : Qc -> list byte.
Variable pack_d : Qc -> list byte.
Variable zlib_compress : list byte -> list byte.
Variable logname : string.

Lemma pack_unsigned_Some (n : nat) (v : Z) (bs : list byte) :
  pack_unsigned n v = Some bs → 0 ≤ v < 256 ^ Z.of_nat n ∧ bs = le_bytes n v.
Proof.
  unfold pack_unsigned.
  destruct (Z.leb_spec 0 v), (Z.ltb_spec v (256 ^ Z.of_nat n)); simpl; intros; by simplify_eq.
Qed.

(** The file that [finish] builds around a chunk buffer. *)
Lemma finish_layout (c : config) (buf file : list byte) :
  Binary.finish zlib_compress c buf = Some file →
  let payload := if use_strmcompress c then zlib_compress (buf ++ bytes_of "OMD3")
                 else buf ++ bytes_of "OMD3" in
  file = bytes_of "3DMO" ++ le_bytes 4 (py_len file) ++ payload
  ∧ le_value (take 4 (drop 4 file)) = py_len file.
Proof.
  intros H payload. unfold Binary.finish in H. fold payload in H.
  apply bind_Some in H as (len & Hlen & H). simplify_eq.
  apply pack_unsigned_Some in Hlen as [Hr ->].
  assert (py_len (bytes_of "3DMO" ++ le_bytes 4 (py_len payload + 8) ++ payload)
          = py_len payload + 8) as Hl.
  { unfold py_len. rewrite !length_app, length_le_bytes.
    change (length (bytes_of "3DMO")) with 4%nat. lia. }
  rewrite Hl. split; [done|].
  change (bytes_of "3DMO") with [Byte.x33; Byte.x44; Byte.x4d; Byte.x4f].
  cbn [app drop]. rewrite drop_0, take_app_length' by (by rewrite length_le_bytes).
  by apply le_value_le_bytes.
Qed.

(** The file is written whenever the chunks are and the length fits
    its four bytes. *)
Lemma finish_total (c : config) (buf : list byte) :
  let payload := if use_strmcompress c then zlib_compress (buf ++ bytes_of "OMD3")
                 else buf ++ bytes_of "OMD3" in
  py_len payload + 8 < 2 ^ 32 → is_Some (Binary.finish zlib_compress c buf).
Proof.
  intros payload H. unfold Binary.finish. fold payload.
  rewrite pack_unsigned_in_range; [by eexists|]. unfold py_len in *. lia.
Qed.

(** C9.  A binary file is the magic, then four bytes that hold the
    length of the whole file, least significant first, then the chunk
    buffer, compressed or not; the buffer before compression is the
    chunks followed by the bare end tag. *)
Theorem binary_file_layout (zlib_decompress : list byte → list byte)
    (c : config) (t t' : tables) (m : content) (file : list byte) :
  (∀ b, zlib_decompress (zlib_compress b) = b) →
  Binary.write_binary pack_f pack_d zlib_compress logname c t m = Some (file, t') →
  ∃ buf payload : list byte,
    Binary.chunks pack_f pack_d logname c t m = Some buf
    ∧ file = bytes_of "3DMO" ++ le_bytes 4 (py_len file) ++ payload
    ∧ le_value (take 4 (drop 4 file)) = py_len file
    ∧ (if use_strmcompress c then zlib_decompress payload else payload)
      = buf ++ bytes_of "OMD3".
Proof.
  intros Hz H. unfold Binary.write_binary in H.
  apply bind_Some in H as (buf & Hbuf & H). apply bind_Some in H as (f & Hf & H).
  simplify_eq. apply finish_layout in Hf as [Hfile Hlen].
  eexists buf, _. repeat split; [done|exact Hfile|exact Hlen|].
  by destruct (use_strmcompress c).
Qed.

End BinaryFacts.

Section BinaryExamples.
Import Num Tables Index Model Samples.

(** The one-triangle model, uncompressed: 111 bytes, the chunks in order. *)
Lemma triangle_file :
  (fun r => (length r.1, string_of_list_byte (take 4 r.1), le_value (take 4 (drop 4 r.1)),
             chunk_tags 20 (drop 8 r.1)))
    <$> Binary.write_binary four_bytes eight_bytes stored "me" config0 triangle_tables
          triangle_content
  = Some (111%nat, "3DMO"%string, 111,
          ["HEAD"; "CMAP"; "VRTS"; "MTRL"; "MESH"; "OMD3"]%string).
Proof. compute_done. Qed.

Lemma binary_file_layout_witness :
  ∃ file buf payload,
    Binary.chunks four_bytes eight_bytes "me" config_z triangle_tables triangle_content = Some buf
    ∧ file = bytes_of "3DMO" ++ le_bytes 4 (py_len file) ++ payload
    ∧ le_value (take 4 (drop 4 file)) = py_len file
    ∧ unstored payload = buf ++ bytes_of "OMD3".
Proof.
  destruct (Binary.write_binary four_bytes eight_bytes stored "me" config_z triangle_tables
              triangle_content) as [[file t']|] eqn:E; [|by vm_compute in E].
  destruct (binary_file_layout four_bytes eight_bytes stored "me" unstored
              config_z triangle_tables t' triangle_content file (fun b => eq_refl) E)
    as (buf & payload & H1 & H2 & H3 & H4).
  exists file, buf, payload. repeat split; [exact H1|exact H2|exact H3|exact H4].
Defined.

End BinaryExamples.

(** ** Actions *)

Section DictFacts.
Import Tables.
Context {K E : Type} `{EqDecision K}.

Lemma dict_get_elem (k : K) (v : Z * E) (l : dict K E) : dict_get k l = Some v → (k, v) ∈ l.
Proof.
  induction l as [|[k' v'] l IH]; [done|]. simpl. case_decide as Hk.
  - intros; simplify_eq. apply list_elem_of_here.
  - intros H. apply list_elem_of_further. auto.
Qed.

(** Where a projection of the entries has no duplicates, looking for an
    entry by its projection finds that entry. *)
Lemma find_unique {A} (f : A → Z) (l : list A) (x : A) :
  NoDup (f <$> l) → x ∈ l → find (fun e => f e =? f x) l = Some x.
Proof.
  induction l as [|a l IH]; intros Hnd Hx; [by apply elem_of_nil in Hx|].
  rewrite fmap_cons in Hnd. apply NoDup_cons in Hnd as [Ha Hnd]. simpl.
  destruct (Z.eqb_spec (f a) (f x)) as [Heq|Hne].
  - apply elem_of_cons in Hx as [->|Hx]; [done|].
    exfalso. apply Ha. rewrite Heq. by apply list_elem_of_fmap_2.
  - apply elem_of_cons in Hx as [->|Hx]; [done|]. by apply IH.
Qed.

End DictFacts.

Lemma seqZ_sorted (m n : Z) : StronglySorted Z.lt (seqZ m n).
Proof.
  destruct (decide (n ≤ 0)) as [Hn|Hn]; [rewrite seqZ_nil by done; constructor|].
  rewrite <- (Z2Nat.id n) by lia. generalize (Z.to_nat n) as k. clear. intros k. revert m.
  induction k as [|k IH]; intros m; [constructor|].
  rewrite seqZ_cons by lia. replace (Z.pred (Z.of_nat (S k))) with (Z.of_nat k) by lia.
  constructor; [apply IH|]. apply Forall_seqZ. intros; lia.
Qed.

Lemma sorted_sublist (l k : list Z) :
  sublist l k → StronglySorted Z.lt k → StronglySorted Z.lt l.
Proof.
  induction 1 as [|x l k Hlk IH|x l k Hlk IH]; intros Hs; [constructor|..].
  - apply StronglySorted_inv in Hs as [Hs Hall]. constructor; [by apply IH|].
    apply Forall_forall. intros y Hy. apply (proj1 (Forall_forall _ _) Hall).
    by eapply sublist_subseteq.
  - apply StronglySorted_inv in Hs as [Hs _]. by apply IH.
Qed.

Section AnimFacts.
Import Num Tables Anim Recorded.

Variable nearest : Qc -> option Qc.
Variable hash_vertex : vertex -> Z.
Variable hash_string : string -> Z.
Variable digits : Z.
Variable bones : dict string bone.
Variable pose : act -> Z -> list (list pose_bone).
Variable animated : list bool.

(** [bones] is a dictionary whose indices were handed out one by one. *)
Hypothesis bones_keys : NoDup (bones.*1).
Hypothesis bones_indices : NoDup ((fun e => e.2.1) <$> bones).

Local Abbreviation walk_bones := (walk_bones hash_vertex digits bones).
Local Abbreviation walk_armatures := (walk_armatures hash_vertex digits bones).
Local Abbreviation msec := (msec nearest).
Local Abbreviation sample_frame := (sample_frame nearest hash_vertex digits bones pose).
Local Abbreviation record_frames := (record_frames nearest hash_vertex digits bones pose).
Local Abbreviation export_action :=
  (export_action nearest hash_vertex hash_string digits bones pose animated).
Local Abbreviation seen_bones := (Recorded.seen_bones hash_vertex digits bones).
Local Abbreviation seen := (Recorded.seen hash_vertex digits bones).
Local Abbreviation changes := (Recorded.changes bones).
Local Abbreviation expected := (Recorded.expected hash_vertex digits bones pose).

Lemma bind_of_bone (name : string) (idx : Z) (b : bone) :
  dict_get name bones = Some (idx, b) → bind_of bones idx = Some (b_pos b, b_ori b).
Proof.
  intros H. apply dict_get_elem in H. unfold bind_of.
  pose proof (find_unique (fun e : string * (Z * bone) => e.2.1) bones _ bones_indices H) as F.
  simpl in F. by rewrite F.
Qed.

Lemma bone_name_unique (name name' : string) (idx : Z) (b b' : bone) :
  dict_get name bones = Some (idx, b) → dict_get name' bones = Some (idx, b') → name = name'.
Proof.
  intros H H'. apply dict_get_elem in H, H'.
  pose proof (find_unique (fun e : string * (Z * bone) => e.2.1) bones _ bones_indices H) as F.
  pose proof (find_unique (fun e : string * (Z * bone) => e.2.1) bones _ bones_indices H') as F'.
  simpl in F, F'. congruence.
Qed.

Lemma fold_insert_other {V} (g : Z * bone → V) (l : dict string bone) (m : gmap string V)
    (name : string) :
  name ∉ l.*1 → fold_left (fun m nb => <[nb.1 := g nb.2]> m) l m !! name = m !! name.
Proof.
  revert m. induction l as [|[k v] l IH]; intros m Hn; [done|].
  rewrite fmap_cons in Hn. apply not_elem_of_cons in Hn as [Hk Hn]. simpl.
  rewrite IH by done. by rewrite lookup_insert_ne.
Qed.

Lemma fold_insert_elem {V} (g : Z * bone → V) (l : dict string bone) (m : gmap string V)
    (name : string) (v : Z * bone) :
  NoDup (l.*1) → (name, v) ∈ l →
  fold_left (fun m nb => <[nb.1 := g nb.2]> m) l m !! name = Some (g v).
Proof.
  revert m. induction l as [|[k v'] l IH]; intros m Hnd Hin; [by apply elem_of_nil in Hin|].
  rewrite fmap_cons in Hnd. apply NoDup_cons in Hnd as [Hk Hnd]. simpl.
  apply elem_of_cons in Hin as [Heq|Hin].
  - simplify_eq. rewrite fold_insert_other by done. by rewrite lookup_insert_eq.
  - by apply IH.
Qed.

Lemma bind_pose_bone (name : string) (idx : Z) (b : bone) :
  dict_get name bones = Some (idx, b) → bind_pose bones !! name = Some (b_pos b, b_ori b).
Proof.
  intros H. apply dict_get_elem in H. unfold bind_pose.
  by rewrite (fold_insert_elem (fun v => (b_pos v.2, b_ori v.2)) bones ∅ name (idx, b)).
Qed.

Local Abbreviation tracks := (Recorded.tracks bones).

Lemma tracks_bind : tracks (bind_pose bones) [].
Proof.
  intros name idx b H. rewrite (bind_pose_bone _ _ _ H). unfold last_recorded. simpl.
  by rewrite (bind_of_bone _ _ _ H).
Qed.

Lemma last_recorded_snoc (h : list delta) (d : delta) (idx : Z) :
  last_recorded bones (h ++ [d]) idx =
    if d_bone d =? idx then Some (d_pos d, d_ori d) else last_recorded bones h idx.
Proof. unfold last_recorded. rewrite rev_unit. simpl. by destruct (d_bone d =? idx). Qed.

Lemma all_changes_snoc (seen rest : list delta) (d : delta) :
  all_changes bones seen (rest ++ [d]) =
    all_changes bones seen rest
    && negb (bool_decide (last_recorded bones (seen ++ rest) (d_bone d) = Some (d_pos d, d_ori d))).
Proof.
  revert seen. induction rest as [|e rest IH]; intros seen; simpl.
  - by rewrite app_nil_r, andb_true_r.
  - rewrite IH, <- app_assoc. simpl. by rewrite andb_assoc.
Qed.

Lemma tracks_record (lastpose : gmap string (Z * Z)) (h : list delta)
    (name : string) (idx : Z) (b : bone) (pos ori : Z) :
  tracks lastpose h → dict_get name bones = Some (idx, b) →
  tracks (<[name := (pos, ori)]> lastpose)
         (h ++ [{| d_bone := idx; d_pos := pos; d_ori := ori |}]).
Proof.
  intros Ht Hb name' idx' b' Hb'. rewrite last_recorded_snoc. simpl.
  destruct (decide (name = name')) as [<-|Hne].
  - rewrite lookup_insert_eq. replace idx' with idx by congruence. by rewrite Z.eqb_refl.
  - rewrite lookup_insert_ne by done.
    destruct (Z.eqb_spec idx idx') as [<-|_]; [|by eapply Ht].
    by destruct Hne; eapply bone_name_unique.
Qed.

(** The delta list of what two armatures show is the delta list of the
    first followed by that of the second. *)
Lemma changes_app (h o1 o2 : list delta) :
  changes h (o1 ++ o2) = changes h o1 ++ changes (h ++ changes h o1) o2.
Proof.
  revert h. induction o1 as [|d o1 IH]; intros h.
  - simpl. by rewrite app_nil_r.
  - cbn [app Recorded.changes]. case_bool_decide.
    + apply IH.
    + rewrite IH. cbn [app]. f_equal. by rewrite <- app_assoc.
Qed.

(** Every entry of a delta list is a change. *)
Lemma all_changes_changes (h obs : list delta) :
  all_changes bones [] h = true → all_changes bones [] (h ++ changes h obs) = true.
Proof.
  revert h. induction obs as [|d obs IH]; intros h Hh.
  - simpl. by rewrite app_nil_r.
  - cbn [Recorded.changes]. case_bool_decide as Hd.
    + by apply IH.
    + replace (h ++ d :: changes (h ++ [d]) obs) with ((h ++ [d]) ++ changes (h ++ [d]) obs)
        by (by rewrite <- app_assoc).
      apply IH. rewrite all_changes_snoc, Hh. simpl.
      by rewrite bool_decide_eq_false_2.
Qed.

(** The loop over the pose bones of an armature never raises; its delta
    list is that of what the armature shows, and [lastpose] stays in step
    with the deltas. *)
Lemma walk_bones_seen (h0 : list delta) (bs : list pose_bone) (s : walk) :
  tracks (w_lastpose s) (h0 ++ w_changed s) →
  ∃ s', walk_bones bs s = Some s'
    ∧ w_changed s' = w_changed s ++ changes (h0 ++ w_changed s) (seen_bones bs (w_verts s)).1
    ∧ w_verts s' = (seen_bones bs (w_verts s)).2
    ∧ tracks (w_lastpose s') (h0 ++ w_changed s').
Proof.
  revert s. induction bs as [|b bs IH]; intros s Ht.
  - exists s. simpl. by rewrite app_nil_r.
  - cbn [Anim.walk_bones Recorded.seen_bones].
    destruct (dict_get (pb_name b) bones) as [[idx bn]|] eqn:Hb.
    + destruct (uniquedict _ _ (pooled_position _ b)) as [pos vs1].
      destruct (uniquedict _ vs1 _) as [ori vs2].
      pose proof (Ht _ _ _ Hb) as Hl.
      assert (is_Some (last_recorded bones (h0 ++ w_changed s) idx)) as [[lp lo] Hlr].
      { unfold last_recorded. destruct (find _ _); [done|]. by rewrite (bind_of_bone _ _ _ Hb). }
      rewrite Hl, Hlr.
      set (d := {| d_bone := idx; d_pos := pos; d_ori := ori |}).
      destruct (negb (lp =? pos) || negb (lo =? ori)) eqn:Hd.
      * destruct (IH {| w_lastpose := <[pb_name b := (pos, ori)]> (w_lastpose s);
                        w_verts := vs2; w_changed := w_changed s ++ [d];
                        w_reports := w_reports s |}) as (s' & H1 & H2 & H3 & H4).
        { simpl. rewrite app_assoc. by eapply tracks_record. }
        exists s'. cbn [w_verts w_changed] in *.
        destruct (Recorded.seen_bones hash_vertex digits bones bs vs2) as [ds vs3].
        cbn [fst snd Recorded.changes d_bone d_pos d_ori d] in *.
        rewrite Hlr. rewrite bool_decide_eq_false_2.
        -- split; [exact H1|]. split; [|split; [exact H3|exact H4]].
           rewrite H2. by rewrite <- !app_assoc.
        -- intros ?; simplify_eq. by rewrite !Z.eqb_refl in Hd.
      * destruct (IH {| w_lastpose := w_lastpose s; w_verts := vs2;
                        w_changed := w_changed s; w_reports := w_reports s |})
          as (s' & H1 & H2 & H3 & H4); [done|].
        exists s'. cbn [w_verts w_changed] in *.
        destruct (Recorded.seen_bones hash_vertex digits bones bs vs2) as [ds vs3].
        cbn [fst snd Recorded.changes d_bone d_pos d_ori d] in *.
        rewrite Hlr. rewrite bool_decide_eq_true_2; [by split_and!|].
        apply orb_false_iff in Hd as [Hp Ho].
        apply negb_false_iff, Z.eqb_eq in Hp, Ho. by subst.
    + eexists. split; [done|]. simpl. by rewrite app_nil_r.
Qed.

Lemma walk_armatures_None (arms : list (list pose_bone)) :
  fold_left (fun s bs => s ≫= walk_bones bs) arms None = None.
Proof. by induction arms. Qed.

Lemma walk_armatures_seen (h0 : list delta) (arms : list (list pose_bone)) (s : walk) :
  tracks (w_lastpose s) (h0 ++ w_changed s) →
  ∃ s', walk_armatures arms s = Some s'
    ∧ w_changed s' = w_changed s ++ changes (h0 ++ w_changed s) (seen arms (w_verts s)).1
    ∧ w_verts s' = (seen arms (w_verts s)).2
    ∧ tracks (w_lastpose s') (h0 ++ w_changed s').
Proof.
  unfold Anim.walk_armatures. revert s. induction arms as [|bs arms IH]; intros s Ht.
  - exists s. simpl. by rewrite app_nil_r.
  - destruct (walk_bones_seen h0 bs s Ht) as (s1 & H1 & H2 & H3 & H4).
    destruct (IH s1 H4) as (s' & H5 & H6 & H7 & H8).
    exists s'. cbn [fold_left Recorded.seen]. simpl. rewrite H1. simpl.
    split; [done|].
    destruct (Recorded.seen_bones hash_vertex digits bones bs (w_verts s)) as [ds vs1].
    cbn [fst snd] in *. rewrite H3 in *.
    destruct (Recorded.seen hash_vertex digits bones arms vs1) as [ds' vs2].
    cbn [fst snd] in *. split; [|done].
    rewrite H6, H2, changes_app, <- !app_assoc. done.
Qed.

Local Abbreviation recorded_as := (Recorded.recorded_as nearest bones).

Lemma recorded_as_start (mpf : Qc) (a : act) (st : state) :
  recorded_as mpf []
    {| r_origin := act_start a; r_lf := 0; r_frames := []; r_fi_m := fi_m st;
       r_lastpose := bind_pose bones; r_verts := verts st; r_reports := reports st |} [].
Proof.
  repeat split; try done; first [constructor | apply sublist_nil | apply tracks_bind].
Qed.

(** The recorded sample indices are sampled ones, the first of them
    being the smallest and the last the largest. *)
Lemma recorded_span (mpf : Qc) (fs : list Z) (r : run) (L : list (Z * list delta))
    (lo hi : Z) :
  recorded_as mpf fs r L → StronglySorted Z.lt fs → Forall (fun g => lo ≤ g ≤ hi) fs →
  L ≠ [] → lo ≤ r_origin r ≤ r_lf r ∧ r_lf r ≤ hi ∧ r_lf r ∈ fs.
Proof.
  intros (_ & K2 & K3 & K4 & _) Hs Hr Hne.
  destruct L as [|fc L]; [done|]. clear Hne.
  rewrite (K2 fc) by done.
  destruct (last (fc :: L)) as [fl|] eqn:El; [|by apply last_None in El].
  rewrite (K3 fl) by done.
  assert (StronglySorted Z.lt ((fc :: L).*1)) as Hs'.
  { eapply sorted_sublist; [exact K4|exact Hs]. }
  assert (fl.1 ∈ (fc :: L).*1) as Hfl.
  { apply list_elem_of_fmap_2. apply last_Some in El as [l' ->].
    apply elem_of_app. right. apply list_elem_of_here. }
  assert (fc.1 ≤ fl.1) as Hle.
  { rewrite fmap_cons in Hs', Hfl. apply StronglySorted_inv in Hs' as [_ Hall].
    apply elem_of_cons in Hfl as [->|Hin]; [lia|].
    apply (proj1 (Forall_forall _ _) Hall) in Hin. lia. }
  assert (∀ x, x ∈ (fc :: L).*1 → x ∈ fs) as Hin.
  { intros x Hx. by eapply sublist_subseteq. }
  pose proof (proj1 (Forall_forall _ _) Hr fc.1 (Hin _ ltac:(rewrite fmap_cons; apply list_elem_of_here))).
  pose proof (proj1 (Forall_forall _ _) Hr fl.1 (Hin _ Hfl)).
  cbv beta in *. split; [lia|]. split; [lia|]. by apply Hin.
Qed.

(** One sampled frame: its delta list is that of what it shows, and it
    is recorded exactly when that list is not empty. *)
Lemma sample_frame_inv (mpf : Qc) (a : act) (lo hi : Z) (fs : list Z) (r : run)
    (L : list (Z * list delta)) (f : Z) :
  (∀ n, 0 ≤ n ≤ hi - lo + 1 → is_Some (msec mpf n)) →
  StronglySorted Z.lt (fs ++ [f]) → Forall (fun g => lo ≤ g ≤ hi) (fs ++ [f]) →
  recorded_as mpf fs r L →
  let new := changes (concat (L.*2)) (seen (pose a f) (r_verts r)).1 in
  ∃ r', sample_frame a mpf (Some r) f = Some r'
        ∧ recorded_as mpf (fs ++ [f]) r' (match new with [] => L | _ :: _ => L ++ [(f, new)] end)
        ∧ r_verts r' = (seen (pose a f) (r_verts r)).2.
Proof.
  intros Hms Hs Hr K new.
  pose proof K as (K1 & K2 & K3 & K4 & K5 & K6 & K7).
  unfold Anim.sample_frame. cbn [mbind option_bind].
  destruct (walk_armatures_seen (concat (L.*2)) (pose a f)
              {| w_lastpose := r_lastpose r; w_verts := r_verts r; w_changed := [];
                 w_reports := r_reports r |}) as (s & H1 & H2 & H3 & H4).
  { simpl. by rewrite app_nil_r. }
  rewrite H1. cbn [mbind option_bind]. cbn [w_changed w_verts] in H2, H3.
  rewrite app_nil_r in H2. cbn [app] in H2. fold new in H2. rewrite H2 in *.
  assert (∀ x, x ∈ fs → x < f) as Hlt.
  { intros x Hx. apply (StronglySorted_app_1_elem_of Z.lt fs [f] x f Hs Hx), list_elem_of_here. }
  assert (lo ≤ f ≤ hi) as Hf.
  { apply (proj1 (Forall_forall _ _) Hr). apply elem_of_app. right. apply list_elem_of_here. }
  destruct new as [|d new'] eqn:Enew.
  - unfold py_len. cbn [length]. cbn. eexists. split; [done|]. split; [|done].
    rewrite app_nil_r in H4.
    unfold Recorded.recorded_as. cbn [r_frames r_origin r_lf r_lastpose].
    split_and!; try done. by apply sublist_inserts_r.
  - assert ((0 <? py_len (d :: new')) = true) as ->.
    { apply Z.ltb_lt. unfold py_len. simpl. lia. }
    assert ((if py_len (r_frames r) <? 1 then f else r_origin r)
            = match L with [] => f | _ :: _ => r_origin r end) as ->.
    { apply Forall2_length in K1. unfold py_len. rewrite K1.
      destruct L as [|fc L']; [done|]. cbn [length].
      destruct (Z.ltb_spec (Z.of_nat (S (length L'))) 1); [lia|done]. }
    set (origin := match L with [] => f | _ :: _ => r_origin r end).
    assert (0 ≤ f - origin ≤ hi - lo + 1) as Ho.
    { subst origin. destruct L as [|fc L'] eqn:EL; [lia|].
      apply Forall_app in Hr as [Hr' _]. apply StronglySorted_app_1_l in Hs.
      destruct (recorded_span mpf fs r (fc :: L') lo hi K Hs Hr' ltac:(done)) as (Ha & Hb & Hc).
      specialize (Hlt (r_lf r) Hc). lia. }
    destruct (Hms _ Ho) as [t Ht]. rewrite Ht. cbn [mbind option_bind].
    eexists. split; [done|]. split; [|done].
    unfold Recorded.recorded_as. cbn [r_frames r_origin r_lf r_lastpose].
    rewrite !fmap_app, concat_app. cbn [fmap list_fmap concat fst snd].
    rewrite (app_nil_r (d :: new')).
    split_and!.
    + apply Forall2_app; [|by repeat constructor].
      subst origin. destruct L as [|fc L']; [|done].
      apply Forall2_nil_inv_r in K1. rewrite K1. constructor.
    + intros fc Hh. subst origin. destruct L as [|fc' L']; [simpl in Hh; by simplify_eq|].
      apply K2. by simpl in *.
    + intros fc Hl. rewrite last_snoc in Hl. by simplify_eq.
    + by apply sublist_app.
    + apply Forall_app. split; [done|]. by apply Forall_singleton.
    + done.
    + rewrite <- Enew. subst new. by apply all_changes_changes.
Qed.

(** The loop over the frames: what it records is what the sentence of
    the specification describes. *)
Lemma sample_frames_inv (mpf : Qc) (a : act) (lo hi : Z) (fs' fs : list Z) (r : run)
    (L : list (Z * list delta)) :
  (∀ n, 0 ≤ n ≤ hi - lo + 1 → is_Some (msec mpf n)) →
  StronglySorted Z.lt (fs ++ fs') → Forall (fun g => lo ≤ g ≤ hi) (fs ++ fs') →
  recorded_as mpf fs r L →
  ∃ r', fold_left (sample_frame a mpf) fs' (Some r) = Some r'
        ∧ recorded_as mpf (fs ++ fs') r' (L ++ (expected a fs' (concat (L.*2)) (r_verts r)).1)
        ∧ r_verts r' = (expected a fs' (concat (L.*2)) (r_verts r)).2.
Proof.
  intros Hms. revert fs r L. induction fs' as [|f fs' IH]; intros fs r L Hs Hr K.
  - exists r. simpl. by rewrite !app_nil_r.
  - replace (fs ++ f :: fs') with ((fs ++ [f]) ++ fs') in * by (by rewrite <- app_assoc).
    destruct (sample_frame_inv mpf a lo hi fs r L f Hms) as (r1 & H1 & K1 & V1);
      [by eapply StronglySorted_app_1_l|by apply Forall_app in Hr as [? _]|done|].
    destruct (IH _ _ _ Hs Hr K1) as (r' & H' & K' & V').
    exists r'. cbn [fold_left]. rewrite H1. split; [exact H'|].
    cbn [Recorded.expected]. rewrite V1 in *.
    destruct (Recorded.seen hash_vertex digits bones (pose a f) (r_verts r)) as [obs vs1].
    cbn [fst snd] in *.
    destruct (changes (concat (L.*2)) obs) as [|d new'] eqn:Enew.
    + rewrite app_nil_r.
      destruct (Recorded.expected hash_vertex digits bones pose a fs' (concat (L.*2)) vs1)
        as [L2 vs2]. split; [exact K'|exact V'].
    + rewrite !fmap_app, concat_app in K', V'. cbn [fmap list_fmap concat fst snd] in K', V'.
      rewrite (app_nil_r (d :: new')) in K', V'.
      destruct (Recorded.expected hash_vertex digits bones pose a fs'
                  (concat (L.*2) ++ d :: new') vs1) as [L2 vs2].
      cbn [fst snd] in *. split; [|exact V'].
      by replace (L ++ (f, d :: new') :: L2) with ((L ++ [(f, d :: new')]) ++ L2)
        by (by rewrite <- app_assoc).
Qed.

(** An armature without animation data stops an action of
    [bpy.data.actions] before a frame is sampled. *)
Lemma action_pose_raises (mpf : Qc) (a : act) (st : state) :
  act_index a ≠ -1 → false ∈ animated → export_action mpf (Some st) a = None.
Proof.
  intros Ha Hf. unfold Anim.export_action, set_action_pose. cbn [mbind option_bind].
  destruct (Z.eqb_spec (act_index a) (-1)) as [|_]; [done|]. cbn [orb].
  destruct (forallb id animated) eqn:E; [|done].
  rewrite forallb_forall in E. apply list_elem_of_In in Hf. by apply E in Hf.
Qed.

(** C8.  An action sampled at [use_fps] frames per second, [mpf] being
    the float [1000.0 / use_fps].  When the action pose can be set (the
    action comes from the timeline, or every armature has animation data)
    and the times up to the length of the action can be computed, the
    frame loop runs to its end and the action is exported.  The frames it
    records are those of [L], the list that the poses determine: the
    sampled indices, in order, at which a bone shows a rounded pooled
    position or orientation that differs from its last recorded pose (the
    bind pose at first), each with the list of those bones.  No delta list
    is empty, every delta is a change, the time origin is the first
    recorded index, and the time of a frame is
    [int((index - origin) * mpf)] in the arithmetic of the floats.  The
    action is appended when a frame was recorded and dropped otherwise. *)
Theorem action_frames_recorded (use_fps : Z) (mpf : Qc) (a : act) (st : state) :
  per_frame nearest use_fps = Some mpf →
  act_index a = -1 ∨ forallb id animated = true →
  (∀ n, 0 ≤ n ≤ act_end a - act_start a + 1 → is_Some (msec mpf n)) →
  let fs := seqZ (act_start a) (act_end a + 1 - act_start a) in
  let L := (expected a fs [] (verts st)).1 in
  ∃ (r : run) (st' : state),
    record_frames a mpf st = Some r
    ∧ export_action mpf (Some st) a = Some st'
    ∧ Forall2 (fun f fc => msec mpf (fc.1 - r_origin r) = Some (fr_time f)
                           ∧ fr_changed f = fc.2) (r_frames r) L
    ∧ (∀ fc, head L = Some fc → r_origin r = fc.1)
    ∧ (∀ fc, last L = Some fc → r_lf r = fc.1)
    ∧ sublist (L.*1) fs
    ∧ Forall (fun fc => fc.2 ≠ []) L
    ∧ all_changes bones [] (concat (L.*2)) = true
    ∧ (L = [] → actions st' = actions st)
    ∧ (L ≠ [] → ∃ n duration,
         msec mpf (r_lf r - r_origin r + 1) = Some duration
         ∧ actions st' = actions st ++
             [{| a_name := n; a_duration := duration; a_frames := r_frames r |}]).
Proof.
  intros _ Hpose Hms fs L.
  assert (StronglySorted Z.lt fs) as Hs by apply seqZ_sorted.
  assert (Forall (fun g => act_start a ≤ g ≤ act_end a) fs) as Hr.
  { apply Forall_seqZ. intros; lia. }
  destruct (sample_frames_inv mpf a (act_start a) (act_end a) fs [] _ [] Hms Hs Hr
              (recorded_as_start mpf a st)) as (r & H & K & _).
  cbn [app fmap list_fmap concat r_verts] in K. fold L in K.
  pose proof K as (K1 & K2 & K3 & K4 & K5 & K6 & K7).
  assert (record_frames a mpf st = Some r) as Hrec by exact H.
  unfold Anim.export_action. cbn [mbind option_bind].
  assert (set_action_pose animated a = Some tt) as ->.
  { unfold set_action_pose. destruct Hpose as [->| ->]; [done|]. by rewrite orb_true_r. }
  cbn [mbind option_bind]. rewrite Hrec. cbn [mbind option_bind].
  destruct (uniquedict hash_string (strs st) _) as [n ss] eqn:Hn.
  pose proof (Forall2_length _ _ _ K1) as Hlen.
  destruct (decide (L = [])) as [HL|HL].
  - assert (r_frames r = []) as Hfr by (apply length_zero_iff_nil; by rewrite Hlen, HL).
    rewrite Hfr. cbn. eexists r, _. rewrite Hfr.
    split_and!; try done. by rewrite <- Hfr.
  - assert ((0 <? py_len (r_frames r)) = true) as ->.
    { apply Z.ltb_lt. unfold py_len. rewrite Hlen. destruct L; [done|]. simpl. lia. }
    destruct (recorded_span mpf fs r L (act_start a) (act_end a) K Hs Hr HL) as (Ha & Hb & _).
    destruct (Hms (r_lf r - r_origin r + 1) ltac:(lia)) as [duration Hd].
    rewrite Hd. cbn [mbind option_bind].
    eexists r, _. split_and!; try done. intros _. by exists n, duration.
Qed.

End AnimFacts.

Section AnimExamples.
Import Num Tables Anim Recorded Samples Sway.

(** Two bones sampled over five frames, only B moving on frame 3: one
    recorded frame, at time 0, holding the delta of B alone. *)
Lemma wave_records_one_frame :
  actions <$> export_actions Floats.binary64 hash_vertex Examples.hash_string 4 two_bones wave
                [true] true true 25 [wave_act] wave_start
  = Some [{| a_name := 2; a_duration := 40;
             a_frames := [{| fr_time := 0;
                             fr_changed := [{| d_bone := 1; d_pos := 3; d_ori := 1 |}] |}] |}].
Proof. vm_compute. reflexivity. Qed.

(** The doubles of two familiar numbers, as fractions. *)
Lemma binary64_tenth :
  this <$> Floats.binary64 (Qc_of_Z 1 / Qc_of_Z 10)
    = Some (3602879701896397 # 36028797018963968)%Q
  ∧ this <$> Floats.binary64 (Qc_of_Z 1000 / Qc_of_Z 19)
    = Some (7407236229227789 # 140737488355328)%Q.
Proof. split; vm_compute; reflexivity. Qed.

(** A range of times is computable when each of them is. *)
Lemma times_computable (nearest : Qc → option Qc) (mpf : Qc) (k : Z) :
  forallb (fun n => bool_decide (is_Some (msec nearest mpf n))) (seqZ 0 (k + 1)) = true →
  ∀ n, 0 ≤ n ≤ k → is_Some (msec nearest mpf n).
Proof.
  intros H n Hn. rewrite forallb_forall in H.
  assert (n ∈ seqZ 0 (k + 1)) as Hin by (apply elem_of_seqZ; lia).
  apply list_elem_of_In, H in Hin. by apply bool_decide_eq_true in Hin.
Qed.

(** C8, against the sentence as it stands.  On the machine, at 19 frames
    per second, the frame recorded 19 samples after the origin is stamped
    999; [(20 - 1) * (1000 / 19)] is 1000. *)
Lemma frame_time_below_exact :
  (fun st => (fun a => fr_time <$> a_frames a) <$> actions st)
    <$> export_actions Floats.binary64 hash_vertex Examples.hash_string 4 two_bones sway
          [true] true true 19 [sway_act] wave_start
  = Some [[0; 52; 999]]
  ∧ py_int (Qc_of_Z (20 - 1) * (Qc_of_Z 1000 / Qc_of_Z 19)) = 1000.
Proof. split; vm_compute; reflexivity. Qed.

Lemma action_frames_recorded_witness :
  ∃ (mpf : Qc) (r : run) (st' : state),
    let fs := seqZ (act_start sway_act) (act_end sway_act + 1 - act_start sway_act) in
    let L := (expected hash_vertex 4 two_bones sway sway_act fs [] (verts wave_start)).1 in
    per_frame Floats.binary64 19 = Some mpf
    ∧ record_frames Floats.binary64 hash_vertex 4 two_bones sway sway_act mpf wave_start = Some r
    ∧ export_action Floats.binary64 hash_vertex Examples.hash_string 4 two_bones sway [true]
        mpf (Some wave_start) sway_act = Some st'
    ∧ Forall2 (fun f fc => msec Floats.binary64 mpf (fc.1 - r_origin r) = Some (fr_time f)
                           ∧ fr_changed f = fc.2) (r_frames r) L
    ∧ L.*1 = [1; 2; 20]
    ∧ (∃ n duration, actions st' = actions wave_start ++
         [{| a_name := n; a_duration := duration; a_frames := r_frames r |}]).
Proof.
  destruct (per_frame Floats.binary64 19) as [mpf|] eqn:E; [|vm_compute in E; discriminate].
  destruct (action_frames_recorded Floats.binary64 hash_vertex Examples.hash_string 4 two_bones
              sway [true]
              ltac:(apply (bool_decide_unpack _); vm_compute; exact I)
              ltac:(apply (bool_decide_unpack _); vm_compute; exact I)
              19 mpf sway_act wave_start E)
    as (r & st' & H1 & H2 & H3 & _ & _ & _ & _ & _ & _ & H10).
  - right. reflexivity.
  - apply times_computable. vm_compute in E. injection E as <-. vm_compute. reflexivity.
  - exists mpf, r, st'. cbv zeta.
    assert ((expected hash_vertex 4 two_bones sway sway_act
               (seqZ (act_start sway_act) (act_end sway_act + 1 - act_start sway_act)) []
               (verts wave_start)).1.*1 = [1; 2; 20]) as HL by (vm_compute; reflexivity).
    split; [reflexivity|]. split; [exact H1|]. split; [exact H2|]. split; [exact H3|].
    split; [exact HL|].
    destruct H10 as (n & duration & _ & H10).
    + intros E0. rewrite E0 in HL. discriminate HL.
    + by exists n, duration.
Defined.

End AnimExamples.

(** ** Animation and skeleton *)

Section SkeletonFacts.
Import Options.

(** C10.  Whatever the caller passes as [use_skeleton], the skeleton
    flag is on after the preprocessing of a run that asks for animation. *)
Theorem animation_forces_skeleton (objects : list object) (a : args) :
  use_animation a = true →
  s_use_skeleton (preprocess objects a) = true ∧ s_use_animation (preprocess objects a) = true.
Proof. intros H. simpl. unfold force_skeleton. by rewrite H. Qed.

Lemma animation_forces_skeleton_witness :
  let a := {| use_skeleton := false; use_animation := true; use_fps := 25;
              use_quality := -1; use_gridcompress := true |} in
  s_use_skeleton (preprocess [] a) = true ∧ s_use_animation (preprocess [] a) = true.
Proof. apply animation_forces_skeleton. reflexivity. Defined.

(** Actions are only added while the skeleton flag is still on and there
    are bones. *)
Lemma actions_need_skeleton nearest hv hs digits bones pose animated (ua us : bool) (fps : Z)
    (acts : list Anim.act) (st st' : Anim.state) :
  Anim.export_actions nearest hv hs digits bones pose animated ua us fps acts st = Some st' →
  Anim.actions st' ≠ Anim.actions st → ua = true ∧ us = true ∧ bones ≠ [].
Proof.
  unfold Anim.export_actions.
  destruct ua; [|intros; simplify_eq; congruence].
  destruct us; [|cbn; intros; simplify_eq; simpl in *; congruence].
  destruct bones as [|b0 bones]; [|done].
  unfold Tables.py_len. simpl. intros H1 H2. injection H1 as <-. by simpl in H2.
Qed.

End SkeletonFacts.

(** ** Interning: from [uniquedict] to the converted list *)

Section InterningFacts.
Import Tables Interning.
Context {E : Type}.
Variable hash_str : E → Z.

Lemma interned_snoc (es : list E) (e : E) :
  interned hash_str (es ++ [e]) = (uniquedict hash_str (interned hash_str es) e).2.
Proof. unfold interned. by rewrite fold_left_app. Qed.

Lemma interned_sequential (es : list E) : sequential 0 (interned hash_str es).
Proof.
  induction es as [|e es IH] using rev_ind; [done|].
  rewrite interned_snoc. by apply uniquedict_sequential.
Qed.

(** Every entry is stored under the hash of its element, which is one of
    the interned elements. *)
Lemma interned_entries (es : list E) :
  Forall (fun kv => kv.1 = hash_str kv.2.2 ∧ kv.2.2 ∈ es) (interned hash_str es).
Proof.
  induction es as [|e es IH] using rev_ind; [by constructor|].
  rewrite interned_snoc.
  assert (Forall (fun kv : Z * (Z * E) => kv.1 = hash_str kv.2.2 ∧ kv.2.2 ∈ es ++ [e])
            (interned hash_str es)) as IH'.
  { eapply Forall_impl; [exact IH|]. intros kv [? ?]. split; [done|].
    apply elem_of_app. by left. }
  destruct (uniquedict_sequential hash_str (interned hash_str es) e
              (interned_sequential es)) as [_ [->| ->]]; [done|].
  apply Forall_app. split; [done|]. constructor; [|constructor]. simpl. split; [done|].
  apply elem_of_app. right. apply list_elem_of_here.
Qed.

(** The table only grows at its end. *)
Lemma interned_prefix (es later : list E) :
  ∃ more, interned hash_str (es ++ later) = interned hash_str es ++ more.
Proof.
  induction later as [|e later IH] using rev_ind.
  - exists []. by rewrite !app_nil_r.
  - destruct IH as [more IH]. rewrite app_assoc, interned_snoc.
    destruct (uniquedict_sequential hash_str (interned hash_str (es ++ later)) e
                (interned_sequential _)) as [_ [->| ->]].
    + by exists more.
    + rewrite IH. eexists. by rewrite <- app_assoc.
Qed.

(** In a table numbered from [n], the entry found under a key sits at the
    position its index names. *)
Lemma dict_get_position (n : nat) (l : dict Z E) (k i : Z) (x : E) :
  sequential n l → dict_get k l = Some (i, x) →
  ∃ j : nat, i = Z.of_nat (n + j) ∧ l !! j = Some (k, (i, x)).
Proof.
  revert n. induction l as [|[k' [i' x']] l IH]; intros n; [done|]. simpl.
  intros [-> Hl]. case_decide as Hk.
  - intros; simplify_eq. exists 0%nat. split; [f_equal; lia|done].
  - intros Hg. destruct (IH _ Hl Hg) as (j & -> & Hj).
    exists (S j). split; [f_equal; lia|done].
Qed.

Lemma py_nth_lookup {A} (l : list A) (j : nat) : py_nth l (Z.of_nat j) = l !! j.
Proof.
  unfold py_nth. destruct (Z.ltb_spec (Z.of_nat j) 0); [lia|]. by rewrite Nat2Z.id.
Qed.

(** X1.  Interning an element [e] after the elements [es] returns an index
    [i] such that, whatever is interned afterwards, position [i] of the
    converted list holds an element with the hash of [e] that was interned
    no later than [e]; it is [e] itself unless an earlier, different
    element has the same hash.  The index is a valid position of the
    converted list. *)
Theorem interned_index_resolves (es later : list E) (e : E) :
  let i := (uniquedict hash_str (interned hash_str es) e).1 in
  let r := dict2list (interned hash_str (es ++ e :: later)) in
  0 ≤ i < py_len r
  ∧ ∃ e', py_nth r i = Some e' ∧ hash_str e' = hash_str e ∧ e' ∈ es ++ [e]
          ∧ ((∀ x, x ∈ es → hash_str x = hash_str e → x = e) → e' = e).
Proof.
  intros i r.
  destruct (interned_prefix (es ++ [e]) later) as [more Hmore].
  rewrite <- app_assoc in Hmore. simpl in Hmore.
  assert (r = (interned hash_str (es ++ [e]) ++ more).*2.*2) as Hr.
  { subst r. rewrite dict2list_sequential by apply interned_sequential. by rewrite Hmore. }
  pose proof (interned_sequential (es ++ [e])) as Hseq.
  pose proof (interned_entries (es ++ [e])) as Hent.
  assert (dict_get (hash_str e) (interned hash_str (es ++ [e])) = Some (i, 
            (default e (snd <$> dict_get (hash_str e) (interned hash_str es))))) as Hget.
  { rewrite interned_snoc. subst i. unfold uniquedict.
    destruct (dict_get (hash_str e) (interned hash_str es)) as [[i x]|] eqn:Hg; simpl.
    - done.
    - rewrite dict_set_fresh by done. by rewrite dict_get_snoc. }
  set (e' := default e (snd <$> dict_get (hash_str e) (interned hash_str es))) in *.
  destruct (dict_get_position 0 _ _ _ _ Hseq Hget) as (j & Hi & Hj).
  simpl in Hi. rewrite Hi.
  assert (r !! j = Some e') as Hrj.
  { rewrite Hr, !list_lookup_fmap, lookup_app_l by by eapply lookup_lt_Some.
    by rewrite Hj. }
  split.
  - apply lookup_lt_Some in Hrj. unfold py_len. lia.
  - exists e'. rewrite py_nth_lookup. split; [done|].
    apply list_elem_of_lookup_2 in Hj.
    rewrite Forall_forall in Hent. destruct (Hent _ Hj) as [Hh Hin]. simpl in *.
    split; [done|]. split; [done|].
    intros Huniq. apply elem_of_app in Hin as [Hin|Hin].
    + by apply Huniq.
    + by apply list_elem_of_singleton in Hin.
Qed.

End InterningFacts.

Section UniquelistFacts.
Import Tables Interning.
Context {E : Type}.
Variable py_eq : E → E → bool.
Variable hash_str : E → Z.
(** Two elements compare equal exactly when their texts have the same
    hash: no two different texts collide, and elements that are [==] are
    printed alike. *)
Hypothesis hash_equal : ∀ x y, py_eq x y = true ↔ hash_str x = hash_str y.

Local Abbreviation index := (Interning.index py_eq).
Local Abbreviation uniquelist := (Interning.uniquelist py_eq).

(** Searching the dictionary by hash and the list by equality find the
    same position. *)
Lemma index_dict_get (n : nat) (d : dict Z E) (e : E) :
  Forall (fun kv => kv.1 = hash_str kv.2.2) d → sequential n d →
  match dict_get (hash_str e) d with
  | Some (i, x) => ∃ j, index e (d.*2.*2) = Some j ∧ i = Z.of_nat (n + j)
  | None => index e (d.*2.*2) = None
  end.
Proof.
  revert n. induction d as [|[k [i x]] d IH]; intros n Hent; [done|].
  apply Forall_cons in Hent as [Hk Hent]. simpl in Hk. subst k.
  intros [-> Hseq]. rewrite !fmap_cons. cbn [Interning.index dict_get fst snd].
  case_decide as Hh.
  - symmetry in Hh. apply hash_equal in Hh. rewrite Hh.
    exists 0%nat. split; [done|]. f_equal. lia.
  - assert (py_eq x e = false) as ->.
    { destruct (py_eq x e) eqn:Heq; [|done]. apply hash_equal in Heq. by destruct Hh. }
    specialize (IH (S n) Hent Hseq).
    destruct (dict_get (hash_str e) d) as [[i' x']|].
    + destruct IH as (j & Hj & ->). rewrite Hj. exists (S j). split; [done|]. f_equal. lia.
    + by rewrite IH.
Qed.

(** X2.  When two elements compare equal exactly when they share a
    hash, the dictionary wrapper is a faithful replacement of
    [uniquelist]: on every table a run can build, [uniquelist] on the
    converted list returns the index [uniquedict] returns and leaves the
    list that the conversion of the updated dictionary gives; so a whole
    run of either builds the same list. *)
Theorem uniquelist_agrees (es : list E) (e : E) :
  let d := interned hash_str es in
  uniquelist (dict2list d) e
    = ((uniquedict hash_str d e).1, dict2list (uniquedict hash_str d e).2)
  ∧ dict2list d = fold_left (fun l e => (uniquelist l e).2) es [].
Proof.
  assert (∀ es e, let d := interned hash_str es in
            uniquelist (dict2list d) e
            = ((uniquedict hash_str d e).1, dict2list (uniquedict hash_str d e).2)) as Hstep.
  { clear es e. intros es e d.
    pose proof (interned_sequential hash_str es) as Hseq. fold d in Hseq.
    assert (Forall (fun kv : Z * (Z * E) => kv.1 = hash_str kv.2.2) d) as Hent.
    { eapply Forall_impl; [apply (interned_entries hash_str es)|]. by intros kv [? _]. }
    clearbody d.
    pose proof (index_dict_get 0 d e Hent Hseq) as Hidx.
    destruct (uniquedict_sequential hash_str d e Hseq) as [Hseq' _].
    rewrite (dict2list_sequential _ Hseq'), (dict2list_sequential _ Hseq).
    unfold Interning.uniquelist, uniquedict in *.
    destruct (dict_get (hash_str e) d) as [[i x]|] eqn:Hg.
    - destruct Hidx as (j & -> & ->). done.
    - rewrite Hidx. simpl. rewrite dict_set_fresh by done.
      rewrite !fmap_app. simpl. f_equal. unfold py_len. by rewrite !length_fmap. }
  intros d. split; [apply Hstep|].
  subst d. induction es as [|x es IH] using rev_ind; [done|].
  rewrite fold_left_app. simpl. rewrite <- IH, interned_snoc.
  by rewrite (Hstep es x).
Qed.

End UniquelistFacts.

Section UniquelistExamples.
Import Tables Interning.

(** Integers that compare equal when their absolute values do, hashed
    by the absolute value: 3 and -3 are one element to both helpers, and
    both keep the 3 that came first. *)
Lemma uniquelist_agrees_witness :
  let py_eq := fun x y : Z => Z.abs x =? Z.abs y in
  let d := interned Z.abs [3; 5; -3] in
  uniquelist py_eq (dict2list d) (-5)
    = ((uniquedict Z.abs d (-5)).1, dict2list (uniquedict Z.abs d (-5)).2)
  ∧ dict2list d = fold_left (fun l e => (uniquelist py_eq l e).2) [3; 5; -3] [].
Proof.
  apply (uniquelist_agrees (fun x y : Z => Z.abs x =? Z.abs y) Z.abs).
  intros x y. apply Z.eqb_eq.
Defined.

End UniquelistExamples.

(** ** Index fields: what is accepted, and the header flags *)

Section IndexDomain.
Import Index.

Lemma addidx_pack (fmt idx : Z) :
  0 ≤ fmt ≤ 2 →
  addidx fmt idx
  = pack_unsigned (idx_bytes fmt)
      (if idx <? 0 then 256 ^ Z.of_nat (idx_bytes fmt) + idx else idx).
Proof.
  intros Hf. assert (fmt = 0 ∨ fmt = 1 ∨ fmt = 2) as [->|[->| ->]] by lia; reflexivity.
Qed.

(** X4.  [addidx] at a width code 0, 1 or 2 accepts exactly the indices
    from [-256^n] up to [256^n - 1], where [n] is the width in bytes; an
    accepted index is written modulo [256^n], so a negative index other
    than the two sentinels is written as the large index it aliases.
    Outside that range [pack] raises.  Any other width code writes
    nothing. *)
Theorem addidx_domain (fmt idx : Z) :
  let n := idx_bytes fmt in
  (0 ≤ fmt ≤ 2 →
     (- 256 ^ Z.of_nat n ≤ idx < 256 ^ Z.of_nat n →
        addidx fmt idx = Some (le_bytes n (idx mod 256 ^ Z.of_nat n))
        ∧ le_value <$> addidx fmt idx = Some (idx mod 256 ^ Z.of_nat n))
     ∧ (idx < - 256 ^ Z.of_nat n ∨ 256 ^ Z.of_nat n ≤ idx → addidx fmt idx = None))
  ∧ (fmt < 0 ∨ 2 < fmt → addidx fmt idx = Some []).
Proof.
  intros n. split.
  - intros Hf. rewrite (addidx_pack fmt idx Hf). fold n.
    assert (0 < 256 ^ Z.of_nat n) as Hp by (apply Z.pow_pos_nonneg; lia).
    set (M := 256 ^ Z.of_nat n) in *. unfold pack_unsigned. fold M.
    split.
    + intros Hr.
      assert ((if idx <? 0 then M + idx else idx) = idx mod M) as ->.
      { destruct (Z.ltb_spec idx 0).
        - rewrite <- (Z_mod_plus_full idx 1 M). replace (idx + 1 * M) with (M + idx) by lia.
          symmetry. apply Z.mod_small. lia.
        - symmetry. apply Z.mod_small. lia. }
      pose proof (Z.mod_pos_bound idx M Hp) as Hb.
      rewrite (proj2 (andb_true_iff _ _)) by (split; [apply Z.leb_le|apply Z.ltb_lt]; lia).
      split; [done|]. cbn [fmap option_fmap option_map]. f_equal.
      apply le_value_le_bytes. exact Hb.
    + intros Hr. destruct (Z.ltb_spec idx 0).
      * rewrite (proj2 (andb_false_iff _ _)); [done|].
        destruct Hr; [left; apply Z.leb_gt; lia|lia].
      * rewrite (proj2 (andb_false_iff _ _)); [done|].
        destruct Hr; [lia|right; apply Z.ltb_ge; lia].
  - intros Hf. unfold addidx.
    destruct (Z.eqb_spec fmt 0); [lia|]. destruct (Z.eqb_spec fmt 1); [lia|].
    destruct (Z.eqb_spec fmt 2); [lia|]. done.
Qed.

Lemma addidx_domain_witness :
  addidx 0 (-3) = Some (le_bytes 1 253) ∧ addidx 0 253 = Some (le_bytes 1 253)
  ∧ addidx 0 256 = None ∧ addidx 1 (-65537) = None ∧ addidx 3 7 = Some [].
Proof.
  split_and!.
  - apply (addidx_domain 0 (-3)); [lia|]. vm_compute. split; [discriminate|reflexivity].
  - apply (addidx_domain 0 253); [lia|]. vm_compute. split; [discriminate|reflexivity].
  - apply (addidx_domain 0 256); [lia|]. right. vm_compute. discriminate.
  - apply (addidx_domain 1 (-65537)); [lia|]. left. reflexivity.
  - apply (addidx_domain 3 7). lia.
Defined.

(** A table of 300 entries and its last index. *)
Lemma addidx_of_table_index_witness :
  addidx (idxsize 300) 299 = Some (le_bytes (idx_bytes (idxsize 300)) 299)
  ∧ le_value (le_bytes (idx_bytes (idxsize 300)) 299) = 299
  ∧ addidx (idxsize 300) 299 ≠ addidx (idxsize 300) (-1)
  ∧ addidx (idxsize 300) 299 ≠ addidx (idxsize 300) (-2).
Proof. apply (addidx_of_table_index 300 299); lia. Defined.

End IndexDomain.

Section FlagsFacts.
Import Tables Index Model Binary.

Lemma idxsize_range (cnt : Z) : 0 ≤ idxsize cnt ≤ 3.
Proof. unfold idxsize. zcases. Qed.

(** A two-bit field shifted to one position, read at another. *)
Lemma field_of_shift (a k' k : Z) :
  0 ≤ a ≤ 3 → 0 ≤ k → 0 ≤ k' → k' = k ∨ k + 2 ≤ k' ∨ k' + 2 ≤ k →
  Z.land (Z.shiftr (Z.shiftl a k') k) 3 = if k' =? k then a else 0.
Proof.
  intros Ha Hk Hk' [->|[Hgt|Hlt]].
  - rewrite Z.shiftr_shiftl_l, Z.sub_diag, Z.shiftl_0_r, Z.eqb_refl by lia.
    assert (a = 0 ∨ a = 1 ∨ a = 2 ∨ a = 3) as [->|[->|[->| ->]]] by lia; reflexivity.
  - rewrite Z.shiftr_shiftl_l by lia.
    destruct (Z.eqb_spec k' k); [lia|].
    change 3 with (Z.ones 2). rewrite Z.land_ones, Z.shiftl_mul_pow2 by lia.
    replace (k' - k) with ((k' - k - 2) + 2) by lia.
    rewrite Z.pow_add_r, Z.mul_assoc by lia. apply Z.mod_mul. lia.
  - rewrite Z.shiftr_shiftl_r by lia.
    destruct (Z.eqb_spec k' k); [lia|].
    rewrite Z.shiftr_div_pow2 by lia.
    rewrite Z.div_small; [done|].
    split; [lia|]. apply Z.le_lt_trans with 3; [lia|].
    apply Z.lt_le_trans with (2 ^ 2); [lia|]. apply Z.pow_le_mono_r; lia.
Qed.

Lemma lor_lt_pow2 (a b n : Z) :
  0 ≤ n → 0 ≤ a < 2 ^ n → 0 ≤ b < 2 ^ n → 0 ≤ Z.lor a b < 2 ^ n.
Proof.
  intros Hn Ha Hb.
  assert (0 ≤ Z.lor a b) as Hl by (apply Z.lor_nonneg; lia).
  split; [done|].
  assert (0 < 2 ^ n) by (apply Z.pow_pos_nonneg; lia).
  destruct (decide (Z.lor a b = 0)) as [->|Hz]; [lia|].
  assert (0 < Z.lor a b) by lia.
  assert (0 < n).
  { destruct (decide (n = 0)) as [->|?]; [|lia].
    assert (a = 0) as -> by lia. assert (b = 0) as -> by lia. done. }
  apply Z.log2_lt_pow2; [done|]. rewrite Z.log2_lor by lia.
  apply Z.max_lub_lt.
  - destruct (decide (a = 0)) as [->|?]; [simpl; lia|]. apply Z.log2_lt_pow2; lia.
  - destruct (decide (b = 0)) as [->|?]; [simpl; lia|]. apply Z.log2_lt_pow2; lia.
Qed.

Lemma shiftl_field_lt (a k : Z) : 0 ≤ a ≤ 3 → 0 ≤ k ≤ 20 → 0 ≤ Z.shiftl a k < 2 ^ 22.
Proof.
  intros Ha Hk. rewrite Z.shiftl_mul_pow2 by lia.
  assert (0 < 2 ^ k) by (apply Z.pow_pos_nonneg; lia).
  assert (2 ^ k ≤ 2 ^ 20) by (apply Z.pow_le_mono_r; lia).
  change (2 ^ 22) with (4 * 2 ^ 20). nia.
Qed.

(** X5.  The header flags hold each width code in a two-bit field of its
    own: with a quality tier from 0 to 3, every field read back at its
    bit position is the value that was stored, bits 18 and 19 are zero,
    and the word fits the 32-bit [pack] that writes it. *)
Theorem header_flags_fields (c : config) (t : tables) (m : content) (o : Z) :
  0 ≤ use_quality c ≤ 3 →
  let w := select_widths c t m o in
  let flags := header_flags c w in
  let field k := Z.land (Z.shiftr flags k) 3 in
  field 0 = use_quality c ∧ field 2 = vi_s w ∧ field 4 = si_s w ∧ field 6 = ci_s w
  ∧ field 8 = ti_s w ∧ field 10 = bi_s w ∧ field 12 = nb_s w ∧ field 14 = sk_s w
  ∧ field 16 = fc_s w ∧ field 18 = 0 ∧ field 20 = fi_s w
  ∧ pack_unsigned 4 flags = Some (le_bytes 4 flags).
Proof.
  intros Hq w flags field.
  assert (0 ≤ nb_s w ≤ 3) as Hnb.
  { subst w. unfold select_widths. cbn [nb_s]. zcases. }
  pose proof (idxsize_range (py_len (cmap t))) as Hci.
  pose proof (idxsize_range (py_len (tmaps t))) as Hti.
  pose proof (idxsize_range (py_len (verts t))) as Hvi.
  pose proof (idxsize_range o) as Hsi.
  pose proof (idxsize_range (py_len (bones t))) as Hbi.
  pose proof (idxsize_range (py_len (skins t))) as Hsk.
  pose proof (idxsize_range (py_len (faces m))) as Hfi.
  pose proof (idxsize_range (fi_m c)) as Hfc.
  change (idxsize (py_len (cmap t))) with (ci_s w) in Hci.
  change (idxsize (py_len (tmaps t))) with (ti_s w) in Hti.
  change (idxsize (py_len (verts t))) with (vi_s w) in Hvi.
  change (idxsize o) with (si_s w) in Hsi.
  change (idxsize (py_len (bones t))) with (bi_s w) in Hbi.
  change (idxsize (py_len (skins t))) with (sk_s w) in Hsk.
  change (idxsize (py_len (faces m))) with (fi_s w) in Hfi.
  change (idxsize (fi_m c)) with (fc_s w) in Hfc.
  clearbody w. subst flags field. cbv beta. unfold header_flags. cbv zeta.
  split_and!.
  1-11: rewrite ?Z.shiftr_lor, ?Z.land_lor_distr_l;
        rewrite !field_of_shift by lia; cbn [Z.eqb Pos.eqb];
        rewrite ?Z.lor_0_r, ?Z.lor_0_l; reflexivity.
  apply pack_unsigned_in_range. change (256 ^ Z.of_nat 4) with (2 ^ 32).
  assert (∀ x, 0 ≤ x < 2 ^ 22 → 0 ≤ x < 2 ^ 32) as Hw by (intros; lia).
  apply Hw. repeat (apply lor_lt_pow2; [lia| |]); apply shiftl_field_lt; lia.
Qed.

End FlagsFacts.

Section FlagsExamples.
Import Tables Index Model Binary Samples.

Lemma header_flags_fields_witness :
  let w := select_widths config0 triangle_tables triangle_content 30 in
  let flags := header_flags config0 w in
  flags = 249600
  ∧ Z.land (Z.shiftr flags 2) 3 = vi_s w ∧ Z.land (Z.shiftr flags 6) 3 = ci_s w
  ∧ Z.land (Z.shiftr flags 20) 3 = fi_s w
  ∧ pack_unsigned 4 flags = Some (le_bytes 4 flags).
Proof.
  pose proof (header_flags_fields config0 triangle_tables triangle_content 30
                ltac:(simpl; lia)) as H.
  cbv zeta beta in H. intros w flags. split; [reflexivity|].
  destruct H as (_ & H2 & _ & H6 & _ & _ & _ & _ & _ & _ & H20 & Hp).
  split_and!; [exact H2|exact H6|exact H20|exact Hp].
Defined.

End FlagsExamples.

(** ** The string table of the binary writer *)

Section StringTableFacts.
Import Tables Index Model Binary.

(** The loop of the string table, from any buffer whose length is the
    running offset. *)
Lemma string_table_loop (strs : list string) (st : list byte) (stridx : list Z) :
  let '(st', stridx', o') :=
    fold_left
      (fun acc s =>
         let '(st, stridx, o) := acc in
         let s := bytes_of s ++ NUL in
         (st ++ s, stridx ++ [o], o + py_len s))
      strs (st, stridx, py_len st) in
  o' = py_len st' ∧ length stridx' = (length stridx + length strs)%nat
  ∧ (∃ more, st' = st ++ more) ∧ (∃ more, stridx' = stridx ++ more)
  ∧ ∀ (i : nat) (s : string), strs !! i = Some s →
      ∃ off, stridx' !! (length stridx + i)%nat = Some off ∧ py_len st ≤ off < o'
             ∧ take (length (bytes_of s ++ NUL)) (drop (Z.to_nat off) st') = bytes_of s ++ NUL.
Proof.
  revert st stridx. induction strs as [|s0 strs IH]; intros st stridx.
  - simpl. split_and!; [done|lia|by exists []; rewrite app_nil_r
                        |by exists []; rewrite app_nil_r|done].
  - cbn [fold_left].
    replace (py_len st + py_len (bytes_of s0 ++ NUL)) with (py_len (st ++ bytes_of s0 ++ NUL))
      by (unfold py_len; rewrite !length_app; lia).
    specialize (IH (st ++ bytes_of s0 ++ NUL) (stridx ++ [py_len st])).
    destruct (fold_left _ strs _) as [[st' stridx'] o'].
    destruct IH as (Ho & Hlen & [more Hst] & [more' Hidx] & IH).
    split_and!.
    + done.
    + rewrite Hlen, length_app. simpl. lia.
    + exists ((bytes_of s0 ++ NUL) ++ more). by rewrite Hst, <- !app_assoc.
    + exists ([py_len st] ++ more'). rewrite Hidx. by rewrite <- !app_assoc.
    + intros [|i] s Hs.
      * simpl in Hs. injection Hs as ->. exists (py_len st). split_and!.
        -- rewrite Hidx, <- app_assoc, Nat.add_0_r. cbn [app]. by rewrite list_lookup_middle.
        -- lia.
        -- rewrite Ho, Hst. unfold py_len. rewrite !length_app. simpl. lia.
        -- rewrite Hst. unfold py_len. rewrite Nat2Z.id, <- !app_assoc.
           rewrite drop_app_length. rewrite app_assoc. by rewrite take_app_length.
      * simpl in Hs. destruct (IH i s Hs) as (off & Hoff & Hr & Hb).
        exists off. split_and!; [|unfold py_len in *; rewrite length_app in Hr; lia|lia|done].
        rewrite <- Hoff. f_equal. rewrite length_app. simpl. lia.
Qed.

(** X6.  The string table of the binary writer: the offset recorded for
    the string at position [i] is where that string starts in the block,
    followed by its terminating zero byte; there is one offset per string
    and the final offset is the length of the block. *)
Theorem string_table_offsets (logname : string) (c : config) (strs : list string) :
  let '(st, stridx, o) := string_table logname c strs in
  o = py_len st ∧ length stridx = length strs
  ∧ ∀ (i : nat) (s : string), strs !! i = Some s →
      ∃ off, stridx !! i = Some off ∧ 0 ≤ off < o
             ∧ take (length (bytes_of s ++ NUL)) (drop (Z.to_nat off) st) = bytes_of s ++ NUL.
Proof.
  unfold string_table.
  match goal with
  | |- context [fold_left ?f strs (?st0, [], py_len ?st0)] =>
      pose proof (string_table_loop strs st0 []) as H; cbv beta in H
  end.
  destruct (fold_left _ strs _) as [[st stridx] o].
  destruct H as (Ho & Hlen & _ & _ & H).
  split_and!; [done|done|].
  intros i s Hs. destruct (H i s Hs) as (off & Hoff & Hr & Hb).
  exists off. split_and!; [done|unfold py_len in Hr; lia|lia|done].
Qed.

End StringTableFacts.

(** ** The chunk buffer of the binary writer *)

Section FramingFacts.
Import Num Tables Index Model Binary Layout.

Variable pack_f : Qc -> list byte.
Variable pack_d : Qc -> list byte.
Variable logname : string.
Hypothesis pack_f_length : ∀ x, length (pack_f x) = 4%nat.
Hypothesis pack_d_length : ∀ x, length (pack_d x) = 8%nat.

Lemma cat_cons_Some (p : option (list byte)) (ps : list (option (list byte))) (bs : list byte) :
  cat (p :: ps) = Some bs → ∃ b r, p = Some b ∧ cat ps = Some r ∧ bs = b ++ r.
Proof.
  unfold cat. cbn [fold_right]. intros H.
  apply bind_Some in H as (b & Hb & H). apply bind_Some in H as (r & Hr & H).
  simplify_eq. by exists b, r.
Qed.

Lemma cat_nil_Some (bs : list byte) : cat [] = Some bs → bs = [].
Proof. unfold cat. simpl. by intros [= <-]. Qed.

Lemma for_each_cons_Some {A} (x : A) (l : list A) (body : A → option (list byte))
    (bs : list byte) :
  for_each (x :: l) body = Some bs →
  ∃ b r, body x = Some b ∧ for_each l body = Some r ∧ bs = b ++ r.
Proof. unfold for_each. cbn [map]. apply cat_cons_Some. Qed.

(** A loop whose every iteration writes [k] bytes. *)
Lemma for_each_length {A} (k : nat) (l : list A) (body : A → option (list byte))
    (bs : list byte) :
  (∀ x b, x ∈ l → body x = Some b → length b = k) →
  for_each l body = Some bs → length bs = (k * length l)%nat.
Proof.
  revert bs. induction l as [|x l IH]; intros bs Hk H.
  - apply cat_nil_Some in H. subst. simpl. lia.
  - apply for_each_cons_Some in H as (b & r & Hb & Hr & ->).
    rewrite length_app, (Hk x b), (IH r); [simpl; lia| |done|apply list_elem_of_here|done].
    intros y c Hy. apply Hk. by apply list_elem_of_further.
Qed.

(** A loop whose every iteration writes chunks. *)
Lemma for_each_stream {A} (l : list A) (body : A → option (list byte)) (bs : list byte) :
  (∀ x b, x ∈ l → body x = Some b → ∃ cs, b = stream cs ∧ Forall well_formed cs) →
  for_each l body = Some bs → ∃ cs, bs = stream cs ∧ Forall well_formed cs.
Proof.
  revert bs. induction l as [|x l IH]; intros bs Hk H.
  - apply cat_nil_Some in H. subst. by exists [].
  - apply for_each_cons_Some in H as (b & r & Hb & Hr & ->).
    destruct (Hk x b) as (cs1 & -> & Hw1); [apply list_elem_of_here|done|].
    destruct (IH r) as (cs2 & -> & Hw2); [|done|].
    { intros y c Hy. apply Hk. by apply list_elem_of_further. }
    exists (cs1 ++ cs2). split; [|by apply Forall_app].
    unfold stream. by rewrite map_app, concat_app.
Qed.

Lemma chunk_framed (tag : string) (payload bs : list byte) :
  length (bytes_of tag) = 4%nat → chunk tag payload = Some bs →
  bs = stream [(bytes_of tag, payload)] ∧ Forall well_formed [(bytes_of tag, payload)].
Proof.
  intros Ht H. unfold chunk in H. apply bind_Some in H as (len & Hlen & H).
  apply pack_unsigned_Some in Hlen as [Hr ->]. simplify_eq. split.
  - unfold stream, framed. simpl. by rewrite app_nil_r.
  - constructor; [|constructor]. split; [done|]. simpl.
    change (256 ^ Z.of_nat 4) with (2 ^ 32) in Hr. lia.
Qed.

(** A part of the buffer that is one chunk or nothing. *)
Lemma optional_chunk (b : bool) (tag : string) (o : option (list byte)) (bs : list byte) :
  length (bytes_of tag) = 4%nat →
  (if b then payload ← o; chunk tag payload else Some []) = Some bs →
  ∃ cs, bs = stream cs ∧ Forall well_formed cs.
Proof.
  intros Ht H. destruct b.
  - apply bind_Some in H as (payload & _ & H).
    apply chunk_framed in H as [-> Hw]; [|done]. by eexists.
  - simplify_eq. by exists [].
Qed.

Lemma cmap_chunk_framed (t : tables) (w : widths) (bs : list byte) :
  cmap_chunk t w = Some bs → ∃ cs, bs = stream cs ∧ Forall well_formed cs.
Proof.
  unfold cmap_chunk. destruct ((0 <? py_len (cmap t)) && (ci_s w <? 4)); [|intros; simplify_eq; by exists []].
  intros H. apply bind_Some in H as (body & Hbody & H).
  apply bind_Some in H as (len & Hlen & H). simplify_eq.
  apply pack_unsigned_Some in Hlen as [Hr ->].
  apply (for_each_length 4) in Hbody.
  - replace (py_len (cmap t) * 4 + 8) with (py_len body + 8) in * by (unfold py_len; lia).
    exists [(bytes_of "CMAP", body)]. split.
    + unfold stream, framed. simpl. by rewrite app_nil_r.
    + constructor; [|constructor]. split; [done|]. simpl.
      change (256 ^ Z.of_nat 4) with (2 ^ 32) in Hr. lia.
  - intros col b _ Hb. apply (for_each_length 1) in Hb; [done|].
    intros x b1 _ Hx. apply pack_unsigned_Some in Hx as [_ ->]. apply length_le_bytes.
Qed.

Lemma tmap_chunk_framed (c : config) (t : tables) (bs : list byte) :
  0 ≤ use_quality c ≤ 3 →
  tmap_chunk pack_f pack_d c t = Some bs → ∃ cs, bs = stream cs ∧ Forall well_formed cs.
Proof.
  intros Hq. unfold tmap_chunk. destruct (0 <? py_len (tmaps t)); [|intros; simplify_eq; by exists []].
  intros H. apply bind_Some in H as (body & Hbody & H).
  apply bind_Some in H as (len & Hlen & H). simplify_eq.
  apply pack_unsigned_Some in Hlen as [Hr ->].
  apply (for_each_length (2 * Z.to_nat (Z.shiftl 1 (use_quality c)))) in Hbody.
  - assert (0 < Z.shiftl 1 (use_quality c)).
    { rewrite Z.shiftl_mul_pow2 by lia. apply Z.mul_pos_pos; [lia|]. apply Z.pow_pos_nonneg; lia. }
    assert (py_len (tmaps t) * 2 * Z.shiftl 1 (use_quality c) = py_len body) as Hl.
    { unfold py_len. rewrite Hbody. lia. }
    rewrite Hl in *. exists [(bytes_of "TMAP", body)]. split.
    + unfold stream, framed. simpl. by rewrite app_nil_r.
    + constructor; [|constructor]. split; [done|]. simpl.
      change (256 ^ Z.of_nat 4) with (2 ^ 32) in Hr. lia.
  - intros e b _ Hb. unfold tmap_entry in Hb.
    set (e' := if out_of_range e && negb (allow_unnormalized_uvs c) then _ else e) in Hb.
    clearbody e'.
    assert (use_quality c = 0 ∨ use_quality c = 1 ∨ use_quality c = 2 ∨ use_quality c = 3)
      as [Hq'|[Hq'|[Hq'|Hq']]] by lia; rewrite Hq' in *; cbn [Z.eqb Pos.eqb] in Hb.
    + apply cat_cons_Some in Hb as (b1 & r & H1 & Hb & ->).
      apply cat_cons_Some in Hb as (b2 & r' & H2 & Hb & ->).
      apply cat_nil_Some in Hb as ->.
      apply pack_unsigned_Some in H1 as [_ ->]. apply pack_unsigned_Some in H2 as [_ ->].
      by rewrite !length_app, !length_le_bytes.
    + apply cat_cons_Some in Hb as (b1 & r & H1 & Hb & ->).
      apply cat_cons_Some in Hb as (b2 & r' & H2 & Hb & ->).
      apply cat_nil_Some in Hb as ->.
      apply pack_unsigned_Some in H1 as [_ ->]. apply pack_unsigned_Some in H2 as [_ ->].
      by rewrite !length_app, !length_le_bytes.
    + simplify_eq. by rewrite length_app, !pack_f_length.
    + simplify_eq. by rewrite length_app, !pack_d_length.
Qed.

Lemma extra_chunks_framed (m : content) (bs : list byte) :
  Forall (fun e => (4 ≤ length e.1)%nat) (extras m) →
  extra_chunks m = Some bs → ∃ cs, bs = stream cs ∧ Forall well_formed cs.
Proof.
  intros Hx. unfold extra_chunks. apply for_each_stream.
  intros e b He H. apply bind_Some in H as (len & Hlen & H). simplify_eq.
  apply pack_unsigned_Some in Hlen as [Hr ->].
  exists [(take 4 e.1, e.2)]. split.
  - unfold stream, framed. simpl. by rewrite app_nil_r.
  - constructor; [|constructor]. split; simpl.
    + rewrite length_take. rewrite Forall_forall in Hx. specialize (Hx e He). lia.
    + change (256 ^ Z.of_nat 4) with (2 ^ 32) in Hr. lia.
Qed.

(** X7.  The chunk buffer of the binary writer can be walked by its
    length fields: whenever it is written, it is a sequence of chunks,
    each a four-byte tag, the chunk's own length in four bytes and the
    payload, and the first of them is the header chunk.  The colour map
    and the texture map, whose lengths are computed from the entry count
    rather than measured, declare the length they have. *)
Theorem chunks_framed (c : config) (t : tables) (m : content) (buf : list byte) :
  0 ≤ use_quality c ≤ 3 →
  Forall (fun e => (4 ≤ length e.1)%nat) (extras m) →
  chunks pack_f pack_d logname c t m = Some buf →
  ∃ (head : list byte) (cs : list (list byte * list byte)),
    buf = stream ((bytes_of "HEAD", head) :: cs)
    ∧ Forall well_formed ((bytes_of "HEAD", head) :: cs).
Proof.
  intros Hq Hx H. unfold chunks in H.
  destruct (string_table logname c (strs t)) as [[st stridx] o].
  set (w := select_widths c t m o) in *. clearbody w.
  apply cat_cons_Some in H as (b1 & r & H1 & H & ->).
  apply cat_cons_Some in H as (b2 & r2 & H2 & H & ->).
  apply cat_cons_Some in H as (b3 & r3 & H3 & H & ->).
  apply cat_cons_Some in H as (b4 & r4 & H4 & H & ->).
  apply cat_cons_Some in H as (b5 & r5 & H5 & H & ->).
  apply cat_cons_Some in H as (b6 & r6 & H6 & H & ->).
  apply cat_cons_Some in H as (b7 & r7 & H7 & H & ->).
  apply cat_cons_Some in H as (b8 & r8 & H8 & H & ->).
  apply cat_cons_Some in H as (b9 & r9 & H9 & H & ->).
  apply cat_cons_Some in H as (b10 & r10 & H10 & H & ->).
  apply cat_cons_Some in H as (b11 & r11 & H11 & H & ->).
  apply cat_nil_Some in H as ->.
  (* HEAD *)
  unfold head_chunk in H1. apply bind_Some in H1 as (flags & _ & H1).
  apply chunk_framed in H1 as [-> Hw1]; [|done].
  apply cmap_chunk_framed in H2 as (cs2 & -> & Hw2).
  apply tmap_chunk_framed in H3 as (cs3 & -> & Hw3); [|done].
  apply (optional_chunk _ "VRTS") in H4 as (cs4 & -> & Hw4); [|done].
  apply (optional_chunk _ "BONE") in H5 as (cs5 & -> & Hw5); [|done].
  assert (∃ cs6, b6 = stream cs6 ∧ Forall well_formed cs6) as (cs6 & -> & Hw6).
  { unfold mtrl_chunks in H6. destruct (0 <? py_len (materials m)); [|simplify_eq; by exists []].
    revert H6. apply for_each_stream. intros mat b _ Hb.
    apply bind_Some in Hb as (payload & _ & Hb).
    apply chunk_framed in Hb as [-> Hw]; [|done]. by eexists. }
  apply (optional_chunk _ "MESH") in H7 as (cs7 & -> & Hw7); [|done].
  assert (∃ cs8, b8 = stream cs8 ∧ Forall well_formed cs8) as (cs8 & -> & Hw8).
  { unfold lbls_chunk in H8. destruct (0 <? py_len (labels m)); [|simplify_eq; by exists []].
    apply chunk_framed in H8 as [-> Hw]; [|done]. by eexists. }
  assert (∃ cs9, b9 = stream cs9 ∧ Forall well_formed cs9) as (cs9 & -> & Hw9).
  { unfold actn_chunks in H9. destruct (0 <? py_len (actions m)); [|simplify_eq; by exists []].
    revert H9. apply for_each_stream. intros a b _ Hb.
    destruct (py_len (a_frames a) <? 1); [simplify_eq; by exists []|].
    apply bind_Some in Hb as (payload & _ & Hb).
    apply chunk_framed in Hb as [-> Hw]; [|done]. by eexists. }
  assert (∃ cs10, b10 = stream cs10 ∧ Forall well_formed cs10) as (cs10 & -> & Hw10).
  { revert H10. apply for_each_stream. intros a b _ Hb.
    apply bind_Some in Hb as (o' & _ & Hb). apply bind_Some in Hb as (ref & _ & Hb).
    apply chunk_framed in Hb as [-> Hw]; [|done]. by eexists. }
  apply extra_chunks_framed in H11 as (cs11 & -> & Hw11); [|done].
  exists (pack_f (use_scale c) ++ flags ++ st),
    (cs2 ++ cs3 ++ cs4 ++ cs5 ++ cs6 ++ cs7 ++ cs8 ++ cs9 ++ cs10 ++ cs11).
  split.
  - unfold stream. cbn [map concat fst snd]. rewrite !map_app, !concat_app.
    rewrite !app_nil_r. reflexivity.
  - apply Forall_cons. split; [by apply Forall_inv in Hw1|].
    repeat (apply Forall_app; split; [done|]). done.
Qed.

End FramingFacts.

Section FramingExamples.
Import Num Tables Index Model Binary Layout Samples.

Lemma chunks_framed_witness :
  ∃ (buf head : list byte) (cs : list (list byte * list byte)),
    chunks four_bytes eight_bytes "me" config0 triangle_tables triangle_content = Some buf
    ∧ buf = stream ((bytes_of "HEAD", head) :: cs)
    ∧ Forall well_formed ((bytes_of "HEAD", head) :: cs).
Proof.
  destruct (chunks four_bytes eight_bytes "me" config0 triangle_tables triangle_content)
    as [buf|] eqn:H; [|vm_compute in H; discriminate].
  destruct (chunks_framed four_bytes eight_bytes "me" (fun _ => eq_refl) (fun _ => eq_refl)
              config0 triangle_tables triangle_content buf) as (head & cs & H1 & H2).
  - simpl. lia.
  - constructor.
  - exact H.
  - exists buf, head, cs. split; [reflexivity|]. split; [exact H1|exact H2].
Defined.

End FramingExamples.

(** ** The skin of a vertex *)

Section VertexSkinFacts.
Import Num Tables Skin.

Variable hash_str : skin → Z.
Variable bones : dict string bone.

Lemma absorb_length (sk : skin) (w : Z) (si : option nat) : length (absorb sk w si) = length sk.
Proof.
  unfold absorb. destruct (w =? 255); [done|]. destruct si as [i|]; [|done].
  destruct (sk !! i) as [[b x]|]; [|done]. by rewrite length_insert.
Qed.

(** While every group matches a bone, the loop runs to its end. *)
Lemma weigh_found vg (wf : Qc) (gs : list group) (a : acc) :
  Forall (fun g => ∃ i, bone_of_group bones vg g = Found i) gs →
  ∃ a', weigh bones vg wf gs a = (a', Done)
        ∧ length (a_skin a') = (length (a_skin a) + length gs)%nat.
Proof.
  intros H. revert a. induction H as [|g gs [i Hg] _ IH]; intros a.
  - exists a. split; [done|]. simpl. lia.
  - cbn [weigh]. cbv zeta. rewrite Hg.
    match goal with |- context [weigh bones vg wf gs ?a0] => destruct (IH a0) as (a' & Ha & Hl) end.
    exists a'. split; [done|]. rewrite Hl. cbn [a_skin].
    destruct (a_wm a <? rounded wf g); cbn [a_skin]; rewrite length_app; simpl; lia.
Qed.

(** The first group that matches no bone ends the loop; the skin holds
    the groups before it. *)
Lemma weigh_break vg (wf : Qc) (pre post : list group) (g : group) (name : string) (a : acc) :
  Forall (fun g => ∃ i, bone_of_group bones vg g = Found i) pre →
  bone_of_group bones vg g = NoBone name →
  ∃ a', weigh bones vg wf (pre ++ g :: post) a = (a', Break name)
        ∧ length (a_skin a') = (length (a_skin a) + length pre)%nat.
Proof.
  intros H Hg. revert a. induction H as [|g0 pre [i Hg0] _ IH]; intros a.
  - cbn [app weigh]. cbv zeta. rewrite Hg. eexists. split; [done|].
    destruct (a_wm a <? rounded wf g); cbn [a_skin]; simpl; lia.
  - cbn [app weigh]. cbv zeta. rewrite Hg0.
    match goal with |- context [weigh bones vg wf _ ?a0] => destruct (IH a0) as (a' & Ha & Hl) end.
    exists a'. split; [done|]. rewrite Hl. cbn [a_skin].
    destruct (a_wm a <? rounded wf g0); cbn [a_skin]; rewrite length_app; simpl; lia.
Qed.

Lemma vertex_skin_guard (groups : list group) (st : state) :
  use_skeleton st = true → vg st ≠ [] → groups ≠ [] →
  use_skeleton st && (0 <? py_len (vg st)) && (0 <? py_len groups) = true.
Proof.
  intros -> Hvg Hg. unfold py_len.
  destruct (vg st); [done|]. destruct groups; [done|]. done.
Qed.

(** X8.  A vertex with one to eight influences, none negative and not
    all zero, whose groups all match bones, is given a skin with one
    entry per influence whose weights are all between 1 and 255 and add
    up to 255 exactly. *)
Theorem few_influences_skin (groups : list group) (st : state) :
  use_skeleton st = true → vg st ≠ [] →
  (0 < length groups ≤ 8)%nat →
  Forall (fun g => Qc_of_Z 0 ≤ g_weight g)%Qc groups →
  (Qc_of_Z 0 < sum_weights groups)%Qc →
  Forall (fun g => ∃ i, bone_of_group bones (vg st) g = Found i) groups →
  ∃ (s : Z) (st' : state) (sk : skin),
    vertex_skin hash_str bones groups st = Some (s, st')
    ∧ (s, Skin.skins st') = uniquedict hash_str (Skin.skins st) sk
    ∧ length sk = length groups
    ∧ Forall (fun w => 1 ≤ w ≤ 255) (weights sk)
    ∧ total sk = 255.
Proof.
  intros Hus Hvg Hlen Hnn Hwf Hfound.
  unfold vertex_skin. rewrite vertex_skin_guard; [|done|done|by destruct groups; [simpl in Hlen; lia|]].
  cbv zeta. rewrite decide_True by done.
  destruct (weigh_found (vg st) (sum_weights groups) groups
              {| a_skin := []; a_w := 0; a_wm := 0; a_si := si st |} Hfound) as (a & Ha & _).
  rewrite Ha.
  destruct (few_influences_in_range bones (vg st) groups (si st) a Hlen Hnn Hwf Ha)
    as (Ht & Hr & Hl).
  destruct (uniquedict hash_str (Skin.skins st) (absorb (a_skin a) (a_w a) (a_si a)))
    as [s skins'] eqn:Hu.
  eexists s, _, (absorb (a_skin a) (a_w a) (a_si a)).
  split; [reflexivity|]. cbn [Skin.skins]. by rewrite Hu.
Qed.

(** X9.  A vertex group that matches no bone: the groups before it are
    still collected and the vertex is given the skin made of them (the
    [-1] set by the handler is overwritten), the error is reported, and
    skinning is switched off, so that every vertex after it gets [-1] and
    changes nothing. *)
Theorem unmatched_group_ends_skinning (pre post : list group) (g : group) (name : string)
    (st : state) :
  use_skeleton st = true → vg st ≠ [] →
  (Qc_of_Z 0 < sum_weights (pre ++ g :: post))%Qc →
  Forall (fun g => ∃ i, bone_of_group bones (vg st) g = Found i) pre →
  bone_of_group bones (vg st) g = NoBone name →
  ∃ (s : Z) (st' : state) (sk : skin),
    vertex_skin hash_str bones (pre ++ g :: post) st = Some (s, st')
    ∧ (s, Skin.skins st') = uniquedict hash_str (Skin.skins st) sk
    ∧ length sk = length pre
    ∧ use_skeleton st' = false ∧ vg st' = []
    ∧ reports st' = reports st
        ++ [("Vertex group name '" +:+ name +:+ "' does not match any bone.")%string]
    ∧ ∀ later, vertex_skin hash_str bones later st' = Some (-1, st').
Proof.
  intros Hus Hvg Hwf Hfound Hg.
  unfold vertex_skin at 1. rewrite vertex_skin_guard; [|done|done|by destruct pre].
  cbv zeta. rewrite decide_True by done.
  destruct (weigh_break (vg st) (sum_weights (pre ++ g :: post)) pre post g name
              {| a_skin := []; a_w := 0; a_wm := 0; a_si := si st |} Hfound Hg) as (a & Ha & Hl).
  rewrite Ha.
  destruct (uniquedict hash_str (Skin.skins st) (absorb (a_skin a) (a_w a) (a_si a)))
    as [s skins'] eqn:Hu.
  eexists s, _, (absorb (a_skin a) (a_w a) (a_si a)).
  split; [reflexivity|]. cbn [Skin.skins use_skeleton vg reports].
  split_and!; [by rewrite Hu|by rewrite absorb_length, Hl|done|done|done|].
  intros later. unfold vertex_skin. by cbn [use_skeleton andb].
Qed.

(** X10.  The running maximum [nb_m] bounds the length of every stored
    skin and never decreases; so, as long as no vertex has more than
    eight influences, the number of weight slots the binary writer
    derives from it is enough for every skin. *)
Theorem skin_slots_cover (groups : list group) (st st' : state) (s : Z) :
  Forall (fun e => py_len e.2.2 ≤ nb_m st) (Skin.skins st) →
  vertex_skin hash_str bones groups st = Some (s, st') →
  Forall (fun e => py_len e.2.2 ≤ nb_m st') (Skin.skins st')
  ∧ nb_m st ≤ nb_m st'
  ∧ ∀ (c : Model.config) (t : tables) (m : Model.content) (o : Z),
      Model.nb_m c = nb_m st' → nb_m st' ≤ 8 →
      Forall (fun e => py_len e.2.2
                       ≤ Z.shiftl 1 (Binary.nb_s (Binary.select_widths c t m o)))
        (Skin.skins st').
Proof.
  intros Hb H.
  assert (Forall (fun e => py_len e.2.2 ≤ nb_m st') (Skin.skins st') ∧ nb_m st ≤ nb_m st')
    as [Hb' Hm].
  { unfold vertex_skin in H.
    destruct (use_skeleton st && (0 <? py_len (vg st)) && (0 <? py_len groups));
      [|simplify_eq; split; [done|lia]].
    cbv zeta in H. case_decide; [|simplify_eq; split; [done|lia]].
    destruct (weigh _ _ _ _ _) as [a fin].
    set (sk := absorb (a_skin a) (a_w a) (a_si a)) in *.
    assert (∀ us vg' rep,
      (let '(s, skins') := uniquedict hash_str (Skin.skins st) sk in
       Some (s, {| use_skeleton := us; vg := vg'; si := a_si a; skins := skins';
                   nb_m := if nb_m st <? py_len sk then py_len sk else nb_m st;
                   reports := rep |})) = Some (s, st') →
      Forall (fun e => py_len e.2.2 ≤ nb_m st') (Skin.skins st') ∧ nb_m st ≤ nb_m st') as Hgen.
    { intros us vg' rep Heq. unfold uniquedict in Heq.
      destruct (dict_get (hash_str sk) (Skin.skins st)) as [[i x]|] eqn:Hg;
        simplify_eq; cbn [Skin.skins nb_m].
      - split; [|destruct (Z.ltb_spec (nb_m st) (py_len sk)); lia].
        eapply Forall_impl; [exact Hb|]. simpl. intros e He.
        destruct (Z.ltb_spec (nb_m st) (py_len sk)); lia.
      - split; [|destruct (Z.ltb_spec (nb_m st) (py_len sk)); lia].
        rewrite dict_set_fresh by done. apply Forall_app. split.
        + eapply Forall_impl; [exact Hb|]. simpl. intros e He.
          destruct (Z.ltb_spec (nb_m st) (py_len sk)); lia.
        + apply Forall_singleton. simpl.
          destruct (Z.ltb_spec (nb_m st) (py_len sk)); lia. }
    destruct fin; [exact (Hgen _ _ _ H)|exact (Hgen _ _ _ H)|done]. }
  split_and!; [done|done|].
  intros c t m o Hc H8. eapply Forall_impl; [exact Hb'|]. simpl. intros e He.
  rewrite Hc.
  destruct (Z.ltb_spec (nb_m st') 2); [change (Z.shiftl 1 0) with 1|].
  - lia.
  - destruct (Z.eqb_spec (nb_m st') 2); [change (Z.shiftl 1 1) with 2; lia|].
    destruct (Z.leb_spec (nb_m st') 4); [change (Z.shiftl 1 2) with 4; lia|].
    change (Z.shiftl 1 3) with 8. lia.
Qed.

End VertexSkinFacts.

Section VertexSkinExamples.
Import Num Tables Skin.

Lemma few_influences_skin_witness :
  ∃ (s : Z) (st' : state) (sk : skin),
    vertex_skin (fun _ => 0) (Examples.chain 2) Examples.three_to_one (Examples.skin_start 2)
      = Some (s, st')
    ∧ (s, Skin.skins st') = uniquedict (fun _ => 0) (Skin.skins (Examples.skin_start 2)) sk
    ∧ length sk = length Examples.three_to_one
    ∧ Forall (fun w => 1 ≤ w ≤ 255) (weights sk)
    ∧ total sk = 255.
Proof.
  apply (few_influences_skin (fun _ => 0) (Examples.chain 2) Examples.three_to_one
           (Examples.skin_start 2)).
  - reflexivity.
  - discriminate.
  - simpl. lia.
  - repeat constructor; vm_compute; discriminate.
  - vm_compute. reflexivity.
  - repeat constructor; eexists; vm_compute; reflexivity.
Defined.

(** One bone, two vertex groups: the second has no bone of its name. *)
Lemma unmatched_group_ends_skinning_witness :
  let st := {| use_skeleton := true; vg := ["b0"; "tail"]%string; si := None;
               skins := []; nb_m := 0; reports := [] |} in
  let groups := [ {| g_group := 0; g_weight := Examples.q 1 1 |};
                  {| g_group := 1; g_weight := Examples.q 1 1 |} ] in
  ∃ (s : Z) (st' : state) (sk : skin),
    vertex_skin (fun _ => 0) (Examples.chain 1) groups st = Some (s, st')
    ∧ (s, Skin.skins st') = uniquedict (fun _ => 0) (Skin.skins st) sk
    ∧ length sk = 1%nat
    ∧ use_skeleton st' = false ∧ vg st' = []
    ∧ reports st' = ["Vertex group name 'tail' does not match any bone."]%string
    ∧ ∀ later, vertex_skin (fun _ => 0) (Examples.chain 1) later st' = Some (-1, st').
Proof.
  intros st groups.
  apply (unmatched_group_ends_skinning (fun _ => 0) (Examples.chain 1)
           [ {| g_group := 0; g_weight := Examples.q 1 1 |} ] []
           {| g_group := 1; g_weight := Examples.q 1 1 |} "tail" st).
  - reflexivity.
  - discriminate.
  - vm_compute. reflexivity.
  - repeat constructor; eexists; vm_compute; reflexivity.
  - vm_compute. reflexivity.
Defined.

Lemma skin_slots_cover_witness :
  ∃ (s : Z) (st' : state),
    vertex_skin (fun _ => 0) (Examples.chain 2) Examples.three_to_one (Examples.skin_start 2)
      = Some (s, st')
    ∧ nb_m st' = 2
    ∧ Forall (fun e => py_len e.2.2 ≤ nb_m st') (Skin.skins st').
Proof.
  destruct (vertex_skin (fun _ => 0) (Examples.chain 2) Examples.three_to_one
              (Examples.skin_start 2)) as [[s st']|] eqn:H; [|vm_compute in H; discriminate].
  exists s, st'. split; [done|].
  destruct (skin_slots_cover (fun _ => 0) (Examples.chain 2) Examples.three_to_one
              (Examples.skin_start 2) st' s) as (Hb & _ & _); [constructor|exact H|].
  split; [|exact Hb]. vm_compute in H. by injection H as _ <-.
Defined.

End VertexSkinExamples.

(** ** Grid compression and the unit cube *)

Section UnitCube.
Import Num Tables Grid.

Lemma Qc_abs_ge (y : Qc) : (y ≤ Qc_abs y ∧ - y ≤ Qc_abs y)%Qc.
Proof.
  unfold Qc_abs. case_decide as H.
  - split; [|done]. apply Qclt_le_weak in H.
    trans 0%Qc; [done|]. by apply (Qcopp_le_compat y 0) in H.
  - apply Qcnot_lt_le in H. split; [done|].
    trans 0%Qc; [|done]. by apply (Qcopp_le_compat 0 y) in H.
Qed.

Lemma Qc_max_ge (x y : Qc) : (x ≤ Qc_max x y ∧ y ≤ Qc_max x y)%Qc.
Proof.
  unfold Qc_max. case_decide as H.
  - split; [by apply Qclt_le_weak|done].
  - apply Qcnot_lt_le in H. done.
Qed.

Lemma fold_Qc_max_start (l : list Qc) (a : Qc) : (a ≤ fold_left Qc_max l a)%Qc.
Proof.
  revert a. induction l as [|y l IH]; intros a; simpl; [done|].
  trans (Qc_max a y); [apply Qc_max_ge|apply IH].
Qed.

Lemma fold_Qc_max_ge (l : list Qc) (a x : Qc) :
  x = a ∨ x ∈ l → (x ≤ fold_left Qc_max l a)%Qc.
Proof.
  intros [->|Hx]; [apply fold_Qc_max_start|].
  revert a. induction l as [|y l IH]; intros a; [by apply elem_of_nil in Hx|].
  simpl. apply elem_of_cons in Hx as [->|Hx]; [|by apply IH].
  trans (Qc_max a y); [apply Qc_max_ge|apply fold_Qc_max_start].
Qed.

Lemma lower_le (m x : Qc) : (lower m x ≤ m ∧ lower m x ≤ x)%Qc.
Proof.
  unfold lower. case_decide as H; [split; [by apply Qclt_le_weak|done]|].
  apply Qcnot_lt_le in H. done.
Qed.

Lemma upper_ge (m x : Qc) : (m ≤ upper m x ∧ x ≤ upper m x)%Qc.
Proof.
  unfold upper. case_decide as H; [split; [by apply Qclt_le_weak|done]|].
  apply Qcnot_lt_le in H. done.
Qed.

(** The extent after the loop contains the extent before it and every
    entry the loop has looked at. *)
Lemma bounds_contain (verts : list vertex) (e : extent) :
  let e' := fold_left widen verts e in
  (min_x e' ≤ min_x e ∧ max_x e ≤ max_x e' ∧ min_y e' ≤ min_y e ∧ max_y e ≤ max_y e'
   ∧ min_z e' ≤ min_z e ∧ max_z e ≤ max_z e')%Qc
  ∧ ∀ v, v ∈ verts →
      (min_x e' ≤ vx v ≤ max_x e' ∧ min_y e' ≤ vy v ≤ max_y e'
       ∧ min_z e' ≤ vz v ≤ max_z e')%Qc.
Proof.
  revert e. induction verts as [|v0 verts IH]; intros e; cbn [fold_left].
  - split; [done|]. intros v Hv. by apply elem_of_nil in Hv.
  - destruct (IH (widen e v0)) as [(H1 & H2 & H3 & H4 & H5 & H6) Hin].
    cbn [widen min_x max_x min_y max_y min_z max_z] in *.
    split.
    + split_and!.
      * trans (lower (min_x e) (vx v0)); [done|apply lower_le].
      * trans (upper (max_x e) (vx v0)); [apply upper_ge|done].
      * trans (lower (min_y e) (vy v0)); [done|apply lower_le].
      * trans (upper (max_y e) (vy v0)); [apply upper_ge|done].
      * trans (lower (min_z e) (vz v0)); [done|apply lower_le].
      * trans (upper (max_z e) (vz v0)); [apply upper_ge|done].
    + intros v Hv. apply elem_of_cons in Hv as [->|Hv]; [|by apply Hin].
      split_and!.
      * trans (lower (min_x e) (vx v0)); [done|apply lower_le].
      * trans (upper (max_x e) (vx v0)); [apply upper_ge|done].
      * trans (lower (min_y e) (vy v0)); [done|apply lower_le].
      * trans (upper (max_y e) (vy v0)); [apply upper_ge|done].
      * trans (lower (min_z e) (vz v0)); [done|apply lower_le].
      * trans (upper (max_z e) (vz v0)); [apply upper_ge|done].
Qed.

Lemma between_abs (lo hi x s : Qc) :
  (lo ≤ x → x ≤ hi → Qc_abs lo ≤ s → Qc_abs hi ≤ s → - s ≤ x ∧ x ≤ s)%Qc.
Proof.
  intros Hlo Hhi Hl Hh. split.
  - trans lo; [|done]. destruct (Qc_abs_ge lo) as [_ H].
    assert (- lo ≤ s)%Qc as H' by (by etrans).
    apply Qcopp_le_compat in H'. by rewrite Qcopp_involutive in H'.
  - trans hi; [done|]. trans (Qc_abs hi); [apply Qc_abs_ge|done].
Qed.

(** Every coordinate of every pooled entry is within the scale. *)
Lemma grid_scale_bounds (verts : list vertex) (v : vertex) :
  v ∈ verts →
  let s := grid_scale verts in
  (- s ≤ vx v ∧ vx v ≤ s ∧ - s ≤ vy v ∧ vy v ≤ s ∧ - s ≤ vz v ∧ vz v ≤ s)%Qc.
Proof.
  intros Hv s. destruct (bounds_contain verts extent0) as [_ Hin].
  destruct (Hin v Hv) as ([Hx1 Hx2] & [Hy1 Hy2] & [Hz1 Hz2]). clear Hin.
  change (fold_left widen verts extent0) with (bounds verts) in *.
  subst s. change (grid_scale verts) with (extent_scale (bounds verts)).
  set (e := bounds verts) in *. clearbody e.
  assert (Qc_abs (min_x e) ≤ extent_scale e)%Qc as A1 by (apply fold_Qc_max_ge; by left).
  assert (Qc_abs (max_x e) ≤ extent_scale e)%Qc as A2
    by (apply fold_Qc_max_ge; right; apply list_elem_of_here).
  assert (Qc_abs (min_y e) ≤ extent_scale e)%Qc as A3
    by (apply fold_Qc_max_ge; right; do 1 apply list_elem_of_further; apply list_elem_of_here).
  assert (Qc_abs (max_y e) ≤ extent_scale e)%Qc as A4
    by (apply fold_Qc_max_ge; right; do 2 apply list_elem_of_further; apply list_elem_of_here).
  assert (Qc_abs (min_z e) ≤ extent_scale e)%Qc as A5
    by (apply fold_Qc_max_ge; right; do 3 apply list_elem_of_further; apply list_elem_of_here).
  assert (Qc_abs (max_z e) ≤ extent_scale e)%Qc as A6
    by (apply fold_Qc_max_ge; right; do 4 apply list_elem_of_further; apply list_elem_of_here).
  destruct (between_abs _ _ _ _ Hx1 Hx2 A1 A2) as [? ?].
  destruct (between_abs _ _ _ _ Hy1 Hy2 A3 A4) as [? ?].
  destruct (between_abs _ _ _ _ Hz1 Hz2 A5 A6) as [? ?].
  split_and!; assumption.
Qed.

End UnitCube.
Section UnitCube2.
Import Num Tables Grid.

Lemma unit_div (x s : Qc) : (0 < s → - s ≤ x → x ≤ s → - 1 ≤ x / s ∧ x / s ≤ 1)%Qc.
Proof.
  intros Hs Hlo Hhi.
  assert (s ≠ 0%Qc) as Hne by (intros ->; by apply Qclt_not_eq in Hs).
  assert (x / s * s = x)%Qc as Hx.
  { unfold Qcdiv. by rewrite <- Qcmult_assoc, (Qcmult_comm (/ s)), Qcmult_inv_r, Qcmult_1_r. }
  split.
  - apply (Qcmult_le_mono_pos_r _ _ s Hs). rewrite Hx.
    by replace (- 1 * s)%Qc with (- s)%Qc by ring.
  - apply (Qcmult_le_mono_pos_r _ _ s Hs). by rewrite Hx, Qcmult_1_l.
Qed.

Lemma py_round_unit (y : Qc) (P : Z) :
  0 < P → (- 1 ≤ y)%Qc → (y ≤ 1)%Qc → - P ≤ py_round (y * Qc_of_Z P) ≤ P.
Proof.
  intros HP Hlo Hhi. set (p := Qc_of_Z P).
  assert (0 < p)%Qc as Hp by (subst p; rewrite <- Z2Qc_inj_0, <- Z2Qc_inj_lt; lia).
  destruct (py_round_bounds (y * p)) as [H1 H2].
  assert (Qc_of_Z 2 * (y * p) ≤ Qc_of_Z (2 * P))%Qc as Hup.
  { rewrite Z2Qc_inj_mul. fold p. apply Qcmult_le_mono_nonneg_l.
    - rewrite <- Z2Qc_inj_0, <- Z2Qc_inj_le. lia.
    - rewrite <- (Qcmult_1_l p) at 2. apply Qcmult_le_mono_nonneg_r; [by apply Qclt_le_weak|done]. }
  assert (Qc_of_Z (- (2 * P)) ≤ Qc_of_Z 2 * (y * p))%Qc as Hdn.
  { rewrite Z2Qc_inj_opp, Z2Qc_inj_mul. fold p.
    replace (- (Qc_of_Z 2 * p))%Qc with (Qc_of_Z 2 * (- 1 * p))%Qc by ring.
    apply Qcmult_le_mono_nonneg_l.
    - rewrite <- Z2Qc_inj_0, <- Z2Qc_inj_le. lia.
    - apply Qcmult_le_mono_nonneg_r; [by apply Qclt_le_weak|done]. }
  assert (Qc_of_Z (2 * py_round (y * p) - 1) ≤ Qc_of_Z (2 * P))%Qc as A by (by etrans).
  assert (Qc_of_Z (- (2 * P)) ≤ Qc_of_Z (2 * py_round (y * p) + 1))%Qc as B by (by etrans).
  apply Z2Qc_inj_le in A, B. lia.
Qed.

Lemma py_round_nd_unit (y : Qc) (d : Z) :
  0 ≤ d → (- 1 ≤ y)%Qc → (y ≤ 1)%Qc →
  (- 1 ≤ py_round_nd y d ∧ py_round_nd y d ≤ 1)%Qc.
Proof.
  intros Hd Hlo Hhi. unfold py_round_nd. cbv zeta.
  assert (0 < 10 ^ d) as HP by (apply Z.pow_pos_nonneg; lia).
  destruct (py_round_unit y (10 ^ d) HP Hlo Hhi) as [H1 H2].
  apply unit_div.
  - rewrite <- Z2Qc_inj_0, <- Z2Qc_inj_lt. lia.
  - rewrite <- Z2Qc_inj_opp, <- Z2Qc_inj_le. lia.
  - rewrite <- Z2Qc_inj_le. lia.
Qed.

(** [int(x * K)] for [x] in the unit interval. *)
Lemma py_int_unit (x : Qc) (K : Z) :
  0 < K → (- 1 ≤ x)%Qc → (x ≤ 1)%Qc → - K ≤ py_int (x * Qc_of_Z K) ≤ K.
Proof.
  intros HK Hlo Hhi. set (k := Qc_of_Z K).
  assert (0 < k)%Qc as Hk by (subst k; rewrite <- Z2Qc_inj_0, <- Z2Qc_inj_lt; lia).
  assert (x * k ≤ k)%Qc as Hup.
  { rewrite <- (Qcmult_1_l k) at 2. apply Qcmult_le_mono_nonneg_r; [by apply Qclt_le_weak|done]. }
  assert (Qc_of_Z (- K) ≤ x * k)%Qc as Hdn.
  { rewrite Z2Qc_inj_opp. fold k. replace (- k)%Qc with (- 1 * k)%Qc by ring.
    apply Qcmult_le_mono_nonneg_r; [by apply Qclt_le_weak|done]. }
  set (y := (x * k)%Qc) in *.
  assert (this y <= inject_Z K)%Q as Hup' by exact Hup.
  assert (inject_Z (- K) <= this y)%Q as Hdn' by exact Hdn.
  unfold py_int. case_decide as H0.
  - assert (0 <= this y)%Q as H0' by exact H0.
    split.
    + apply (Qfloor_resp_le 0 y) in H0'. change (Qfloor 0) with 0 in H0'. lia.
    + apply Qfloor_resp_le in Hup'. by rewrite Qfloor_Z in Hup'.
  - apply Qcnot_le_lt in H0. assert (this y < 0)%Q as H0' by exact H0.
    split.
    + apply Qceiling_resp_le in Hdn'. by rewrite Qceiling_Z in Hdn'.
    + apply Qlt_le_weak, Qceiling_resp_le in H0'. change (Qceiling 0) with 0 in H0'. lia.
Qed.

Lemma pack_signed_in_range (n : nat) (v : Z) :
  - (256 ^ Z.of_nat n / 2) ≤ v < 256 ^ Z.of_nat n / 2 →
  Index.pack_signed n v = Some (Index.le_bytes n (v mod 256 ^ Z.of_nat n)).
Proof.
  intros Hr. unfold Index.pack_signed. cbv zeta.
  by rewrite (proj2 (andb_true_iff _ _)) by (split; [apply Z.leb_le|apply Z.ltb_lt]; lia).
Qed.

Lemma grid_scale_nonneg (verts : list vertex) : (0 ≤ grid_scale verts)%Qc.
Proof.
  unfold grid_scale, extent_scale.
  trans (Qc_abs (min_x (bounds verts))); [|apply fold_Qc_max_start].
  unfold Qc_abs. case_decide as H.
  - apply Qclt_le_weak in H. by apply (Qcopp_le_compat _ 0) in H.
  - by apply Qcnot_lt_le in H.
Qed.

Variable pack_f : Qc -> list byte.
Variable pack_d : Qc -> list byte.

(** A coordinate of the unit interval packs at the two integer tiers. *)
Lemma coordinate_unit (c : Model.config) (x : Qc) :
  (- 1 ≤ x)%Qc → (x ≤ 1)%Qc → Model.use_quality c = 0 ∨ Model.use_quality c = 1 →
  ∃ b, Binary.coordinate pack_f pack_d c x = Some b
       ∧ length b = Z.to_nat (Model.use_quality c + 1).
Proof.
  intros Hlo Hhi [Hq|Hq]; unfold Binary.coordinate; rewrite Hq; cbn [Z.eqb Pos.eqb].
  - pose proof (py_int_unit x 127 ltac:(lia) Hlo Hhi).
    rewrite pack_signed_in_range by (change (256 ^ Z.of_nat 1 / 2) with 128; lia).
    eexists. split; [done|]. by rewrite length_le_bytes.
  - pose proof (py_int_unit x 32767 ltac:(lia) Hlo Hhi).
    rewrite pack_signed_in_range by (change (256 ^ Z.of_nat 2 / 2) with 32768; lia).
    eexists. split; [done|]. by rewrite length_le_bytes.
Qed.

(** Entries that are left as they are when the scale is 1 or 0. *)
Lemma unit_unchanged (s : Qc) (v : vertex) :
  (- s ≤ vx v ∧ vx v ≤ s ∧ - s ≤ vy v ∧ vy v ≤ s ∧ - s ≤ vz v ∧ vz v ≤ s)%Qc →
  s = Qc_of_Z 1 ∨ s = Qc_of_Z 0 →
  ((- 1 ≤ vx v ∧ vx v ≤ 1) ∧ (- 1 ≤ vy v ∧ vy v ≤ 1) ∧ (- 1 ≤ vz v ∧ vz v ≤ 1))%Qc.
Proof.
  intros (? & ? & ? & ? & ? & ?) Hcase.
  assert (s ≤ 1)%Qc as Hs1.
  { destruct Hcase as [Hc|Hc]; rewrite Hc; [by rewrite Z2Qc_inj_1|].
    rewrite <- Z2Qc_inj_1, <- Z2Qc_inj_le. lia. }
  assert (- 1 ≤ - s)%Qc as Hs2 by (by apply Qcopp_le_compat).
  split_and!; by etrans.
Qed.

(** A rescaled position. *)
Lemma unit_rescaled (s : Qc) (digits : Z) (v0 : vertex) :
  0 ≤ digits → (0 < s)%Qc → vs v0 ≠ -2 →
  (- s ≤ vx v0 ∧ vx v0 ≤ s ∧ - s ≤ vy v0 ∧ vy v0 ≤ s ∧ - s ≤ vz v0 ∧ vz v0 ≤ s)%Qc →
  let v := rescale s digits v0 in
  ((- 1 ≤ vx v ∧ vx v ≤ 1) ∧ (- 1 ≤ vy v ∧ vy v ≤ 1) ∧ (- 1 ≤ vz v ∧ vz v ≤ 1))%Qc.
Proof.
  intros Hd Hs Hvs0 (Bx1 & Bx2 & By1 & By2 & Bz1 & Bz2) v. subst v.
  rewrite (rescale_position s digits v0 Hvs0). cbn [vert vx vy vz].
  destruct (unit_div (vx v0) s Hs Bx1 Bx2) as [X1 X2].
  destruct (unit_div (vy v0) s Hs By1 By2) as [Y1 Y2].
  destruct (unit_div (vz v0) s Hs Bz1 Bz2) as [Z1 Z2].
  exact (conj (py_round_nd_unit _ digits Hd X1 X2)
           (conj (py_round_nd_unit _ digits Hd Y1 Y2) (py_round_nd_unit _ digits Hd Z1 Z2))).
Qed.

Lemma normalize_unchanged (digits : Z) (use_scale : Qc) (verts : list vertex) :
  grid_scale verts = Qc_of_Z 1 ∨ grid_scale verts = Qc_of_Z 0 →
  (normalize true digits use_scale verts).1 = verts.
Proof.
  intros H. pose proof (normalize_grid digits use_scale verts) as Hn.
  cbv zeta in Hn. rewrite Hn. cbn [fst]. by rewrite decide_True.
Qed.

Lemma normalize_rescaled (digits : Z) (use_scale : Qc) (verts : list vertex) :
  ¬ (grid_scale verts = Qc_of_Z 1 ∨ grid_scale verts = Qc_of_Z 0) →
  (normalize true digits use_scale verts).1 = map (rescale (grid_scale verts) digits) verts.
Proof.
  intros H. pose proof (normalize_grid digits use_scale verts) as Hn.
  cbv zeta in Hn. rewrite Hn. cbn [fst]. by rewrite decide_False.
Qed.

(** The positions among the entries that grid compression leaves. *)
Lemma normalize_unit (digits : Z) (use_scale : Qc) (verts : list vertex) (v : vertex) :
  0 ≤ digits → v ∈ (normalize true digits use_scale verts).1 → vs v ≠ -2 →
  ((- 1 ≤ vx v ∧ vx v ≤ 1) ∧ (- 1 ≤ vy v ∧ vy v ≤ 1) ∧ (- 1 ≤ vz v ∧ vz v ≤ 1))%Qc.
Proof.
  intros Hd Hv Hvs.
  pose proof (grid_scale_nonneg verts) as Hs0.
  pose proof (grid_scale_bounds verts) as Hb. cbv zeta in Hb.
  destruct (decide (grid_scale verts = Qc_of_Z 1 ∨ grid_scale verts = Qc_of_Z 0))
    as [Hcase|Hcase].
  - rewrite (normalize_unchanged digits use_scale verts Hcase) in Hv.
    apply unit_unchanged with (grid_scale verts); [|exact Hcase]. apply Hb. exact Hv.
  - rewrite (normalize_rescaled digits use_scale verts Hcase) in Hv.
    apply list_elem_of_fmap in Hv as (v0 & Hv & Hv0).
    assert (vs v0 ≠ -2) as Hvs0.
    { intros H. apply Hvs. rewrite Hv, (rescale_orientation _ digits v0 H). exact H. }
    assert (0 < grid_scale verts)%Qc as Hs.
    { apply Qclt_nge. intros Hle. apply Hcase. right.
      rewrite Z2Qc_inj_0. apply Qcle_antisym; [exact Hle|exact Hs0]. }
    rewrite Hv. apply unit_rescaled; [exact Hd|exact Hs|exact Hvs0|]. apply Hb. exact Hv0.
Qed.

Lemma normalize_scale_positive (g : bool) (digits : Z) (use_scale : Qc) (verts : list vertex) :
  (Qc_of_Z 0 < (normalize g digits use_scale verts).2)%Qc.
Proof.
  unfold normalize. destruct g.
  - cbv zeta. cbn [snd].
    destruct (decide (use_scale ≤ Qc_of_Z 0)%Qc) as [H1|H1].
    + destruct (decide (grid_scale verts ≤ Qc_of_Z 0)%Qc) as [H2|H2].
      * rewrite <- Z2Qc_inj_lt. lia.
      * by apply Qclt_nge.
    + rewrite decide_False by done. by apply Qclt_nge.
  - cbn [snd]. destruct (decide (use_scale ≤ Qc_of_Z 0)%Qc) as [H1|H1].
    + rewrite <- Z2Qc_inj_lt. lia.
    + by apply Qclt_nge.
Qed.

(** X11.  Grid compression puts every position into the unit cube: after
    it, the three coordinates of every pooled entry that is not an
    orientation are between -1 and 1, so the 8-bit and 16-bit packing of
    the binary writer accepts them; and the scale declared in the header
    is positive. *)
Theorem grid_positions_fit (c : Model.config) (use_scale : Qc) (verts : list vertex)
    (v : vertex) :
  0 ≤ Model.digits c →
  v ∈ (normalize true (Model.digits c) use_scale verts).1 → vs v ≠ -2 →
  Forall (fun x => (- 1 ≤ x ∧ x ≤ 1)%Qc
                   ∧ (Model.use_quality c = 0 ∨ Model.use_quality c = 1 →
                      ∃ b, Binary.coordinate pack_f pack_d c x = Some b
                           ∧ length b = Z.to_nat (Model.use_quality c + 1)))
    [vx v; vy v; vz v]
  ∧ (Qc_of_Z 0 < (normalize true (Model.digits c) use_scale verts).2)%Qc.
Proof.
  intros Hd Hv Hvs. split.
  - destruct (normalize_unit _ _ _ _ Hd Hv Hvs) as ([Hx1 Hx2] & [Hy1 Hy2] & [Hz1 Hz2]).
    repeat (apply Forall_cons; split;
            [split; [done|]; intros Hq; by apply coordinate_unit|]).
    by apply Forall_nil.
  - apply normalize_scale_positive.
Qed.

End UnitCube2.

Section UnitCubeExamples.
Import Num Tables Grid Samples.

Lemma grid_positions_fit_witness :
  let v := vert (Examples.q 1 1) (Examples.q 0 1) (Examples.q 0 1) (Examples.q 1 1) 0 (-1) in
  v ∈ (normalize true 4 (Examples.q 0 1) (verts large_tables)).1
  ∧ Forall (fun x => (- 1 ≤ x ∧ x ≤ 1)%Qc
                     ∧ (Model.use_quality config0 = 0 ∨ Model.use_quality config0 = 1 →
                        ∃ b, Binary.coordinate four_bytes eight_bytes config0 x = Some b
                             ∧ length b = Z.to_nat (Model.use_quality config0 + 1)))
      [vx v; vy v; vz v]
  ∧ (Qc_of_Z 0 < (normalize true 4 (Examples.q 0 1) (verts large_tables)).2)%Qc.
Proof.
  intros v.
  assert (v ∈ (normalize true (Model.digits config0) (Examples.q 0 1) (verts large_tables)).1)
    as Hv by compute_done.
  split; [exact Hv|].
  apply (grid_positions_fit four_bytes eight_bytes config0 (Examples.q 0 1)
           (verts large_tables) v); [simpl; lia|exact Hv|simpl; lia].
Defined.

End UnitCubeExamples.

(** ** The settings after the option block *)

Section PreprocessFacts.
Import Options.

(** X12.  Whatever the arguments, the settings that leave the option
    block are usable: the quality is one of the four tiers and a float
    tier when grid compression is off, a given tier 2 or 3 is kept, the
    automatic choice is tier 0 below 1024 polygons and tier 1 from there
    on, the frame rate is between 1 and 120 (25 when the given one is
    not), and the number of digits is 4 or 7. *)
Theorem preprocess_ranges (objects : list object) (a : args) :
  let s := preprocess objects a in
  0 ≤ s_use_quality s ≤ 3
  ∧ (use_gridcompress a = false → 2 ≤ s_use_quality s)
  ∧ (2 ≤ use_quality a ≤ 3 → s_use_quality s = use_quality a)
  ∧ (use_gridcompress a = true → 0 ≤ use_quality a ≤ 3 → s_use_quality s = use_quality a)
  ∧ (use_gridcompress a = true → use_quality a < 0 ∨ 3 < use_quality a →
       s_use_quality s = if count_polygons objects 0 <? 1024 then 0 else 1)
  ∧ 1 ≤ s_use_fps s ≤ 120
  ∧ (1 ≤ use_fps a ≤ 120 → s_use_fps s = use_fps a)
  ∧ (use_fps a < 1 ∨ 120 < use_fps a → s_use_fps s = 25)
  ∧ (s_digits s = Some 4 ∨ s_digits s = Some 7).
Proof.
  intros s. subst s. unfold preprocess. cbn [s_use_quality s_use_fps s_digits].
  split; [apply select_quality_range|].
  split; [intros ->; unfold select_quality; cbn [negb andb]; zcases|].
  split; [apply select_quality_fixed|].
  split; [intros -> Hq; unfold select_quality; cbn [negb andb]; zcases|].
  split; [intros -> Hq; unfold select_quality; cbn [negb andb]; zcases|].
  split; [unfold clamp_fps; zcases|].
  split; [intros Hf; unfold clamp_fps; zcases|].
  split; [intros Hf; unfold clamp_fps; zcases|].
  rewrite digits_of_quality_eq. destruct (_ =? 2); [by right|by left].
Qed.

End PreprocessFacts.

(** ** Names *)

Section NamesFacts.
Import Names.

Lemma rev_reverse {A} (l : list A) : rev l = reverse l.
Proof. induction l as [|x l IH]; [done|]. simpl. by rewrite IH, reverse_cons. Qed.

Lemma replace_Forall (P : ascii → Prop) (a : ascii) (b s : list ascii) :
  Forall P b → Forall (fun c => c ≠ a → P c) s → Forall P (replace a b s).
Proof.
  intros Hb. unfold replace. induction 1 as [|c s Hc _ IH]; simpl; [constructor|].
  destruct (Ascii.eqb_spec c a) as [->|Hne].
  - apply Forall_app. by split.
  - constructor; [by apply Hc|done].
Qed.

(** After [s.replace(a, b)] the character [a] is gone, unless [b] brings
    it back; what was absent stays absent unless [b] brings it. *)
Lemma replace_gone (a : ascii) (b s : list ascii) :
  a ∉ b → a ∉ replace a b s.
Proof.
  intros Hb Hin.
  assert (Forall (fun c => c ≠ a) (replace a b s)) as HF.
  { apply replace_Forall.
    - apply Forall_forall. intros c Hc ->. done.
    - apply Forall_forall. by intros c _ Hc. }
  rewrite Forall_forall in HF. by apply (HF a Hin).
Qed.

Lemma replace_absent (x a : ascii) (b s : list ascii) :
  x ∉ b → x ∉ s → x ∉ replace a b s.
Proof.
  intros Hb Hs Hin.
  assert (Forall (fun c => c ≠ x) (replace a b s)) as HF.
  { apply replace_Forall.
    - apply Forall_forall. intros c Hc ->. done.
    - apply Forall_forall. intros c Hc _ ->. done. }
  rewrite Forall_forall in HF. by apply (HF x Hin).
Qed.

Lemma starts_with_prefix (w s : list ascii) : starts_with w s = true ↔ w `prefix_of` s.
Proof.
  revert s. induction w as [|a w IH]; intros s.
  - split; [intros _; by exists s|done].
  - destruct s as [|b s]; cbn [starts_with].
    + split; [done|]. by intros [k Hk].
    + rewrite andb_true_iff, IH. split.
      * intros [Hab [k ->]]. apply Ascii.eqb_eq in Hab as ->. by exists k.
      * intros [k Hk]. simpl in Hk. injection Hk as -> ->.
        split; [apply Ascii.eqb_refl|by exists k].
Qed.

Lemma lstrip_by_suffix (ws : list (list ascii)) (fuel : nat) (s : list ascii) :
  lstrip_by ws fuel s `suffix_of` s.
Proof.
  revert s. induction fuel as [|fuel IH]; intros s; cbn [lstrip_by]; [done|].
  destruct (find _ ws) as [w|]; [|done].
  trans (drop (length w) s); [apply IH|apply suffix_drop].
Qed.

(** With enough fuel, none of the words is left at the front. *)
Lemma lstrip_by_done (ws : list (list ascii)) (fuel : nat) (s w : list ascii) :
  Forall (fun w => w ≠ []) ws → (length s ≤ fuel)%nat → w ∈ ws →
  ¬ w `prefix_of` lstrip_by ws fuel s.
Proof.
  intros Hne. revert s. induction fuel as [|fuel IH]; intros s Hlen Hw; cbn [lstrip_by].
  - destruct s; [|simpl in Hlen; lia]. intros [k Hk].
    apply (proj1 (Forall_forall _ _) Hne) in Hw. by destruct w.
  - destruct (find _ ws) as [v|] eqn:Hf.
    + apply find_some in Hf as [Hv Hp]. apply list_elem_of_In in Hv.
      apply (proj1 (Forall_forall _ _) Hne) in Hv.
      apply starts_with_prefix in Hp as [k ->].
      apply IH; [|done]. rewrite length_drop, length_app in *.
      destruct v; [done|]. simpl in *. lia.
    + intros Hp. apply starts_with_prefix in Hp.
      apply list_elem_of_In in Hw. by rewrite (find_none _ _ Hf w Hw) in Hp.
Qed.

Lemma spaces_nonempty : Forall (fun w => w ≠ []) spaces.
Proof. apply Forall_forall. intros w Hw ->. revert Hw. by compute_done. Qed.

Lemma strip_subset (x : ascii) (s : list ascii) : x ∉ s → x ∉ strip s.
Proof.
  intros Hs Hin. apply Hs. unfold strip, rstrip, lstrip in Hin.
  rewrite rev_reverse in Hin. apply (proj1 (elem_of_reverse _ _)) in Hin.
  destruct (lstrip_by_suffix (map (@rev ascii) spaces) (length (lstrip_by spaces (length s) s))
              (rev (lstrip_by spaces (length s) s))) as [k1 H1].
  assert (x ∈ rev (lstrip_by spaces (length s) s)) as Hin2.
  { rewrite H1. apply elem_of_app. by right. }
  rewrite rev_reverse in Hin2. apply (proj1 (elem_of_reverse _ _)) in Hin2.
  destruct (lstrip_by_suffix spaces (length s) s) as [k2 H2].
  rewrite H2. apply elem_of_app. by right.
Qed.

(** [strip] leaves no white space at either end. *)
Lemma strip_ends (s w : list ascii) :
  w ∈ spaces → ¬ w `prefix_of` strip s ∧ ¬ w `suffix_of` strip s.
Proof.
  intros Hw. unfold strip, rstrip. set (t := lstrip s).
  destruct (lstrip_by_suffix (map (@rev ascii) spaces) (length t) (rev t)) as [k Hk].
  split.
  - intros Hp. apply (lstrip_by_done spaces (length s) s w spaces_nonempty); [done|done|].
    fold (lstrip s). fold t. trans (rev (lstrip_by (map (@rev ascii) spaces) (length t) (rev t)));
      [done|].
    exists (rev k). rewrite <- rev_app_distr, <- Hk. by rewrite rev_involutive.
  - intros [k' Hs]. apply (f_equal (@rev ascii)) in Hs.
    rewrite rev_involutive, rev_app_distr in Hs.
    apply (lstrip_by_done (map (@rev ascii) spaces) (length t) (rev t) (rev w)).
    + apply Forall_forall. intros v Hv Hnil.
      apply list_elem_of_In, in_map_iff in Hv as (u & <- & Hu).
      apply list_elem_of_In in Hu. apply (proj1 (Forall_forall _ _) spaces_nonempty) in Hu.
      apply Hu. by rewrite <- (rev_involutive u), Hnil.
    + by rewrite length_rev.
    + apply list_elem_of_In, in_map. by apply list_elem_of_In.
    + rewrite Hs. by exists (rev k').
Qed.

(** X13.  [safestr]: [None] gives the empty string.  Whatever the mode,
    the result neither starts nor ends with a white space character, of
    those that [str.isspace] accepts.  An identifier (mode 0, and any mode
    other than 1, 2 and 3) holds no slash, no backslash, no carriage
    return and no line feed; a header line (mode 2) holds no carriage
    return and no line feed; mode 3 drops the carriage returns only. *)
Theorem safestr_clean (name : string) (morelines : Z) :
  let s := list_ascii_of_string (safestr (Some name) morelines) in
  safestr None morelines = EmptyString
  ∧ (∀ w, w ∈ spaces → ¬ w `prefix_of` s ∧ ¬ w `suffix_of` s)
  ∧ (morelines < 1 ∨ 3 < morelines →
       ("/"%char ∉ s) ∧ ("\"%char ∉ s) ∧ (CR ∉ s) ∧ (LF ∉ s))
  ∧ (morelines = 2 → (CR ∉ s) ∧ (LF ∉ s))
  ∧ (morelines = 3 → CR ∉ s).
Proof.
  intros s. subst s. unfold safestr.
  rewrite list_ascii_of_string_of_list_ascii.
  split; [done|]. split.
  - intros w. destruct (morelines =? 3); [apply strip_ends|].
    destruct (morelines =? 2); [apply strip_ends|].
    destruct (morelines =? 1); apply strip_ends.
  - split; [|split].
    + intros Hm. destruct (Z.eqb_spec morelines 3); [lia|].
      destruct (Z.eqb_spec morelines 2); [lia|]. destruct (Z.eqb_spec morelines 1); [lia|].
      set (base := list_ascii_of_string name).
      split_and!; apply strip_subset.
      * apply replace_absent; [by compute_done|]. apply replace_absent; [by compute_done|].
        apply replace_absent; [by compute_done|]. apply replace_gone. compute_done.
      * apply replace_absent; [by compute_done|]. apply replace_absent; [by compute_done|].
        apply replace_gone. compute_done.
      * apply replace_absent; [by compute_done|]. apply replace_gone. compute_done.
      * apply replace_gone. compute_done.
    + intros ->. cbn [Z.eqb Pos.eqb]. split; apply strip_subset.
      * apply replace_absent; [by compute_done|]. apply replace_gone. compute_done.
      * apply replace_gone. compute_done.
    + intros ->. cbn [Z.eqb Pos.eqb]. apply strip_subset. apply replace_gone. compute_done.
Qed.

End NamesFacts.

Section NamesExamples.
Import Names.

(** A no-break space (U+00A0) before a name and an em space (U+2003)
    after it are white space to [strip], as a blank is. *)
Lemma safestr_unicode_space :
  safestr (Some (string_of_list_ascii (map chr [194; 160; 97; 32; 98; 226; 128; 131]%nat))) 0
  = "a_b"%string.
Proof. vm_compute. reflexivity. Qed.

End NamesExamples.

(** ** Texture coordinates in the two writers *)

Section UvFacts.
Import Num Tables Model.

Variable pack_f : Qc -> list byte.
Variable pack_d : Qc -> list byte.
Variable str_float : Qc -> string.
Variable fmt_02x : Z -> string.
Variable gzip_compress : list byte -> list byte.
Variable logname : string.

(** Order facts of [Qc], by linear arithmetic over [Q]. *)
Ltac qc_order :=
  unfold Qclt, Qcle in *;
  repeat match goal with
    | H : ¬ (_ < _)%Q |- _ => apply Qnot_lt_le in H
    | H : ¬ (_ <= _)%Q |- _ => apply Qnot_le_lt in H
    end;
  change (this (Qc_of_Z 0)) with 0%Q in *; change (this (Qc_of_Z 1)) with 1%Q in *;
  lra.

Lemma clamp01_range (x : Qc) :
  (Qc_of_Z 0 ≤ Binary.clamp01 x ∧ Binary.clamp01 x ≤ Qc_of_Z 1)%Qc
  ∧ ((Qc_of_Z 0 ≤ x ∧ x ≤ Qc_of_Z 1)%Qc → Binary.clamp01 x = x).
Proof.
  unfold Binary.clamp01, Qc_max.
  destruct (decide (Qc_of_Z 1 < x)%Qc) as [H1|H1];
    [destruct (decide (Qc_of_Z 1 < Qc_of_Z 0)%Qc) as [H2|H2]
    |destruct (decide (x < Qc_of_Z 0)%Qc) as [H2|H2]].
  all: split; [split|intros [Ha Hb]]; try reflexivity; try qc_order.
  all: exfalso; qc_order.
Qed.

Lemma clamp_in_place_clamp01 (e : uv) :
  Ascii.clamp_in_place e = {| tu := Binary.clamp01 (tu e); tv := Binary.clamp01 (tv e) |}.
Proof.
  destruct e as [u v]. unfold Ascii.clamp_in_place, Binary.clamp01, Qc_max. cbv zeta.
  cbn [tu tv].
  repeat (case_decide; cbn [tu tv] in * ); try reflexivity; exfalso; qc_order.
Qed.

(** X14.  Both writers clamp a UV pair to the unit square in the same
    way: the four assignments of the text writer give the
    [max(min(x, 1), 0)] of the binary writer on each coordinate, so the
    pair that the binary writer packs is the one the text writer stores;
    the result is inside the unit square and a pair that was inside is
    unchanged.  After the text writer has run without
    [allow_unnormalized_uvs], every pair of the table is inside the unit
    square. *)
Theorem uv_clamp_agrees (c : config) (m : content) (t t' : tables) (out : Ascii.output)
    (e : uv) :
  let inside (e : uv) :=
    (Qc_of_Z 0 ≤ tu e ∧ tu e ≤ Qc_of_Z 1 ∧ Qc_of_Z 0 ≤ tv e ∧ tv e ≤ Qc_of_Z 1)%Qc in
  Ascii.clamp_in_place e = {| tu := Binary.clamp01 (tu e); tv := Binary.clamp01 (tv e) |}
  ∧ inside (Ascii.clamp_in_place e)
  ∧ (inside e → Ascii.clamp_in_place e = e)
  ∧ (allow_unnormalized_uvs c = false →
     Binary.tmap_entry pack_f pack_d c e
     = Binary.tmap_entry pack_f pack_d c (Ascii.clamp_in_place e))
  ∧ (allow_unnormalized_uvs c = false →
     Ascii.write_ascii str_float fmt_02x gzip_compress logname c m t = Some (out, t') →
     Forall inside (tmaps t')).
Proof.
  intros inside.
  assert (∀ e, inside (Ascii.clamp_in_place e)) as Hin.
  { intros e0. rewrite clamp_in_place_clamp01. unfold inside. cbn [tu tv].
    destruct (clamp01_range (tu e0)) as [[? ?] _], (clamp01_range (tv e0)) as [[? ?] _].
    done. }
  assert (∀ e, inside e → Ascii.clamp_in_place e = e) as Hid.
  { intros e0 (? & ? & ? & ?). rewrite clamp_in_place_clamp01. destruct e0 as [u v].
    cbn [tu tv] in *.
    by rewrite (proj2 (clamp01_range u)), (proj2 (clamp01_range v)). }
  split; [apply clamp_in_place_clamp01|]. split; [apply Hin|]. split; [apply Hid|].
  split.
  - intros Ha. unfold Binary.tmap_entry. rewrite Ha. cbn [negb]. rewrite !andb_true_r.
    destruct (Binary.out_of_range e) eqn:Ho.
    + assert (Binary.out_of_range (Ascii.clamp_in_place e) = false) as ->.
      { destruct (Hin e) as (? & ? & ? & ?). unfold Binary.out_of_range.
        rewrite !bool_decide_eq_false_2; [done|by apply Qcle_ngt..]. }
      by rewrite clamp_in_place_clamp01.
    + by rewrite (clamp_in_place_id e Ho), Ho.
  - intros Ha H. apply write_ascii_tables in H. subst t'. cbn [tmaps].
    apply Forall_fmap, Forall_forall. intros e0 _. simpl.
    rewrite fixed_eq, Ha. apply Hin.
Qed.

End UvFacts.

(** ** The times and sizes of the recorded frames *)

Section CountFacts.
Import Num Tables Anim Timeline.

Variable nearest : Qc -> option Qc.
Variable hash_vertex : vertex -> Z.
Variable hash_string : string -> Z.
Variable digits : Z.
Variable bones : dict string bone.
Variable pose : act -> Z -> list (list pose_bone).
Variable animated : list bool.

Local Abbreviation msec := (msec nearest).
Local Abbreviation sample_frame := (sample_frame nearest hash_vertex digits bones pose).
Local Abbreviation record_frames := (record_frames nearest hash_vertex digits bones pose).
Local Abbreviation export_action :=
  (export_action nearest hash_vertex hash_string digits bones pose animated).
Local Abbreviation export_actions :=
  (export_actions nearest hash_vertex hash_string digits bones pose animated).

(** One sampled frame either records nothing or appends one frame. *)
Lemma sample_frame_step (a : act) (mpf : Qc) (r r' : run) (f : Z) :
  sample_frame a mpf (Some r) f = Some r' →
  (r_frames r' = r_frames r ∧ r_origin r' = r_origin r ∧ r_lf r' = r_lf r
   ∧ r_fi_m r' = r_fi_m r)
  ∨ ∃ changed t,
      changed ≠ []
      ∧ r_origin r' = (if decide (r_frames r = []) then f else r_origin r)
      ∧ msec mpf (f - r_origin r') = Some t
      ∧ r_frames r' = r_frames r ++ [{| fr_time := t; fr_changed := changed |}]
      ∧ r_lf r' = f
      ∧ r_fi_m r' = Z.max (r_fi_m r) (py_len changed).
Proof.
  unfold Anim.sample_frame. cbn [mbind option_bind].
  destruct (walk_armatures _ _ _ _ _) as [s|]; [|done]. cbn [mbind option_bind]. cbv zeta.
  destruct (Z.ltb_spec 0 (py_len (w_changed s))) as [Hc|Hc]; [|intros [= <-]; left; done].
  assert ((if py_len (r_frames r) <? 1 then f else r_origin r)
          = if decide (r_frames r = []) then f else r_origin r) as ->.
  { unfold py_len. destruct (r_frames r); [done|]. simpl length.
    rewrite decide_False by done. by destruct (Z.ltb_spec (Z.of_nat (S (length l))) 1); [lia|]. }
  destruct (Anim.msec nearest mpf _) as [t|] eqn:Ht; [|done]. cbn [mbind option_bind].
  intros [= <-]. right. exists (w_changed s), t. cbn [r_origin r_frames r_lf r_fi_m].
  split_and!; [by destruct (w_changed s)|done|done|done|done|].
  destruct (Z.ltb_spec (r_fi_m r) (py_len (w_changed s))); lia.
Qed.

Lemma sample_frames_None (a : act) (mpf : Qc) (fs : list Z) :
  fold_left (sample_frame a mpf) fs None = None.
Proof. by induction fs. Qed.

Lemma export_action_None (mpf : Qc) (acts : list act) :
  fold_left (export_action mpf) acts None = None.
Proof. by induction acts. Qed.

Lemma counted_step (a : act) (mpf : Qc) (r r' : run) (f : Z) :
  Forall (fun f => 0 < py_len (fr_changed f) ≤ r_fi_m r) (r_frames r) →
  sample_frame a mpf (Some r) f = Some r' →
  r_fi_m r ≤ r_fi_m r'
  ∧ Forall (fun f => 0 < py_len (fr_changed f) ≤ r_fi_m r') (r_frames r').
Proof.
  intros Hr H.
  apply sample_frame_step in H as [(E1 & _ & _ & E4)|(ch & t & Hch & _ & _ & Efr & _ & Efi)].
  - rewrite E1, E4. split; [lia|done].
  - rewrite Efr, Efi. split; [lia|]. apply Forall_app. split.
    + eapply Forall_impl; [exact Hr|]. simpl. intros; lia.
    + apply Forall_singleton. cbn [fr_changed]. unfold py_len. destruct ch; [done|]. simpl. lia.
Qed.

Lemma counted_loop (a : act) (mpf : Qc) (fs : list Z) (r r' : run) :
  Forall (fun f => 0 < py_len (fr_changed f) ≤ r_fi_m r) (r_frames r) →
  fold_left (sample_frame a mpf) fs (Some r) = Some r' →
  r_fi_m r ≤ r_fi_m r'
  ∧ Forall (fun f => 0 < py_len (fr_changed f) ≤ r_fi_m r') (r_frames r').
Proof.
  revert r. induction fs as [|f fs IH]; intros r Hr H.
  - simpl in H. simplify_eq. split; [lia|done].
  - cbn [fold_left] in H.
    destruct (sample_frame a mpf (Some r) f) as [r1|] eqn:E;
      [|by rewrite sample_frames_None in H].
    destruct (counted_step a mpf r r1 f Hr E) as [H1 H2].
    destruct (IH r1 H2 H) as [H3 H4]. split; [lia|done].
Qed.

Lemma export_action_counted (mpf : Qc) (st st' : state) (a : act) :
  Forall (counted (fi_m st)) (actions st) →
  export_action mpf (Some st) a = Some st' →
  fi_m st ≤ fi_m st' ∧ Forall (counted (fi_m st')) (actions st').
Proof.
  intros Hst H. unfold Anim.export_action in H. cbn [mbind option_bind] in H.
  destruct (set_action_pose animated a); [|done]. cbn [mbind option_bind] in H.
  destruct (record_frames a mpf st) as [r|] eqn:Hr; [|done]. cbn [mbind option_bind] in H.
  unfold Anim.record_frames in Hr. apply counted_loop in Hr as [Hm Hfr]; [|by constructor].
  cbn [r_fi_m] in Hm.
  assert (Forall (counted (r_fi_m r)) (actions st)) as Hold.
  { eapply Forall_impl; [exact Hst|]. intros x Hx. unfold counted in *.
    eapply Forall_impl; [exact Hx|]. simpl. intros; lia. }
  destruct (0 <? py_len (r_frames r)).
  - destruct (uniquedict _ _ _) as [n ss].
    destruct (Anim.msec nearest mpf _) as [duration|]; [|done]. cbn [mbind option_bind] in H.
    simplify_eq. cbn [actions fi_m].
    split; [done|]. apply Forall_app. split; [done|]. by apply Forall_singleton.
  - simplify_eq. cbn [actions fi_m]. done.
Qed.

(** X16.  The running maximum [fi_m] never decreases and bounds the
    number of bones changed in every frame of every exported action, and
    no frame is empty; so the count of a frame always fits the index
    field whose width the header derives from [fi_m], and is written as
    its own value. *)
Theorem frame_counts_fit (ua us : bool) (use_fps : Z) (acts : list act) (st st' : state) :
  Forall (counted (fi_m st)) (actions st) →
  export_actions ua us use_fps acts st = Some st' →
  fi_m st ≤ fi_m st'
  ∧ Forall (counted (fi_m st')) (actions st')
  ∧ (fi_m st' < 4294967295 →
     Forall (fun a => Forall (fun f =>
         let n := py_len (fr_changed f) in
         let w := Index.idxsize (fi_m st') in
         Index.addidx w n = Some (Index.le_bytes (Index.idx_bytes w) n)
         ∧ Index.le_value (Index.le_bytes (Index.idx_bytes w) n) = n) (a_frames a))
       (actions st')).
Proof.
  intros Hst H.
  assert (fi_m st ≤ fi_m st' ∧ Forall (counted (fi_m st')) (actions st')) as [Hm Hc].
  { unfold Anim.export_actions in H.
    destruct ua; [|by simplify_eq].
    destruct (us && (0 <? py_len bones)); [|by simplify_eq].
    destruct (per_frame nearest use_fps) as [mpf|]; [|done]. cbn [mbind option_bind] in H.
    revert st Hst H. induction acts as [|a acts IH]; intros st Hst H.
    - simpl in H. simplify_eq. split; [lia|done].
    - cbn [fold_left] in H.
      destruct (export_action mpf (Some st) a) as [st1|] eqn:E;
        [|by rewrite export_action_None in H].
      destruct (export_action_counted mpf st st1 a Hst E) as [H1 H2].
      destruct (IH st1 H2 H) as [H3 H4]. split; [lia|done]. }
  split; [done|]. split; [done|].
  intros Hbig. eapply Forall_impl; [exact Hc|]. intros a Ha. unfold counted in Ha.
  eapply Forall_impl; [exact Ha|]. intros f Hf. cbv beta zeta in Hf |- *.
  set (n := py_len (fr_changed f)) in *. clearbody n.
  set (b := fi_m st') in *. clearbody b.
  assert (0 ≤ Index.idxsize b ≤ 2 ∧ n < 256 ^ Z.of_nat (Index.idx_bytes (Index.idxsize b)))
    as [Hw Hr].
  { unfold Index.idxsize, Index.idx_bytes. zcases. }
  split.
  - apply addidx_in_range; [done|lia].
  - apply le_value_le_bytes. lia.
Qed.

End CountFacts.

Section TimedFacts.
Import Num Tables Anim Timeline.

Variable nearest : Qc -> option Qc.
Variable hash_vertex : vertex -> Z.
Variable hash_string : string -> Z.
Variable digits : Z.
Variable bones : dict string bone.
Variable pose : act -> Z -> list (list pose_bone).
Variable animated : list bool.

Local Abbreviation msec := (msec nearest).
Local Abbreviation sample_frame := (sample_frame nearest hash_vertex digits bones pose).
Local Abbreviation record_frames := (record_frames nearest hash_vertex digits bones pose).
Local Abbreviation export_action :=
  (export_action nearest hash_vertex hash_string digits bones pose animated).
Local Abbreviation timed := (timed nearest).

(** The arithmetic keeps the times of the samples of an action apart:
    the time of the origin is 0, and of two samples up to [bound] frames
    after the origin the later one has the larger time. *)
Variable mpf : Qc.
Variable bound : Z.
Hypothesis msec_origin : ∀ t, msec mpf 0 = Some t → t = 0.
Hypothesis msec_step : ∀ k1 k2 t1 t2,
  0 ≤ k1 < k2 → k2 ≤ bound → msec mpf k1 = Some t1 → msec mpf k2 = Some t2 → t1 < t2.

Lemma sorted_snoc (l : list Z) (tl t : Z) :
  StronglySorted Z.lt l → last l = Some tl → tl < t → StronglySorted Z.lt (l ++ [t]).
Proof.
  intros Hs Hl Ht. induction Hs as [|x l Hs IH Hx]; [done|].
  simpl. destruct l as [|y l].
  - simpl in Hl. injection Hl as ->. repeat constructor. done.
  - constructor.
    + apply IH. by rewrite last_cons_cons in Hl.
    + apply Forall_app. split; [done|]. constructor; [|constructor].
      assert (tl ∈ y :: l) as Hin.
      { rewrite last_cons_cons in Hl. apply last_Some in Hl as [l' ->].
        apply elem_of_app. right. apply list_elem_of_here. }
      rewrite Forall_forall in Hx. specialize (Hx tl Hin). lia.
Qed.

Lemma timed_step (a : act) (lo hi : Z) (r r' : run) (f : Z) :
  hi - lo + 1 ≤ bound → lo ≤ f ≤ hi →
  timed mpf lo r → (r_frames r ≠ [] → r_lf r < f) →
  sample_frame a mpf (Some r) f = Some r' →
  timed mpf lo r' ∧ (r_frames r' ≠ [] → r_lf r' ≤ f).
Proof.
  intros Hb Hlo (Hs & Hh & Hl) Hf H.
  apply sample_frame_step in H
    as [(E1 & E2 & E3 & E4)|(ch & t & Hch & Eo & Et & Efr & Elf & _)].
  - unfold Timeline.timed. rewrite E1, E2, E3. split; [done|]. intros Hne.
    specialize (Hf Hne). lia.
  - split; [|intros _; lia]. unfold Timeline.timed.
    rewrite Efr, Elf, fmap_app. cbn [fmap list_fmap fr_time].
    destruct (decide (r_frames r = [])) as [Hnil|Hne].
    + rewrite Hnil, Eo in *. cbn [fmap list_fmap app head]. rewrite Z.sub_diag in *.
      apply msec_origin in Et as Et0. subst t.
      split_and!; [repeat constructor|by intros f0 [= <-]|].
      intros _. split; [lia|]. by exists 0.
    + destruct (Hl Hne) as [Ho (tl & Hlast & Htl)]. specialize (Hf Hne). rewrite Eo in *.
      assert (tl < t) as Hlt.
      { apply (msec_step (r_lf r - r_origin r) (f - r_origin r)); [lia|lia|done|done]. }
      split_and!.
      * eapply sorted_snoc; [done|exact Hlast|done].
      * intros f0 Hf0. apply Hh. destruct (r_frames r); [done|]. done.
      * intros _. split; [lia|]. exists t. by rewrite last_snoc.
Qed.

Lemma timed_loop (a : act) (lo hi : Z) (fs : list Z) (r r' : run) :
  hi - lo + 1 ≤ bound → Forall (fun f => lo ≤ f ≤ hi) fs →
  timed mpf lo r → StronglySorted Z.lt fs →
  (r_frames r ≠ [] → Forall (fun f => r_lf r < f) fs) →
  fold_left (sample_frame a mpf) fs (Some r) = Some r' → timed mpf lo r'.
Proof.
  intros Hb. revert r. induction fs as [|f fs IH]; intros r Hr Ht Hs Hlo H.
  - simpl in H. by simplify_eq.
  - cbn [fold_left] in H.
    destruct (sample_frame a mpf (Some r) f) as [r1|] eqn:E;
      [|by rewrite sample_frames_None in H].
    apply StronglySorted_inv in Hs as [Hs Hall].
    apply Forall_cons in Hr as [Hf Hr].
    destruct (timed_step a lo hi r r1 f Hb Hf Ht) as [Ht1 Hlf1]; [|done|].
    { intros Hne. specialize (Hlo Hne). by apply Forall_inv in Hlo. }
    apply (IH r1); [done|done|done| |done].
    intros Hne. specialize (Hlf1 Hne). eapply Forall_impl; [exact Hall|].
    intros x Hx. exact (Z.le_lt_trans _ _ _ Hlf1 Hx).
Qed.

(** The frames of one action. *)
Lemma record_frames_timed (a : act) (st : state) (r : run) :
  act_end a - act_start a + 1 ≤ bound →
  record_frames a mpf st = Some r → timed mpf (act_start a) r ∧ (r_frames r ≠ [] → r_lf r ≤ act_end a).
Proof.
  intros Hb H. unfold Anim.record_frames in H.
  assert (Forall (fun f => act_start a ≤ f ≤ act_end a)
            (seqZ (act_start a) (act_end a + 1 - act_start a))) as Hr.
  { apply Forall_seqZ. intros; lia. }
  revert H Hr. generalize (seqZ_sorted (act_start a) (act_end a + 1 - act_start a)).
  generalize (seqZ (act_start a) (act_end a + 1 - act_start a)). intros fs Hs H Hr.
  assert (∀ fs r0, Forall (fun f => act_start a ≤ f ≤ act_end a) fs → StronglySorted Z.lt fs →
            (r_frames r0 ≠ [] → r_lf r0 ≤ act_end a) →
            fold_left (sample_frame a mpf) fs (Some r0) = Some r →
            r_frames r ≠ [] → r_lf r ≤ act_end a) as Hend.
  { clear. intros fs. induction fs as [|f fs IH]; intros r0 Hr Hs H0 H Hne.
    - simpl in H. simplify_eq. by apply H0.
    - cbn [fold_left] in H.
      destruct (sample_frame a mpf (Some r0) f) as [r1|] eqn:E;
        [|by rewrite sample_frames_None in H].
      apply Forall_cons in Hr as [Hf Hr]. apply StronglySorted_inv in Hs as [Hs _].
      apply (IH r1); [done|done| |done|done].
      apply sample_frame_step in E as [(E1 & _ & E3 & _)|(ch & t & _ & _ & _ & _ & Elf & _)].
      + rewrite E1, E3. exact H0.
      + intros _. lia. }
  split.
  - eapply (timed_loop a (act_start a) (act_end a)); [lia|exact Hr| |exact Hs| |exact H].
    + unfold Timeline.timed. cbn [r_frames]. split_and!; [constructor|done|done].
    + by cbn [r_frames].
  - eapply Hend; [exact Hr|exact Hs| |exact H]. by cbn [r_frames].
Qed.

Lemma export_action_timed (st st' : state) (a : act) :
  act_end a - act_start a + 1 ≤ bound →
  Forall well_timed (actions st) →
  export_action mpf (Some st) a = Some st' → Forall well_timed (actions st').
Proof.
  intros Hb Hst H. unfold Anim.export_action in H. cbn [mbind option_bind] in H.
  destruct (set_action_pose animated a); [|done]. cbn [mbind option_bind] in H.
  destruct (record_frames a mpf st) as [r|] eqn:Hr; [|done]. cbn [mbind option_bind] in H.
  apply record_frames_timed in Hr as [(Hs & Hh & Hl) Hend]; [|done].
  destruct (Z.ltb_spec 0 (py_len (r_frames r))) as [Hlen|Hlen].
  - destruct (uniquedict _ _ _) as [n ss].
    destruct (Anim.msec nearest mpf (r_lf r - r_origin r + 1)) as [duration|] eqn:Hd; [|done].
    cbn [mbind option_bind] in H. simplify_eq. cbn [actions].
    apply Forall_app. split; [done|]. apply Forall_singleton.
    assert (r_frames r ≠ []) as Hne by (intros E; rewrite E in Hlen; unfold py_len in Hlen; simpl in Hlen; lia).
    destruct (Hl Hne) as [Ho (tl & Hlast & Htl)]. specialize (Hend Hne).
    unfold well_timed. cbn [a_frames a_duration]. split_and!; [done|done|done|].
    assert (tl < duration) as Hlt.
    { apply (msec_step (r_lf r - r_origin r) (r_lf r - r_origin r + 1)); [lia|lia|done|done]. }
    apply Forall_forall. intros f Hf.
    assert (fr_time f ≤ tl); [|lia].
    apply (list_elem_of_fmap_2 fr_time) in Hf.
    apply last_Some in Hlast as [l' Hl'].
    rewrite Hl' in Hs, Hf. apply elem_of_app in Hf as [Hf|Hf].
    + assert (Forall (fun x => x < tl) l') as Hall.
      { clear -Hs. induction l' as [|x l' IH]; [constructor|].
        simpl in Hs. apply StronglySorted_inv in Hs as [Hs Hx]. constructor.
        - rewrite Forall_app in Hx. destruct Hx as [_ Hx]. by apply Forall_inv in Hx.
        - by apply IH. }
      rewrite Forall_forall in Hall. specialize (Hall _ Hf). lia.
    + apply list_elem_of_singleton in Hf. lia.
  - by simplify_eq.
Qed.

End TimedFacts.

Section TimelineFacts.
Import Num Tables Anim Timeline.

Variable hash_vertex : vertex -> Z.
Variable hash_string : string -> Z.
Variable digits : Z.
Variable bones : dict string bone.
Variable pose : act -> Z -> list (list pose_bone).
Variable animated : list bool.

(** The times in the arithmetic of the reals. *)
Local Abbreviation export_action :=
  (export_action Floats.exact hash_vertex hash_string digits bones pose animated).
Local Abbreviation export_actions :=
  (export_actions Floats.exact hash_vertex hash_string digits bones pose animated).


Lemma py_int_of_Z (n : Z) : py_int (Qc_of_Z n) = n.
Proof.
  unfold py_int. case_decide.
  - change (this (Qc_of_Z n)) with (inject_Z n). apply Qfloor_Z.
  - change (this (Qc_of_Z n)) with (inject_Z n). apply Qceiling_Z.
Qed.

Lemma Qfloor_step (x y : Q) : (x + 1 <= y)%Q → Qfloor x < Qfloor y.
Proof.
  intros H. pose proof (Qfloor_le x) as H1. pose proof (Qlt_floor y) as H2.
  rewrite inject_Z_plus in H2. change (inject_Z 1) with 1%Q in H2.
  rewrite Zlt_Qlt. lra.
Qed.





End TimelineFacts.

(** ** The double precision arithmetic of the frame times *)

Section FloatFacts.
Import Num Floats.

Lemma pow2_this (e : Z) : (this (pow2 e) == 2 ^ e)%Q.
Proof. apply Qred_correct. Qed.

Lemma Qpow2_pos (e : Z) : (0 < 2 ^ e)%Q.
Proof. by apply Qpower_0_lt. Qed.

Lemma Qpow2_add (a b : Z) : (2 ^ (a + b) == 2 ^ a * 2 ^ b)%Q.
Proof. by apply Qpower_plus. Qed.

Lemma Qpow2_mono (a b : Z) : a ≤ b → (2 ^ a <= 2 ^ b)%Q.
Proof. intros H. apply Qpower_le_compat_l; [done|]. by compute. Qed.

(** The power of two that [ilog2] names is at or below the number. *)
Lemma ilog2_le (x : Qc) : (0 < x)%Qc → (2 ^ ilog2 x <= this x)%Q.
Proof.
  intros Hx. unfold ilog2.
  assert (Qc_abs x = x) as Ha.
  { unfold Qc_abs. rewrite decide_False; [done|]. by apply Qcle_not_lt, Qclt_le_weak. }
  rewrite Ha.
  set (p := Qnum (this x)). set (q := Qden (this x)).
  assert (0 < p) as Hp.
  { unfold Qclt, Qlt in Hx. simpl in Hx. subst p. lia. }
  rewrite (Z.abs_eq p) by lia.
  set (lp := Z.log2 p). set (lq := Z.log2 (Z.pos q)).
  case_decide as Hd.
  - assert (0 ≤ lp) as Hlp by apply Z.log2_nonneg.
    assert (0 ≤ lq) as Hlq by apply Z.log2_nonneg.
    pose proof (Z.log2_spec p Hp) as [Hp1 _]. fold lp in Hp1.
    pose proof (Z.log2_spec (Z.pos q) ltac:(lia)) as [_ Hq2]. fold lq in Hq2.
    replace (lp - lq - 1) with (lp - (lq + 1)) by lia.
    rewrite Qpower_minus by done.
    rewrite <- !(Zpower_Qpower 2) by lia.
    assert (this x == inject_Z p / inject_Z (Z.pos q))%Q as ->.
    { destruct (this x) as [n d] eqn:E. subst p q. simpl. apply Qmake_Qdiv. }
    assert (0 < inject_Z (Z.pos q))%Q as Hq0 by (change 0%Q with (inject_Z 0); rewrite <- Zlt_Qlt; lia).
    assert (0 < inject_Z (2 ^ (lq + 1)))%Q as Hb0.
    { change 0%Q with (inject_Z 0). rewrite <- Zlt_Qlt. apply Z.pow_pos_nonneg; lia. }
    apply Qle_shift_div_l; [done|].
    assert (inject_Z (2 ^ lp) / inject_Z (2 ^ (lq + 1)) * inject_Z (Z.pos q)
            == inject_Z (2 ^ lp) * inject_Z (Z.pos q) / inject_Z (2 ^ (lq + 1)))%Q as ->.
    { field. intros E. rewrite E in Hb0. by apply Qlt_irrefl in Hb0. }
    apply Qle_shift_div_r; [done|].
    rewrite <- !inject_Z_mult, <- Zle_Qle.
    trans (p * Z.pos q); [apply Z.mul_le_mono_nonneg_r; lia|apply Z.mul_le_mono_nonneg_l; lia].
  - apply Qcnot_lt_le in Hd. unfold Qcle in Hd. by rewrite pow2_this in Hd.
Qed.

Lemma this_mult (x y : Qc) : (this (x * y)%Qc == this x * this y)%Q.
Proof. apply Qred_correct. Qed.

Lemma this_div (x y : Qc) : (this (x / y)%Qc == this x / this y)%Q.
Proof. unfold Qcdiv, Qcmult, Qcinv. simpl. rewrite !Qred_correct. reflexivity. Qed.

(** A positive number and its double: the double is off by at most a
    part in [2 ** 53] of the number, and [2 ** -1075]. *)
Lemma binary64_error (x y : Qc) :
  (0 < x)%Qc → binary64 x = Some y →
  (this x - (this x * 2 ^ (-53) + 2 ^ (-1075)) <= this y)%Q
  ∧ (this y <= this x + (this x * 2 ^ (-53) + 2 ^ (-1075)))%Q.
Proof.
  intros Hx H. unfold binary64 in H.
  rewrite decide_False in H; cycle 1.
  { intros E. rewrite E, Z2Qc_inj_0 in Hx. by apply Qclt_not_eq in Hx. }
  cbv zeta in H.
  set (e := Z.max (ilog2 x - 52) (-1074)) in *.
  set (r := py_round (x / pow2 e)) in *.
  case_decide as Hov; [|done]. injection H as <-. clear Hov.
  pose proof (py_round_bounds (x / pow2 e)) as [Hlo Hhi]. fold r in Hlo, Hhi.
  unfold Qcle in Hlo, Hhi. rewrite this_mult, this_div, pow2_this in Hlo, Hhi.
  change (this (Qc_of_Z 2)) with 2%Q in *.
  change (this (Qc_of_Z (2 * r - 1))) with (inject_Z (2 * r - 1)) in Hlo.
  change (this (Qc_of_Z (2 * r + 1))) with (inject_Z (2 * r + 1)) in Hhi.
  rewrite this_mult, pow2_this. change (this (Qc_of_Z r)) with (inject_Z r).
  pose proof (Qpow2_pos e) as He.
  assert (2 ^ e <= this x * 2 ^ (-52) + 2 ^ (-1074))%Q as Hpe.
  { pose proof (ilog2_le x Hx) as Hl.
    pose proof (Qpow2_pos (-52)) as H52. pose proof (Qpow2_pos (-1074)) as H74.
    assert (0 < this x)%Q as Hx' by exact Hx.
    destruct (Z.max_spec (ilog2 x - 52) (-1074)) as [[_ E]|[_ E]]; fold e in E; rewrite E.
    - assert (0 <= this x * 2 ^ (-52))%Q by (apply Qmult_le_0_compat; lra). lra.
    - replace (ilog2 x - 52) with (ilog2 x + -52) by lia. rewrite Qpow2_add.
      assert (2 ^ ilog2 x * 2 ^ (-52) <= this x * 2 ^ (-52))%Q
        by (apply Qmult_le_compat_r; lra).
      lra. }
  assert (2 ^ (-52) == 2 * 2 ^ (-53))%Q as E52.
  { replace (-52) with (1 + -53) by lia. by rewrite Qpow2_add. }
  assert (2 ^ (-1074) == 2 * 2 ^ (-1075))%Q as E74.
  { replace (-1074) with (1 + -1075) by lia. by rewrite Qpow2_add. }
  rewrite E52, E74 in Hpe.
  set (P := (2 ^ e)%Q) in *. set (X := this x) in *.
  set (A := (2 ^ (-53))%Q) in *. set (B := (2 ^ (-1075))%Q) in *.
  assert (2 * (X / P) * P == 2 * X)%Q as EX by (field; intros E; rewrite E in He; lra).
  assert (inject_Z (2 * r - 1) * P <= 2 * X)%Q as H1.
  { rewrite <- EX. apply Qmult_le_compat_r; [assumption|lra]. }
  assert (2 * X <= inject_Z (2 * r + 1) * P)%Q as H2.
  { rewrite <- EX. apply Qmult_le_compat_r; [assumption|lra]. }
  unfold Z.sub in H1. rewrite inject_Z_plus, inject_Z_mult, inject_Z_opp in H1.
  rewrite inject_Z_plus, inject_Z_mult in H2.
  change (inject_Z 2) with 2%Q in *. change (inject_Z 1) with 1%Q in *.
  set (R := inject_Z r) in *.
  split; lra.
Qed.

Lemma scale_bound (u v M d : Q) :
  (- d <= u <= d)%Q → (0 <= v <= M)%Q → (- (d * M) <= u * v <= d * M)%Q.
Proof. intros [H1 H2] [H3 H4]. split; nra. Qed.

(** A positive number up to [M] and its double are at most [d] apart. *)
Lemma binary64_within (M d : Q) (x y : Qc) :
  (M * 2 ^ (-53) + 2 ^ (-1075) <= d)%Q →
  (0 < x)%Qc → (this x <= M)%Q → binary64 x = Some y →
  (this x - d <= this y <= this x + d)%Q.
Proof.
  intros Hd Hx Hb H. destruct (binary64_error x y Hx H) as [H1 H2].
  assert (0 < this x)%Q as Hx' by exact Hx.
  pose proof (Qpow2_pos (-53)) as HA.
  assert (this x * 2 ^ (-53) <= M * 2 ^ (-53))%Q by (apply Qmult_le_compat_r; lra).
  split; lra.
Qed.

Lemma binary64_0 : binary64 (Qc_of_Z 0) = Some (Qc_of_Z 0).
Proof. unfold binary64. by rewrite decide_True. Qed.

Lemma py_int_floor (y : Qc) : (0 <= this y)%Q → py_int y = Qfloor y.
Proof. intros H. unfold py_int. by rewrite decide_True. Qed.

(** [1000.0 / use_fps] on the machine lies between 8 and 1002. *)
Lemma per_frame_binary64 (use_fps : Z) (mpf : Qc) :
  1 ≤ use_fps ≤ 120 → Anim.per_frame binary64 use_fps = Some mpf →
  (8 <= this mpf <= 1002)%Q.
Proof.
  intros Hfps H. unfold Anim.per_frame in H.
  destruct (binary64 (Qc_of_Z use_fps)) as [d|] eqn:Ed; [|done]. cbn [mbind option_bind] in H.
  case_decide as Hd0; [done|].
  apply (binary64_within 120 (1 # 1000)) in Ed; cycle 1.
  { vm_compute. discriminate. }
  { rewrite <- Z2Qc_inj_0, <- Z2Qc_inj_lt. lia. }
  { change (this (Qc_of_Z use_fps)) with (inject_Z use_fps).
    change 120%Q with (inject_Z 120). rewrite <- Zle_Qle. lia. }
  change (this (Qc_of_Z use_fps)) with (inject_Z use_fps) in Ed.
  assert (1 <= inject_Z use_fps <= 120)%Q as Hq.
  { change 1%Q with (inject_Z 1). change 120%Q with (inject_Z 120).
    rewrite <- !Zle_Qle. lia. }
  assert (0 < this d)%Q as Hdp by lra.
  assert (this (Qc_of_Z 1000 / d)%Qc == 1000 / this d)%Q as Eq by apply this_div.
  assert (82 # 10 <= 1000 / this d <= 1001 + (1 # 2))%Q as Hdiv.
  { split.
    - apply Qle_shift_div_l; [done|]. lra.
    - apply Qle_shift_div_r; [done|]. lra. }
  apply (binary64_within 1002 (1 # 1000)) in H; cycle 1.
  { vm_compute. discriminate. }
  { unfold Qclt. rewrite Eq. change (this 0%Qc) with 0%Q. lra. }
  { rewrite Eq. lra. }
  rewrite Eq in H. lra.
Qed.

(** The time of a sample on the machine is the whole part of a number
    within a hundredth of the exact product. *)
Lemma msec_binary64 (mpf : Qc) (k t : Z) :
  (8 <= this mpf <= 1002)%Q → 1 ≤ k ≤ 2147483648 →
  Anim.msec binary64 mpf k = Some t →
  ∃ y : Q, t = Qfloor y
    ∧ (inject_Z k * this mpf - (1 # 100) <= y <= inject_Z k * this mpf + (1 # 100))%Q.
Proof.
  intros Hm Hk H. unfold Anim.msec in H.
  destruct (binary64 (Qc_of_Z k)) as [x|] eqn:Ex; [|done]. cbn [mbind option_bind] in H.
  destruct (binary64 (x * mpf)) as [y|] eqn:Ey; [|done]. cbn [mbind option_bind] in H.
  injection H as <-.
  assert (1 <= inject_Z k <= 2147483648)%Q as Hq.
  { change 1%Q with (inject_Z 1). change 2147483648%Q with (inject_Z 2147483648).
    rewrite <- !Zle_Qle. lia. }
  apply (binary64_within 2147483648 (1 # 1000000)) in Ex; cycle 1.
  { vm_compute. discriminate. }
  { rewrite <- Z2Qc_inj_0, <- Z2Qc_inj_lt. lia. }
  { exact (proj2 Hq). }
  change (this (Qc_of_Z k)) with (inject_Z k) in Ex.
  assert (this (x * mpf)%Qc == this x * this mpf)%Q as Ep by apply this_mult.
  set (K := inject_Z k) in *. set (X := this x) in *. set (M := this mpf) in *.
  assert (- ((1 # 1000000) * 1002) <= (X - K) * M <= (1 # 1000000) * 1002)%Q as Hs.
  { apply scale_bound; lra. }
  assert (7 <= X * M)%Q as Hseven by nra.
  assert (0 < X * M)%Q as Hpos by lra.
  assert (X * M <= 2152000000000)%Q as Hup by nra.
  apply (binary64_within 2152000000000 (1 # 1000)) in Ey; cycle 1.
  { vm_compute. discriminate. }
  { unfold Qclt. rewrite Ep. exact Hpos. }
  { rewrite Ep. exact Hup. }
  rewrite Ep in Ey. fold X M in Ey.
  exists (this y). split.
  - apply py_int_floor. lra.
  - split; nra.
Qed.

(** On the machine too the times of the samples of an action keep
    apart, at a frame rate between 1 and 120 and up to [2 ** 31] frames
    after the origin. *)
Lemma binary64_steady (use_fps : Z) (mpf : Qc) :
  1 ≤ use_fps ≤ 120 → Anim.per_frame binary64 use_fps = Some mpf →
  (∀ t, Anim.msec binary64 mpf 0 = Some t → t = 0)
  ∧ (∀ k1 k2 t1 t2, 0 ≤ k1 < k2 → k2 ≤ 2147483648 →
       Anim.msec binary64 mpf k1 = Some t1 → Anim.msec binary64 mpf k2 = Some t2 → t1 < t2).
Proof.
  intros Hfps Hm. apply per_frame_binary64 in Hm; [|done].
  assert (∀ t, Anim.msec binary64 mpf 0 = Some t → t = 0) as H0.
  { intros t H. unfold Anim.msec in H. rewrite binary64_0 in H. cbn [mbind option_bind] in H.
    replace (Qc_of_Z 0 * mpf)%Qc with (Qc_of_Z 0) in H by (rewrite Z2Qc_inj_0; ring).
    rewrite binary64_0 in H. cbn [mbind option_bind] in H. injection H as <-.
    apply py_int_of_Z. }
  split; [exact H0|].
  intros k1 k2 t1 t2 Hk Hb H1 H2.
  apply msec_binary64 in H2 as (y2 & -> & Hy2); [|done|lia].
  destruct (decide (k1 = 0)) as [->|Hne].
  - apply H0 in H1 as ->. change 0 with (Qfloor 0). apply Qfloor_step.
    assert (1 <= inject_Z k2)%Q by (change 1%Q with (inject_Z 1); rewrite <- Zle_Qle; lia).
    nra.
  - apply msec_binary64 in H1 as (y1 & -> & Hy1); [|done|lia].
    apply Qfloor_step.
    assert (inject_Z k1 + 1 <= inject_Z k2)%Q.
    { change 1%Q with (inject_Z 1). rewrite <- inject_Z_plus, <- Zle_Qle. lia. }
    nra.
Qed.

End FloatFacts.

Section MachineTimes.
Import Num Tables Anim Timeline.

Variable hash_vertex : vertex -> Z.
Variable hash_string : string -> Z.
Variable digits : Z.
Variable bones : dict string bone.
Variable pose : act -> Z -> list (list pose_bone).
Variable animated : list bool.

Local Abbreviation export_action :=
  (export_action Floats.binary64 hash_vertex hash_string digits bones pose animated).
Local Abbreviation export_actions :=
  (export_actions Floats.binary64 hash_vertex hash_string digits bones pose animated).

(** X24.  The same in the double precision arithmetic of the machine,
    where every product is rounded before it is truncated: at a frame rate
    between 1 and 120, and for actions of fewer than [2 ** 31] frames,
    every action that is exported has at least one frame, its first frame
    is at time 0, the times of its frames increase strictly, and every
    frame lies before the end of the action. *)
Theorem actions_well_timed_in_doubles (ua us : bool) (use_fps : Z) (acts : list act)
    (st st' : state) :
  1 ≤ use_fps ≤ 120 →
  Forall (fun a => act_end a - act_start a < 2147483648) acts →
  Forall well_timed (actions st) →
  export_actions ua us use_fps acts st = Some st' →
  Forall well_timed (actions st').
Proof.
  intros Hfps Hspan Hst H. unfold Anim.export_actions in H.
  destruct ua; [|by simplify_eq].
  destruct (us && (0 <? py_len bones)); [|by simplify_eq].
  destruct (per_frame Floats.binary64 use_fps) as [mpf|] eqn:Hm; [|done].
  cbn [mbind option_bind] in H.
  destruct (binary64_steady use_fps mpf Hfps Hm) as [H0 Hstep].
  revert st Hst H. induction Hspan as [|a acts Ha Hspan IH]; intros st Hst H.
  - simpl in H. by simplify_eq.
  - cbn [fold_left] in H.
    destruct (export_action mpf (Some st) a) as [st1|] eqn:E;
      [|by rewrite (export_action_None Floats.binary64) in H].
    apply (IH st1); [|done].
    apply (export_action_timed Floats.binary64 hash_vertex hash_string digits bones pose animated
             mpf 2147483648) with (st := st) (a := a); [exact H0|exact Hstep|lia|done|done].
Qed.

End MachineTimes.

Section TimelineExamples.
Import Num Tables Anim Timeline Samples Sway.


Lemma actions_well_timed_in_doubles_witness :
  ∃ st', export_actions Floats.binary64 hash_vertex Examples.hash_string 4 two_bones sway [true]
           true true 19 [sway_act] wave_start = Some st'
         ∧ actions st' ≠ [] ∧ Forall well_timed (actions st').
Proof.
  destruct (export_actions Floats.binary64 hash_vertex Examples.hash_string 4 two_bones sway
              [true] true true 19 [sway_act] wave_start) as [st'|] eqn:H;
    [|vm_compute in H; discriminate H].
  exists st'. split; [reflexivity|]. split.
  - pose proof H as H2. vm_compute in H2. injection H2 as <-. discriminate.
  - apply (actions_well_timed_in_doubles hash_vertex Examples.hash_string 4 two_bones sway
             [true] true true 19 [sway_act] wave_start st'); [lia| |constructor|exact H].
    constructor; [|constructor]. simpl. lia.
Defined.

Lemma frame_counts_fit_witness :
  ∃ st', export_actions Floats.binary64 hash_vertex Examples.hash_string 4 two_bones wave [true]
           true true 25 [wave_act] wave_start = Some st'
         ∧ fi_m st' = 1 ∧ Forall (counted (fi_m st')) (actions st').
Proof.
  destruct (export_actions Floats.binary64 hash_vertex Examples.hash_string 4 two_bones wave
              [true] true true 25 [wave_act] wave_start) as [st'|] eqn:H;
    [|vm_compute in H; discriminate H].
  exists st'. split; [reflexivity|]. split.
  - pose proof H as H2. vm_compute in H2. by injection H2 as <-.
  - apply (frame_counts_fit Floats.binary64 hash_vertex Examples.hash_string 4 two_bones wave
             [true] true true 25 [wave_act] wave_start st'); [constructor|exact H].
Defined.

End TimelineExamples.

(** ** The skeleton stage *)

Section ArmatureFacts.
Import Num Tables Armature.

Variable hash_string : string -> Z.
Variable hash_vertex : vertex -> Z.
Variable digits : Z.

Local Abbreviation key := (fun b => hash_string (safe_name b)).
Local Abbreviation add_bone := (add_bone hash_string hash_vertex digits).
Local Abbreviation add_bones := (add_bones hash_string hash_vertex digits).
Local Abbreviation stage := (stage hash_string hash_vertex digits).

Lemma dict_get_absent {K E} `{EqDecision K} (k : K) (l : dict K E) :
  k ∉ l.*1 → dict_get k l = None.
Proof.
  induction l as [|[k' v] l IH]; [done|]. rewrite fmap_cons, not_elem_of_cons. simpl.
  intros [Hne Hl]. rewrite decide_False by done. by apply IH.
Qed.

Lemma dict_get_present {K E} `{EqDecision K} (k : K) (l : dict K E) :
  k ∈ l.*1 → is_Some (dict_get k l).
Proof.
  induction l as [|[k' v] l IH]; [by intros ?%elem_of_nil|]. rewrite fmap_cons. simpl.
  case_decide; [by eexists|]. intros [?|?]%elem_of_cons; [done|]. by apply IH.
Qed.

Lemma sequential_NoDup {K E} (n : nat) (l : dict K E) :
  sequential n l → NoDup ((fun e => e.2.1) <$> l) ∧ Forall (fun e => Z.of_nat n ≤ e.2.1) l.
Proof.
  revert n. induction l as [|[k [i e]] l IH]; intros n; simpl.
  - intros _. split; constructor.
  - intros [-> Hl]. destruct (IH _ Hl) as [Hnd Hge]. split.
    + constructor; [|done]. simpl. intros Hin.
      apply list_elem_of_fmap in Hin as (e' & He' & Hin).
      rewrite Forall_forall in Hge. specialize (Hge _ Hin). lia.
    + constructor; [simpl; lia|]. eapply Forall_impl; [exact Hge|]. simpl. intros; lia.
Qed.

(** One more bone whose key is new. *)
Lemma add_bone_built (arm ps : list rest_bone) (st : state) (b : rest_bone) :
  built hash_string ps st → key b ∉ key <$> ps →
  ∃ st', add_bone arm st b = (st', true) ∧ built hash_string (ps ++ [b]) st'
         ∧ use_animation st' = use_animation st ∧ reports st' = reports st.
Proof.
  intros (Hus & Hk & Hss & Hse & Hbk & Hbs & Hbn & Hidx) Hnew.
  assert (dict_get (key b) (strs st) = None) as Hg by (apply dict_get_absent; by rewrite Hk).
  assert (rb_name b ∉ (bones st).*1) as Hname.
  { rewrite Hbk. intros Hin. apply Hnew.
    apply list_elem_of_fmap in Hin as (b' & Hb' & Hin). apply list_elem_of_fmap.
    exists b'. split; [|done]. unfold safe_name. by rewrite Hb'. }
  assert (py_len (strs st) = py_len ps) as Hlen.
  { unfold py_len. f_equal. by rewrite <- (length_fmap fst (strs st)), Hk, length_fmap. }
  assert (length (bones st) = length ps) as Hlb
    by (by rewrite <- (length_fmap fst (bones st)), Hbk, length_fmap).
  unfold Armature.add_bone. cbv zeta. fold (safe_name b). rewrite Hg.
  unfold uniquedict at 1. rewrite Hg.
  destruct (uniquedict hash_vertex (verts st) _) as [pos vs1].
  destruct (uniquedict hash_vertex vs1 _) as [ori vs2].
  eexists. split; [reflexivity|]. split; [|done].
  unfold built. cbn [use_skeleton strs bones idx].
  rewrite (dict_set_fresh (key b)) by done.
  rewrite (dict_set_fresh (rb_name b)) by (by apply dict_get_absent).
  rewrite !fmap_app. cbn [fmap list_fmap fst snd]. rewrite Hk, Hse, Hbk.
  split_and!; try done.
  - by apply (sequential_snoc 0 (strs st)).
  - rewrite Hidx. unfold py_len. rewrite <- Hlb.
    by apply (sequential_snoc 0 (bones st)).
  - apply Forall_app. split; [done|]. apply Forall_singleton. simpl. by rewrite Hidx, Hlen.
  - rewrite Hidx. unfold py_len. rewrite length_app. simpl. lia.
Qed.

(** The bones of one armature, all with new keys. *)
Lemma add_bones_built (arm bs ps : list rest_bone) (st : state) :
  built hash_string ps st → NoDup (key <$> (ps ++ bs)) →
  built hash_string (ps ++ bs) (add_bones arm bs st)
  ∧ use_animation (add_bones arm bs st) = use_animation st
  ∧ reports (add_bones arm bs st) = reports st.
Proof.
  revert ps st. induction bs as [|b bs IH]; intros ps st Hb Hnd.
  - rewrite app_nil_r. done.
  - assert (key b ∉ key <$> ps) as Hnew.
    { rewrite fmap_app, fmap_cons in Hnd. apply NoDup_app in Hnd as (_ & Hd & _).
      intros Hin. apply (Hd _ Hin). apply list_elem_of_here. }
    destruct (add_bone_built arm ps st b Hb Hnew) as (st' & E & Hb' & Ha & Hr).
    cbn [Armature.add_bones]. rewrite E.
    replace (ps ++ b :: bs) with ((ps ++ [b]) ++ bs) in * by (by rewrite <- app_assoc).
    destruct (IH (ps ++ [b]) st' Hb' Hnd) as (H1 & H2 & H3).
    split_and!; [done|by rewrite H2|by rewrite H3].
Qed.

Lemma armatures_built (armatures : list (list rest_bone)) (ps : list rest_bone) (st : state) :
  built hash_string ps st → NoDup (key <$> (ps ++ concat armatures)) →
  let st' := fold_left (fun st arm => add_bones arm arm st) armatures st in
  built hash_string (ps ++ concat armatures) st'
  ∧ use_animation st' = use_animation st ∧ reports st' = reports st.
Proof.
  revert ps st. induction armatures as [|arm armatures IH]; intros ps st Hb Hnd.
  - simpl. rewrite app_nil_r. done.
  - cbn [concat fold_left] in Hnd |- *. rewrite app_assoc in Hnd |- *.
    destruct (add_bones_built arm arm ps st Hb) as (H1 & H2 & H3).
    { rewrite fmap_app in Hnd. by apply NoDup_app in Hnd as (? & _ & _). }
    destruct (IH (ps ++ arm) (add_bones arm arm st) H1 Hnd) as (H4 & H5 & H6).
    cbv zeta. split_and!; [done|by rewrite H5|by rewrite H6].
Qed.

(** The stage from the empty pools, with the skeleton asked for. *)
Lemma stage_start (armatures : list (list rest_bone)) (ua : bool) :
  stage armatures (start true ua)
  = let st := fold_left (fun st arm => add_bones arm arm st) armatures (start true ua) in
    if (py_len (bones st) <? 1) && use_animation st then
      {| strs := strs st; verts := verts st; bones := bones st; idx := idx st;
         use_skeleton := use_skeleton st; use_animation := false;
         reports := reports st ++ ["Skipping skeletal animation in lack of armature."%string] |}
    else st.
Proof. reflexivity. Qed.

(** X17.  When the safe names of all bones of all armatures have
    different hashes, the skeleton stage keeps the skeleton on and the
    bones dictionary holds every bone once, under its own name, in the
    order of the armatures and numbered from 0, so that neither a name
    nor an index occurs twice; the string table holds the safe names in
    the same order, and bone number [i] refers to string number [i]. *)
Theorem skeleton_stage_tables (armatures : list (list rest_bone)) (ua : bool) :
  let all := concat armatures in
  let st := stage armatures (start true ua) in
  NoDup (key <$> all) →
  use_skeleton st = true
  ∧ (bones st).*1 = rb_name <$> all
  ∧ NoDup ((bones st).*1)
  ∧ sequential 0 (bones st)
  ∧ NoDup ((fun e => e.2.1) <$> bones st)
  ∧ dict2list (strs st) = safe_name <$> all
  ∧ Forall (fun e => b_name e.2.2 = e.2.1) (bones st).
Proof.
  intros all st Hnd.
  assert (built hash_string [] (start true ua)) as H0.
  { unfold built, start. cbn. by split_and!. }
  destruct (armatures_built armatures [] (start true ua) H0 Hnd) as (Hb & Ha & Hr).
  cbv zeta in Hb. cbn [app] in Hb. fold all in Hb.
  assert (built hash_string all st) as (Hus & Hk & Hss & Hse & Hbk & Hbs & Hbn & Hidx).
  { subst st. rewrite stage_start. cbv zeta. destruct (_ && _); [|done].
    destruct Hb as (? & ? & ? & ? & ? & ? & ? & ?). unfold built. by cbn. }
  split_and!; try done.
  - rewrite Hbk. 
    apply (NoDup_fmap_1 (fun n => hash_string (Names.safestr (Some n) 0))).
    by rewrite <- list_fmap_compose.
  - by apply (sequential_NoDup 0).
  - rewrite dict2list_sequential by done. exact Hse.
Qed.

(** What holds after the bones [ps] have been visited or skipped,
    whether or not a name was found twice. *)
Lemma add_bone_visited (arm ps : list rest_bone) (st : state) (b : rest_bone) :
  (use_skeleton st = true → built hash_string ps st ∧ NoDup (key <$> ps)) →
  (use_skeleton st = false →
     use_animation st = false ∧ ∃ b, b ∈ ps ∧ not_unique b (safe_name b) ∈ reports st) →
  let '(st', go) := add_bone arm st b in
  (use_skeleton st' = true → built hash_string (ps ++ [b]) st' ∧ NoDup (key <$> ps ++ [b]))
  ∧ (use_skeleton st' = false →
       use_animation st' = false
       ∧ ∃ b', b' ∈ ps ++ [b] ∧ not_unique b' (safe_name b') ∈ reports st')
  ∧ (go = false → use_skeleton st' = false).
Proof.
  intros Ht Hf.
  destruct (dict_get (key b) (strs st)) as [v|] eqn:Hg.
  - unfold Armature.add_bone. cbv zeta. fold (safe_name b). rewrite Hg.
    cbn [use_skeleton use_animation reports]. split_and!; [done| |done].
    intros _. split; [done|]. exists b. split; [apply elem_of_app; right; apply list_elem_of_here|].
    apply elem_of_app. right. apply list_elem_of_here.
  - destruct (use_skeleton st) eqn:Hus.
    + destruct (Ht eq_refl) as [Hb Hnd].
      assert (key b ∉ key <$> ps) as Hnew.
      { intros Hin. destruct Hb as (_ & Hk & _). rewrite <- Hk in Hin.
        apply dict_get_present in Hin as [? Hin]. by rewrite Hin in Hg. }
      destruct (add_bone_built arm ps st b Hb Hnew) as (st' & E & Hb' & Ha & Hr).
      rewrite E. split_and!; [|intros Hfl; destruct Hb' as [Hu _]; by rewrite Hu in Hfl|done].
      intros _. split; [done|]. rewrite fmap_app. apply NoDup_app. split_and!; [done| |].
      * intros x Hx Hx'. cbn in Hx'. apply list_elem_of_singleton in Hx'. by subst.
      * cbn. apply NoDup_singleton.
    + destruct (Hf eq_refl) as [Ha (b0 & Hb0 & Hr0)].
      unfold Armature.add_bone. cbv zeta. fold (safe_name b). rewrite Hg.
      destruct (uniquedict hash_string _ _) as [ni ss].
      destruct (uniquedict hash_vertex (verts st) _) as [pos vs1].
      destruct (uniquedict hash_vertex vs1 _) as [ori vs2].
      cbn [use_skeleton use_animation reports]. rewrite Hus.
      split_and!; [done| |done]. intros _. split; [done|].
      exists b0. split; [apply elem_of_app; by left|done].
Qed.

Lemma add_bones_visited (arm bs ps : list rest_bone) (st : state) :
  (use_skeleton st = true → built hash_string ps st ∧ NoDup (key <$> ps)) →
  (use_skeleton st = false →
     use_animation st = false ∧ ∃ b, b ∈ ps ∧ not_unique b (safe_name b) ∈ reports st) →
  let st' := add_bones arm bs st in
  (use_skeleton st' = true → built hash_string (ps ++ bs) st' ∧ NoDup (key <$> ps ++ bs))
  ∧ (use_skeleton st' = false →
       use_animation st' = false
       ∧ ∃ b, b ∈ ps ++ bs ∧ not_unique b (safe_name b) ∈ reports st').
Proof.
  revert ps st. induction bs as [|b bs IH]; intros ps st Ht Hf.
  - cbn. by rewrite app_nil_r.
  - pose proof (add_bone_visited arm ps st b Ht Hf) as Hstep.
    cbn [Armature.add_bones]. destruct (add_bone arm st b) as [st1 go].
    destruct Hstep as (Ht1 & Hf1 & Hgo).
    replace (ps ++ b :: bs) with ((ps ++ [b]) ++ bs) by (by rewrite <- app_assoc).
    destruct go.
    + by apply IH.
    + cbv zeta. specialize (Hgo eq_refl). split; [by rewrite Hgo|].
      intros _. destruct (Hf1 Hgo) as [Ha (b0 & Hb0 & Hr0)]. split; [done|].
      exists b0. split; [apply elem_of_app; by left|done].
Qed.

Lemma armatures_visited (armatures : list (list rest_bone)) (ps : list rest_bone)
    (st : state) :
  (use_skeleton st = true → built hash_string ps st ∧ NoDup (key <$> ps)) →
  (use_skeleton st = false →
     use_animation st = false ∧ ∃ b, b ∈ ps ∧ not_unique b (safe_name b) ∈ reports st) →
  let st' := fold_left (fun st arm => add_bones arm arm st) armatures st in
  (use_skeleton st' = true →
     built hash_string (ps ++ concat armatures) st' ∧ NoDup (key <$> ps ++ concat armatures))
  ∧ (use_skeleton st' = false →
       use_animation st' = false
       ∧ ∃ b, b ∈ ps ++ concat armatures ∧ not_unique b (safe_name b) ∈ reports st').
Proof.
  revert ps st. induction armatures as [|arm armatures IH]; intros ps st Ht Hf.
  - cbn. by rewrite app_nil_r.
  - cbn [concat fold_left]. rewrite app_assoc.
    destruct (add_bones_visited arm arm ps st Ht Hf) as [Ht1 Hf1].
    by apply IH.
Qed.

(** X18.  The skeleton survives the stage exactly when the safe names of
    all bones have different hashes.  Otherwise the stage reports a bone
    whose name is not unique and switches both the skeleton and the
    animation off. *)
Theorem duplicate_bone_name (armatures : list (list rest_bone)) (ua : bool) :
  let all := concat armatures in
  let st := stage armatures (start true ua) in
  (use_skeleton st = true ↔ NoDup (key <$> all))
  ∧ (¬ NoDup (key <$> all) →
     use_skeleton st = false ∧ use_animation st = false
     ∧ ∃ b, b ∈ all ∧ not_unique b (safe_name b) ∈ reports st).
Proof.
  intros all st.
  destruct (armatures_visited armatures [] (start true ua)) as [Ht Hf].
  { intros _. split; [|constructor]. unfold built, start. cbn. by split_and!. }
  { by intros [=]. }
  cbn [app] in Ht, Hf. fold all in Ht, Hf.
  set (st0 := fold_left (fun st arm => add_bones arm arm st) armatures (start true ua)) in *.
  assert (use_skeleton st = use_skeleton st0
          ∧ (use_animation st0 = false → use_animation st = false)
          ∧ ∀ r, r ∈ reports st0 → r ∈ reports st) as (Eus & Eua & Er).
  { subst st. rewrite stage_start. cbv zeta. fold st0. destruct (_ && _); [|done].
    cbn [use_skeleton use_animation reports]. split_and!; [done|done|].
    intros r Hr. apply elem_of_app. by left. }
  assert (use_skeleton st = true → NoDup (key <$> all)) as Hdir.
  { rewrite Eus. intros H. by destruct (Ht H). }
  split; [split; [exact Hdir|]|].
  - intros Hnd. rewrite Eus.
    destruct (armatures_built armatures [] (start true ua)) as ((H & _) & _);
      [unfold built, start; cbn; by split_and!|done|done].
  - intros Hdup. assert (use_skeleton st0 = false) as Hus.
    { rewrite <- Eus. destruct (use_skeleton st) eqn:E; [|done]. destruct Hdup. by apply Hdir. }
    destruct (Hf Hus) as [Ha (b & Hb & Hr)].
    split_and!; [by rewrite Eus|by apply Eua|]. exists b. split; [done|by apply Er].
Qed.

End ArmatureFacts.

Section ArmatureExamples.
Import Num Tables Armature.

(** An armature of two bones, and one whose two names become the same
    safe name. *)
Lemma skeleton_stage_tables_witness :
  let arm := [ {| rb_name := "hip"; rb_parent := None;
                  rb_p := (Examples.q 0 1, Examples.q 0 1, Examples.q 0 1);
                  rb_q := (Examples.q 0 1, Examples.q 0 1, Examples.q 0 1, Examples.q 1 1) |};
               {| rb_name := "leg"; rb_parent := Some "hip"%string;
                  rb_p := (Examples.q 0 1, Examples.q 1 1, Examples.q 0 1);
                  rb_q := (Examples.q 0 1, Examples.q 0 1, Examples.q 0 1, Examples.q 1 1) |} ] in
  let st := stage Examples.hash_string Samples.hash_vertex 4 [arm] (start true true) in
  use_skeleton st = true
  ∧ (bones st).*1 = ["hip"; "leg"]%string
  ∧ NoDup ((bones st).*1)
  ∧ sequential 0 (bones st)
  ∧ NoDup ((fun e => e.2.1) <$> bones st)
  ∧ dict2list (strs st) = ["hip"; "leg"]%string
  ∧ Forall (fun e => b_name e.2.2 = e.2.1) (bones st).
Proof.
  intros arm st.
  apply (skeleton_stage_tables Examples.hash_string Samples.hash_vertex 4 [arm] true).
  compute_done.
Defined.

Lemma duplicate_bone_name_witness :
  let arm := [ {| rb_name := "left arm"; rb_parent := None;
                  rb_p := (Examples.q 0 1, Examples.q 0 1, Examples.q 0 1);
                  rb_q := (Examples.q 0 1, Examples.q 0 1, Examples.q 0 1, Examples.q 1 1) |};
               {| rb_name := "left_arm"; rb_parent := None;
                  rb_p := (Examples.q 0 1, Examples.q 1 1, Examples.q 0 1);
                  rb_q := (Examples.q 0 1, Examples.q 0 1, Examples.q 0 1, Examples.q 1 1) |} ] in
  let st := stage Examples.hash_string Samples.hash_vertex 4 [arm] (start true true) in
  use_skeleton st = false ∧ use_animation st = false
  ∧ ∃ b, b ∈ concat [arm] ∧ not_unique b (safe_name b) ∈ reports st.
Proof.
  intros arm st.
  apply (duplicate_bone_name Examples.hash_string Samples.hash_vertex 4 [arm] true).
  compute_done.
Defined.

End ArmatureExamples.

(** ** The kinds of the stored material properties *)

Section KindFacts.
Import Num Tables Material Kinds.

Variable hash_color : color -> Z.
Variable hash_string : string -> Z.
Variable hash_asset : asset -> Z.
Variable texturedata : string -> list byte.
Variable use_inline : bool.

Local Abbreviation emit_key := (emit_key hash_color hash_string hash_asset texturedata use_inline).
Local Abbreviation emit_generic := (emit_generic hash_color hash_string hash_asset texturedata use_inline).
Local Abbreviation set_color_prop := (set_color_prop hash_color).
Local Abbreviation set_map_prop := (set_map_prop hash_string hash_asset texturedata use_inline).
Local Abbreviation export_material :=
  (export_material hash_color hash_string hash_asset texturedata use_inline).

Local Abbreviation kinds := (Forall (fun p => kind_ok p = true)).

(** Only the constructor of the value matters. *)
Lemma kind_ok_ref (k i j : Z) : kind_ok (k, PRef i) = kind_ok (k, PRef j).
Proof. unfold kind_ok. cbn [fst snd]. by repeat case_match. Qed.

Lemma kind_ok_float (k : Z) (x y : Qc) : kind_ok (k, PFloat x) = kind_ok (k, PFloat y).
Proof. unfold kind_ok. cbn [fst snd]. by repeat case_match. Qed.

Lemma kind_ok_byte (k i j : Z) : kind_ok (k, PByte i) = kind_ok (k, PByte j).
Proof. unfold kind_ok. cbn [fst snd]. by repeat case_match. Qed.

Lemma props_set_kinds (k : Z) (v : propval) (p : props) :
  kinds p → kind_ok (k, v) = true → kinds (props_set k v p).
Proof.
  intros Hp Hv. induction Hp as [|[k' v'] p Hk Hp IH]; simpl.
  - by repeat constructor.
  - destruct (Z.eqb_spec k k') as [->|]; constructor; done.
Qed.

Lemma set_prop_kinds k v l :
  kinds (l_props l) → kind_ok (k, v) = true → kinds (l_props (set_prop k v l)).
Proof. intros. by apply props_set_kinds. Qed.

Lemma set_color_prop_kinds k c l :
  kinds (l_props l) → kind_ok (k, PRef 0) = true → kinds (l_props (set_color_prop k c l)).
Proof.
  intros Hl Hk. unfold Material.set_color_prop, intern_color.
  destruct (uniquedict _ _ _) as [i cm]. simpl. apply props_set_kinds; [done|].
  by rewrite (kind_ok_ref k i 0).
Qed.

Lemma set_map_prop_kinds k image l :
  kinds (l_props l) → kind_ok (k, PRef 0) = true → kinds (l_props (set_map_prop k image l)).
Proof.
  intros Hl Hk. unfold Material.set_map_prop.
  destruct (uniquedict _ _ _) as [i ss]. simpl. apply props_set_kinds; [done|].
  by rewrite (kind_ok_ref k i 0).
Qed.

Lemma emit_generic_kinds key fmt val l l' :
  stores_ok key fmt = true → kinds (l_props l) →
  emit_generic key fmt val l = Some l' → kinds (l_props l').
Proof.
  unfold stores_ok, Material.emit_generic. intros Hok Hl H.
  destruct (128 <=? key).
  - destruct val as [| |[name|]]; try done; [|by simplify_eq].
    case_bool_decide; simplify_eq; [done|]. by apply set_map_prop_kinds.
  - case_bool_decide.
    { destruct val; try done. destruct (negb _); simplify_eq; [|done].
      by apply set_color_prop_kinds. }
    case_bool_decide.
    { destruct val as [|xs|]; try done.
      destruct xs as [|r [|g [|b [|a [|? ?]]]]]; simplify_eq; try done;
        by apply set_color_prop_kinds. }
    case_bool_decide.
    { destruct val as [x| |]; try done. destruct (negb _); simplify_eq; [|done].
      apply set_prop_kinds; [done|]. by rewrite (kind_ok_float key x (Qc_of_Z 0)). }
    destruct (_ || _).
    { destruct val as [x| |]; try done. destruct (negb _); simplify_eq; [|done].
      apply set_prop_kinds; [done|]. by rewrite (kind_ok_float key x (Qc_of_Z 0)). }
    by simplify_eq.
Qed.

Lemma getattr_illumination (w : wrapper) : getattr w "illumination" = None.
Proof. reflexivity. Qed.

(** One row of the table keeps every stored value of the expected kind. *)
Lemma emit_key_kinds w l l' (e : Z * (string * string * string)) :
  row_ok e = true → kinds (l_props l) →
  emit_key w (Some l) e = Some l' → kinds (l_props l').
Proof.
  unfold row_ok, Material.emit_key. destruct e as [k t]. cbn [fst snd]. intros Hrow Hl.
  destruct (Z.eqb_spec k 0) as [->|H0].
  - apply andb_true_iff in Hrow as [Hk Hs]. unfold derive_kd.
    destruct (if _ : bool then _ else _) as [d|]; [|done].
    assert (∀ l1, kinds (l_props l1) →
              match getattr w (attr_of t) with
              | Some val => emit_generic 0 (fmt_of t) val l1
              | None => Some l1
              end = Some l' → kinds (l_props l')) as Hgen.
    { intros l1 Hl1 H. destruct (getattr w _); [by eapply emit_generic_kinds|by simplify_eq]. }
    destruct (negb _).
    + destruct (base_color w) as [|r [|g [|b ?]]]; try done.
      apply Hgen. by apply set_color_prop_kinds.
    + by apply Hgen.
  - destruct (Z.eqb_spec k 8) as [->|H8].
    + apply andb_true_iff in Hrow as [Hk Ha]. apply bool_decide_eq_true_1 in Ha.
      unfold derive_il. destruct (l_d l) as [d|]; [|done]. rewrite Ha, getattr_illumination.
      intros; simplify_eq. destruct (negb _); [|done].
      apply set_prop_kinds; [done|]. by rewrite (kind_ok_byte 8 _ 0).
    + case_bool_decide as Hsl; [by intros; simplify_eq|]. simpl in Hrow.
      destruct (getattr w _); [by apply emit_generic_kinds|by intros; simplify_eq].
Qed.

Lemma table_rows_ok : Forall (fun e => row_ok e = true) mat_property_map.
Proof. by repeat (constructor; [reflexivity|]). Qed.

Lemma property_loop_kinds w l l' :
  kinds (l_props l) →
  fold_left (emit_key w) mat_property_map (Some l) = Some l' → kinds (l_props l').
Proof.
  pose proof table_rows_ok as Hrows. revert l.
  induction Hrows as [|e es He _ IH]; intros l Hl H; cbn [fold_left] in H.
  - by simplify_eq.
  - destruct (emit_key w (Some l) e) as [l1|] eqn:E; [|by rewrite emit_key_None in H].
    apply (IH l1); [|done]. by eapply emit_key_kinds.
Qed.

Lemma export_material_kinds (st st' : state) (mat : option blender_material) :
  Forall (fun m => kinds (m_props m)) (materials st) →
  export_material (Some st) mat = Some st' →
  Forall (fun m => kinds (m_props m)) (materials st').
Proof.
  intros Hst H. unfold Material.export_material in H.
  destruct mat as [mat|]; [|by simplify_eq].
  set (l0 := match mat_node_image mat with Some _ => _ | None => _ end) in H.
  assert (kinds (l_props l0) ∧ materials (l_st l0) = materials st) as [Hk0 Hm0].
  { subst l0. destruct (mat_node_image mat).
    - split; [|apply only_set_map_prop]. apply set_map_prop_kinds; [|reflexivity].
      cbn [l_props]. constructor.
    - cbn [l_props l_st]. split; [constructor|done]. }
  assert (∀ l1, kinds (l_props l1) → materials (l_st l1) = materials st →
            (if 0 <? py_len (l_props l1)
             then let '(n, ss) := uniquedict hash_string (strs (l_st l1))
                                    (Names.safestr (Some (mat_name mat)) 0) in
                  Some {| cmap := cmap (l_st l1); strs := ss; inlined := inlined (l_st l1);
                          materials := materials (l_st l1)
                                       ++ [{| m_name := n; m_props := l_props l1 |}];
                          reports := reports (l_st l1) |}
             else Some (l_st l1)) = Some st' →
            Forall (fun m => kinds (m_props m)) (materials st')) as Hend.
  { intros l1 Hk1 Hm1 H1. destruct (0 <? _).
    - destruct (uniquedict _ _ _) as [n ss]. simplify_eq. cbn [materials].
      rewrite Hm1. apply Forall_app. split; [done|]. by apply Forall_singleton.
    - simplify_eq. by rewrite Hm1. }
  destruct (mat_wrap mat) as [w|].
  - destruct (fold_left _ _ _) as [l1|] eqn:Hl; [|done].
    apply (Hend l1); [by eapply property_loop_kinds| |done].
    apply property_loop in Hl as [Hm1 _]. by rewrite Hm1.
  - refine (Hend _ _ _ H); [exact Hk0|exact Hm0].
Qed.

Lemma export_material_None (refmats : list (option blender_material)) :
  fold_left export_material refmats None = None.
Proof. by induction refmats. Qed.

(** X19.  Every property that the material pass stores can be read back
    by the writers: its code is a row of the property table and its value
    is of the kind the binary writer takes from it there (an index for a
    colour, a grey scale or a texture, a small integer for the
    illumination, a float otherwise).  A float under a code whose value
    the binary writer uses as an integer would make it raise, colours
    being written with an index of one, two or four bytes. *)
Theorem material_properties_writable (use_materials : bool)
    (refmats : list (option blender_material)) (st st' : state) :
  Forall (fun m => kinds (m_props m)) (materials st) →
  export_materials hash_color hash_string hash_asset texturedata use_inline
    use_materials refmats st = Some st' →
  Forall (fun m => kinds (m_props m)) (materials st')
  ∧ ∀ (pack_f : Qc → list byte) (w : Binary.widths) (stridx : list Z) (code : Z) (x : Qc),
      kind_ok (code, PFloat x) = false → 0 ≤ Binary.ci_s w ≤ 2 →
      Binary.property pack_f w stridx (code, PFloat x) = None.
Proof.
  intros Hst H. split.
  - unfold export_materials in H. destruct use_materials; [|by simplify_eq].
    revert st Hst H. induction refmats as [|mat refmats IH]; intros st Hst H.
    + simpl in H. by simplify_eq.
    + cbn [fold_left] in H.
      destruct (export_material (Some st) mat) as [st1|] eqn:E;
        [|by rewrite export_material_None in H].
      apply (IH st1); [|done]. by eapply export_material_kinds.
  - intros pack_f w stridx code x Hk Hw. unfold kind_ok in Hk. unfold Binary.property.
    cbn [fst snd] in *. unfold Binary.cat. cbn [fold_right].
    destruct (Index.pack_unsigned 1 code) as [b|]; [|done]. cbn [mbind option_bind].
    destruct (property_entry code) as [e|]; [|done]. cbn [mbind option_bind].
    cbv zeta in Hk.
    destruct (bool_decide (fmt_of e = "color"%string) || bool_decide (fmt_of e = "gscale"%string)).
    { destruct (Z.ltb_spec (Binary.ci_s w) 4); [|done].
      assert (Binary.ci_s w = 0 ∨ Binary.ci_s w = 1 ∨ Binary.ci_s w = 2) as [->| [->| ->]] by lia;
        done. }
    destruct (bool_decide (fmt_of e = "byte"%string) || bool_decide (fmt_of e = "//byte"%string)).
    { done. }
    destruct (128 <=? code); done.
Qed.

End KindFacts.

Section KindExamples.
Import Num Tables Material Kinds.

Lemma material_properties_writable_witness :
  ∃ st', export_materials Examples.hash_color Examples.hash_string Examples.hash_asset
           (fun _ => []) false true [Some Examples.zero_material] Examples.no_materials = Some st'
         ∧ materials st' ≠ []
         ∧ Forall (fun m => Forall (fun p => kind_ok p = true) (m_props m)) (materials st').
Proof.
  destruct (export_materials Examples.hash_color Examples.hash_string Examples.hash_asset
              (fun _ => []) false true [Some Examples.zero_material] Examples.no_materials)
    as [st'|] eqn:H; [|vm_compute in H; discriminate].
  exists st'. split; [reflexivity|]. split.
  - pose proof H as H2. vm_compute in H2. injection H2 as <-. discriminate.
  - apply (material_properties_writable Examples.hash_color Examples.hash_string
             Examples.hash_asset (fun _ => []) false true [Some Examples.zero_material]
             Examples.no_materials st'); [constructor|exact H].
Defined.

End KindExamples.

(** ** A colour outside the range of a byte; the size of a vertex record *)

Section BinaryFailures.
Import Num Tables Index Model Binary.

Variable pack_f : Qc -> list byte.
Variable pack_d : Qc -> list byte.
Variable zlib_compress : list byte -> list byte.
Variable logname : string.

Lemma cat_None (parts : list (option (list byte))) : None ∈ parts → cat parts = None.
Proof.
  induction parts as [|p parts IH]; [by intros ?%elem_of_nil|].
  intros [<-|Hin]%elem_of_cons; unfold cat; cbn [fold_right]; [done|].
  destruct p; [|done]. cbn [mbind option_bind]. fold (cat parts). by rewrite IH.
Qed.

Lemma for_each_None {A} (l : list A) (body : A → option (list byte)) (x : A) :
  x ∈ l → body x = None → for_each l body = None.
Proof.
  intros Hx Hb. unfold for_each. apply cat_None. rewrite <- Hb. by apply list_elem_of_fmap_2.
Qed.

(** [int(x * 255)] leaves the range of a byte. *)
Lemma component_out_of_byte (x : Qc) :
  (Qc_of_Z 256 ≤ x * Qc_of_Z 255 ∨ x * Qc_of_Z 255 ≤ Qc_of_Z (-1))%Qc →
  pack_unsigned 1 (py_int (x * Qc_of_Z 255)) = None.
Proof.
  set (y := (x * Qc_of_Z 255)%Qc). intros H.
  assert (256 ≤ py_int y ∨ py_int y ≤ -1) as Hr.
  { unfold py_int. destruct H as [H|H].
    - left. rewrite decide_True.
      + assert (inject_Z 256 <= this y)%Q as H' by exact H.
        apply Qfloor_resp_le in H'. by rewrite Qfloor_Z in H'.
      + trans (Qc_of_Z 256); [|done]. rewrite <- Z2Qc_inj_0, <- Z2Qc_inj_le. lia.
    - right. rewrite decide_False.
      + assert (this y <= inject_Z (-1))%Q as H' by exact H.
        apply Qceiling_resp_le in H'. by rewrite Qceiling_Z in H'.
      + apply Qclt_not_le. eapply Qcle_lt_trans; [exact H|].
        rewrite <- Z2Qc_inj_0, <- Z2Qc_inj_lt. lia. }
  unfold pack_unsigned. change (256 ^ Z.of_nat 1) with 256.
  destruct Hr.
  - rewrite (proj2 (andb_false_iff _ _)); [done|]. right. apply Z.ltb_ge. lia.
  - rewrite (proj2 (andb_false_iff _ _)); [done|]. left. apply Z.leb_gt. lia.
Qed.

(** X20.  A pooled colour with a component of 256/255 or more, or of
    -1/255 or less: the binary writer raises when it packs the colour
    map, and no file is written. *)
Theorem color_out_of_range_fails (c : config) (t : tables) (m : content)
    (col : color) (x : Qc) :
  col ∈ cmap t → x ∈ [cr col; cg col; cb col; ca col] →
  (Qc_of_Z 256 ≤ x * Qc_of_Z 255 ∨ x * Qc_of_Z 255 ≤ Qc_of_Z (-1))%Qc →
  write_binary pack_f pack_d zlib_compress logname c t m = None.
Proof.
  intros Hcol Hx Hr. unfold write_binary.
  assert (chunks pack_f pack_d logname c t m = None) as ->; [|done].
  unfold chunks. destruct (string_table logname c (strs t)) as [[st stridx] o].
  apply cat_None. apply list_elem_of_further, elem_of_cons. left. symmetry.
  unfold cmap_chunk, select_widths. cbn [ci_s].
  assert (0 < py_len (cmap t)) as Hlen.
  { unfold py_len. destruct (cmap t); [by apply elem_of_nil in Hcol|]. simpl. lia. }
  pose proof (idxsize_range (py_len (cmap t))) as Hw.
  rewrite (proj2 (andb_true_iff _ _)) by (split; apply Z.ltb_lt; lia).
  rewrite (for_each_None _ _ col); [done|done|].
  apply (for_each_None _ _ x); [done|]. by apply component_out_of_byte.
Qed.

Lemma addidx_length (fmt idx : Z) (b : list byte) :
  addidx fmt idx = Some b → length b = idx_bytes fmt.
Proof.
  unfold addidx, idx_bytes.
  destruct (fmt =? 0); [by intros [_ ->]%pack_unsigned_Some; rewrite length_le_bytes|].
  destruct (fmt =? 1); [by intros [_ ->]%pack_unsigned_Some; rewrite length_le_bytes|].
  destruct (fmt =? 2); [by intros [_ ->]%pack_unsigned_Some; rewrite length_le_bytes|].
  by intros [= <-].
Qed.

Lemma pack_signed_length (n : nat) (v : Z) (b : list byte) :
  pack_signed n v = Some b → length b = n.
Proof.
  unfold pack_signed. cbv zeta. destruct (_ && _); [|done]. intros [= <-].
  apply length_le_bytes.
Qed.

End BinaryFailures.

Section BinaryFailureExamples.
Import Num Tables Index Model Binary.

Lemma color_out_of_range_fails_witness :
  write_binary Samples.four_bytes Samples.eight_bytes Samples.stored "me"
    Samples.config0
    {| cmap := [{| cr := Examples.q 3 2; cg := Examples.q 1 1; cb := Examples.q 1 1;
                   ca := Examples.q 1 1 |}];
       strs := strs Samples.triangle_tables; verts := verts Samples.triangle_tables;
       tmaps := []; bones := []; skins := []; inlined := [] |}
    Samples.triangle_content = None.
Proof.
  apply (color_out_of_range_fails _ _ _ _ _ _ _
           {| cr := Examples.q 3 2; cg := Examples.q 1 1; cb := Examples.q 1 1;
              ca := Examples.q 1 1 |} (Examples.q 3 2)).
  - apply list_elem_of_here.
  - apply list_elem_of_here.
  - left. vm_compute. discriminate.
Defined.

End BinaryFailureExamples.

Section RecordFacts.
Import Num Tables Index Model Binary Layout Records.

Variable pack_f : Qc -> list byte.
Variable pack_d : Qc -> list byte.
Hypothesis pack_f_length : ∀ x, length (pack_f x) = 4%nat.
Hypothesis pack_d_length : ∀ x, length (pack_d x) = 8%nat.

Variable c : config.
Variable t : tables.

Lemma coordinate_length (x : Qc) (b : list byte) :
  coordinate pack_f pack_d c x = Some b → length b = coordinate_bytes (use_quality c).
Proof.
  unfold coordinate, coordinate_bytes.
  destruct (use_quality c =? 0); [apply pack_signed_length|].
  destruct (use_quality c =? 1); [apply pack_signed_length|].
  destruct (use_quality c =? 3); intros [= <-]; [apply pack_d_length|apply pack_f_length].
Qed.

Lemma color_ref_length (w : widths) (i : Z) (b : list byte) :
  color_ref w i = Some b → length b = idx_bytes (ci_s w).
Proof. unfold color_ref. destruct (ci_s w <? 4); [apply addidx_length|done]. Qed.

(** X21.  When the vertex chunk is written, its payload is one record per
    pooled vertex, and every record has the same size: four coordinates
    of the size of the quality setting, then a colour reference and a
    skin reference of the widths announced in the header flags. *)
Theorem vertex_records_fixed_size (w : widths) (bs : list byte) :
  verts t ≠ [] →
  vrts_chunk pack_f pack_d c t w = Some bs →
  ∃ o, (bs = framed (bytes_of "VRTS") o)
       ∧ length o = (vertex_bytes c w * length (verts t))%nat.
Proof.
  intros Hne H. unfold vrts_chunk in H.
  assert ((0 <? py_len (verts t)) = true) as E.
  { apply Z.ltb_lt. unfold py_len. destruct (verts t); [done|]. simpl. lia. }
  rewrite E in H. apply bind_Some in H as (o & Ho & H). exists o. split.
  - unfold chunk in H. apply bind_Some in H as (len & Hlen & H).
    apply pack_unsigned_Some in Hlen as [_ ->]. by simplify_eq.
  - revert Ho. apply for_each_length. intros v b _ Hb.
    apply cat_cons_Some in Hb as (b1 & r1 & H1 & Hb & ->).
    apply cat_cons_Some in Hb as (b2 & r2 & H2 & Hb & ->).
    apply cat_cons_Some in Hb as (b3 & r3 & H3 & Hb & ->).
    apply cat_cons_Some in Hb as (b4 & r4 & H4 & Hb & ->).
    apply cat_cons_Some in Hb as (b5 & r5 & H5 & Hb & ->).
    apply cat_cons_Some in Hb as (b6 & r6 & H6 & Hb & ->).
    apply cat_nil_Some in Hb as ->.
    apply coordinate_length in H1, H2, H3, H4. apply color_ref_length in H5.
    apply addidx_length in H6. rewrite !length_app, H1, H2, H3, H4, H5, H6.
    unfold vertex_bytes. simpl. lia.
Qed.

End RecordFacts.

Section RecordExamples.
Import Num Tables Index Model Binary Layout Records.

Lemma vertex_records_fixed_size_witness :
  ∃ o, Byte.x56 :: Byte.x52 :: Byte.x54 :: Byte.x53 :: le_bytes 4 23
         ++ [Byte.x00; Byte.x00; Byte.x00; Byte.x7f; Byte.x00;
             Byte.x7f; Byte.x00; Byte.x00; Byte.x7f; Byte.x00;
             Byte.x00; Byte.x7f; Byte.x00; Byte.x7f; Byte.x00]
       = framed (bytes_of "VRTS") o
       ∧ length o = (vertex_bytes Samples.config0
                       (select_widths Samples.config0 Samples.triangle_tables
                          Samples.triangle_content 12)
                     * length (verts Samples.triangle_tables))%nat.
Proof.
  apply (vertex_records_fixed_size Samples.four_bytes Samples.eight_bytes).
  - intros x. reflexivity.
  - intros x. reflexivity.
  - discriminate.
  - vm_compute. reflexivity.
Defined.

End RecordExamples.

(** ** The depth of the bone hierarchy *)

Section HierarchyFacts.
Import Num Tables Model Ascii Hierarchy.

Variable t : tables.

Lemma reach_depth (d d' : nat) (p : Z) : reach t d p → reach t d' p → d = d'.
Proof.
  intros H. revert d'. induction H as [|d p i b Hp IH Hi Hb Hpar]; intros d' H'.
  - inversion H' as [|? ? ? ? ? Hi' ? ?]; [done|lia].
  - inversion H' as [E|d0 p0 i0 b0 Hp0 Hi0 Hb0 Hpar0]; subst; [lia|].
    f_equal. apply IH. rewrite Hb in Hb0. by simplify_eq.
Qed.

(** The indices on the way from the root to a call are different bones. *)
Lemma reach_path (d : nat) (p : Z) :
  reach t d p →
  ∃ l : list Z, length l = d ∧ NoDup l
    ∧ Forall (fun j => 0 ≤ j < py_len (bones t) ∧ ∃ k, (k ≤ d)%nat ∧ reach t k j) l.
Proof.
  induction 1 as [|d p i b Hp (l & Hlen & Hnd & Hl) Hi Hb Hpar].
  - exists []. split_and!; [done|constructor|constructor].
  - exists (i :: l). split_and!.
    + simpl. by rewrite Hlen.
    + constructor; [|done]. intros Hin.
      apply (proj1 (Forall_forall _ _) Hl) in Hin as (_ & k & Hk & Hr).
      assert (k = S d) by (eapply reach_depth; [exact Hr|by econstructor]). lia.
    + constructor.
      * split.
        -- apply lookup_lt_Some in Hb. unfold py_len. lia.
        -- exists (S d). split; [lia|by econstructor].
      * eapply Forall_impl; [exact Hl|]. cbv beta. intros j (Hj & k & Hk & Hr).
        split; [done|]. exists k. split; [lia|done].
Qed.

Lemma reach_bound (d : nat) (p : Z) : reach t d p → (d ≤ length (bones t))%nat.
Proof.
  intros (l & <- & Hnd & Hl)%reach_path.
  assert (l ⊆+ seqZ 0 (py_len (bones t))) as Hsub.
  { apply NoDup_submseteq; [done|]. intros j Hj.
    apply (proj1 (Forall_forall _ _) Hl) in Hj as (Hj & _). apply elem_of_seqZ. lia. }
  apply submseteq_length in Hsub. rewrite length_seqZ in Hsub. unfold py_len in Hsub. lia.
Qed.

Lemma scat_ext (l k : list (option string)) : l = k → scat l = scat k.
Proof. by intros ->. Qed.

Lemma each_ext {A} (l : list A) (f g : A → option string) :
  (∀ x, x ∈ l → f x = g x) → each l f = each l g.
Proof.
  intros H. unfold each. f_equal. apply map_ext_in. intros x Hx. apply H.
  by apply list_elem_of_In.
Qed.

Lemma enumerate_lookup {A} (l : list A) (i : Z) (x : A) :
  (i, x) ∈ zip (seqZ 0 (py_len l)) l → 0 ≤ i ∧ l !! Z.to_nat i = Some x.
Proof.
  intros (n & Hn)%list_elem_of_lookup_1.
  apply lookup_zip_with_Some in Hn as (a & b & E & Ha & Hb). simplify_eq.
  apply lookup_seqZ in Ha as [-> _]. split; [lia|].
  by replace (Z.to_nat (0 + Z.of_nat n)) with n by lia.
Qed.

(** A call at depth [d] gives the same text for any two allowances that
    cover the levels that can lie below it. *)
Lemma bonestr_fuel (k d : nat) (p : Z) (level f1 f2 : nat) :
  reach t d p → (length (bones t) - d ≤ k)%nat → (k < f1)%nat → (k < f2)%nat →
  bonestr f1 t p level = bonestr f2 t p level.
Proof.
  revert d p level f1 f2.
  induction k as [|k IH]; intros d p level f1 f2 Hr Hk H1 H2;
    (destruct f1 as [|f1]; [lia|]); (destruct f2 as [|f2]; [lia|]);
    cbn [bonestr]; apply each_ext; intros [i b] Hib; cbn [fst snd];
    destruct (Z.eqb_spec (b_parent b) p) as [Hp|]; try reflexivity;
    apply enumerate_lookup in Hib as [Hi Hb];
    pose proof (reach_child t d p i b Hr Hi Hb Hp) as Hc;
    pose proof (reach_bound _ _ Hc) as Hbound.
  - lia.
  - rewrite (IH (S d) i (S level) f1 f2); [reflexivity|done|lia|lia|lia].
Qed.

(** X22.  The recursion that writes the bone hierarchy of the ASCII file
    ends on every bone table, also on one whose parent entries form a
    cycle: no call is nested deeper than the number of bones, so the text
    written is the same for every deeper limit on the nesting. *)
Theorem bonestr_terminates (extra : nat) :
  bonestr (S (length (bones t)) + extra) t (-1) 0 = bonestr (S (length (bones t))) t (-1) 0.
Proof.
  apply (bonestr_fuel (length (bones t)) 0); [constructor|lia|lia|lia].
Qed.

End HierarchyFacts.

(** ** The actions taken from the timeline markers *)

Section ActsFacts.
Import Num Tables Anim Acts.

Local Abbreviation by_frame := (fun t u : marker => mk_frame t ≤ mk_frame u).
Local Abbreviation apart := (fun a b : act => act_end a < act_start b).

Lemma elem_of_insert_marker (x t : marker) (l : list marker) :
  x ∈ insert_marker t l ↔ x = t ∨ x ∈ l.
Proof.
  induction l as [|u l IH]; cbn [insert_marker].
  - rewrite list_elem_of_singleton, elem_of_nil. tauto.
  - destruct (mk_frame t <=? mk_frame u).
    + by rewrite elem_of_cons.
    + rewrite !elem_of_cons, IH. tauto.
Qed.

Lemma insert_marker_sorted (t : marker) (l : list marker) :
  StronglySorted by_frame l → StronglySorted by_frame (insert_marker t l).
Proof.
  induction 1 as [|u l Hl IH Hu]; cbn [insert_marker].
  - by repeat constructor.
  - destruct (Z.leb_spec (mk_frame t) (mk_frame u)) as [Hle|Hlt].
    + constructor; [by constructor|]. constructor; [done|].
      eapply Forall_impl; [exact Hu|]. cbv beta. lia.
    + constructor; [done|]. apply Forall_forall. intros x Hx.
      apply elem_of_insert_marker in Hx as [->|Hx]; [lia|].
      by apply (proj1 (Forall_forall _ _) Hu).
Qed.

Lemma sorted_markers_sorted (l : list marker) : StronglySorted by_frame (sorted_markers l).
Proof.
  induction l as [|t l IH]; [constructor|]. by apply insert_marker_sorted.
Qed.

Lemma elem_of_sorted_markers (x : marker) (l : list marker) : x ∈ sorted_markers l ↔ x ∈ l.
Proof.
  induction l as [|t l IH]; [done|].
  unfold sorted_markers. cbn [foldr]. fold (sorted_markers l).
  by rewrite elem_of_insert_marker, elem_of_cons, IH.
Qed.

Lemma apart_snoc (l : list act) (a : act) :
  StronglySorted apart l → Forall (fun b => act_end b < act_start a) l →
  StronglySorted apart (l ++ [a]).
Proof.
  intros Hl Ha. apply StronglySorted_app_2; [|exact Hl|repeat constructor].
  intros b c Hb Hc. apply list_elem_of_singleton in Hc as ->.
  by apply (proj1 (Forall_forall _ _) Ha).
Qed.

(** What the loop over the sorted markers keeps: the actions so far lie
    apart, each one spans more than one frame of a marker, all end before
    the markers still to come, and [nf] counts their frames. *)
Lemma marker_acts_loop (fe : Z) (all tlm : list marker) (acc : list act * Z) :
  StronglySorted by_frame tlm → tlm ⊆ all →
  StronglySorted apart (fst acc) →
  Forall (fun a => act_index a = -1 ∧ act_start a < act_end a
            ∧ ∃ t, t ∈ all ∧ act_start a = mk_frame t
                   ∧ act_name a = Names.safestr (Some (mk_name t)) 0) (fst acc) →
  Forall (fun a => Forall (fun t => act_end a < mk_frame t) tlm) (fst acc) →
  (0 ≤ snd acc ∧ (snd acc = 0 ↔ fst acc = [])) →
  let r := marker_acts fe tlm acc in
  StronglySorted apart (fst r)
  ∧ Forall (fun a => act_index a = -1 ∧ act_start a < act_end a
              ∧ ∃ t, t ∈ all ∧ act_start a = mk_frame t
                     ∧ act_name a = Names.safestr (Some (mk_name t)) 0) (fst r)
  ∧ (0 ≤ snd r ∧ (snd r = 0 ↔ fst r = [])).
Proof.
  intros Hs. revert acc. induction Hs as [|t rest Hrest IH Ht]; intros acc Hsub Ha Hf Hb Hn.
  - cbn [marker_acts]. done.
  - cbn [marker_acts]. cbv zeta.
    set (et := match rest with [] => fe | u :: _ => mk_frame u - 1 end).
    assert (Forall (fun u => et < mk_frame u) rest) as Het.
    { subst et. destruct rest as [|u rest']; [constructor|].
      apply StronglySorted_inv in Hrest as [_ Hu]. constructor; [lia|].
      eapply Forall_impl; [exact Hu|]. cbv beta. lia. }
    assert (rest ⊆ all) as Hsub'.
    { intros x Hx. apply Hsub. by apply list_elem_of_further. }
    assert (Forall (fun a => Forall (fun u => act_end a < mk_frame u) rest) (fst acc)) as Hb'.
    { eapply Forall_impl; [exact Hb|]. cbv beta. intros a Hat.
      by apply Forall_cons in Hat as [_ ?]. }
    destruct (Z.ltb_spec (mk_frame t) et) as [Hlt|Hge]; [|by apply IH].
    apply IH; cbn [fst snd]; [done| | | |].
    + apply apart_snoc; [done|]. eapply Forall_impl; [exact Hb|]. cbv beta.
      intros a Hat. by apply Forall_cons in Hat as [? _].
    + apply Forall_app. split; [done|]. constructor; [|constructor]. cbn.
      split_and!; [done|done|]. exists t. split_and!; [|done|done].
      apply Hsub, list_elem_of_here.
    + apply Forall_app. split; [done|]. constructor; [|constructor]. exact Het.
    + destruct Hn as [Hn0 _]. split; [lia|]. split; [lia|].
      intros E. by apply app_eq_nil in E as [_ ?].
Qed.

(** X23.  With markers on the timeline and marker mode on, the actions
    to sample never share a frame and come in the order of the frames;
    each one starts at a marker, bears its cleaned name, spans more than
    one frame and has no pose index.  When no marker leaves such a span,
    the single action [Anim] over the frame range of the scene is sampled
    instead; in both cases there is at least one action. *)
Theorem marker_actions_apart (sc : scene) (bpy_actions : list bpy_action) :
  timeline_markers sc ≠ [] →
  let acts := collect_acts true sc bpy_actions in
  acts ≠ []
  ∧ StronglySorted (fun a b => act_end a < act_start b) acts
  ∧ Forall (fun a => act_index a = -1) acts
  ∧ (Forall (fun a => act_start a < act_end a
               ∧ ∃ t, t ∈ timeline_markers sc ∧ act_start a = mk_frame t
                      ∧ act_name a = Names.safestr (Some (mk_name t)) 0) acts
     ∨ acts = [{| act_name := "Anim"; act_index := -1;
                  act_start := frame_start sc; act_end := frame_end sc |}]).
Proof.
  intros Hne. unfold collect_acts.
  assert ((0 <? py_len (timeline_markers sc)) = true) as ->.
  { apply Z.ltb_lt. unfold py_len. destruct (timeline_markers sc); [done|]. simpl. lia. }
  cbn [andb].
  pose proof (marker_acts_loop (frame_end sc) (timeline_markers sc)
                (sorted_markers (timeline_markers sc)) ([], 0)) as H.
  cbv zeta in H.
  destruct (marker_acts (frame_end sc) (sorted_markers (timeline_markers sc)) ([], 0))
    as [acts nf].
  cbn [fst snd] in H.
  destruct H as (Hs & Hf & Hn0 & Hn).
  - apply sorted_markers_sorted.
  - intros x. apply elem_of_sorted_markers.
  - constructor.
  - constructor.
  - constructor.
  - split; [lia|done].
  - destruct (Z.eqb_spec nf 0) as [E|E].
    + apply (proj1 Hn) in E as ->. cbn [app]. split_and!.
      * done.
      * by repeat constructor.
      * by repeat constructor.
      * by right.
    + split_and!.
      * intros ->. by apply E, Hn.
      * done.
      * eapply Forall_impl; [exact Hf|]. cbv beta. by intros a (? & _).
      * left. eapply Forall_impl; [exact Hf|]. cbv beta. by intros a (_ & ? & ?).
Qed.

End ActsFacts.

Section ActsExamples.
Import Num Tables Anim Acts.

Lemma marker_actions_apart_witness :
  let acts := collect_acts true
                {| timeline_markers := [ {| mk_name := "run"; mk_frame := 20 |};
                                         {| mk_name := "idle"; mk_frame := 1 |};
                                         {| mk_name := "cut"; mk_frame := 20 |} ];
                   frame_start := 1; frame_end := 40 |} [] in
  acts ≠ []
  ∧ StronglySorted (fun a b => act_end a < act_start b) acts
  ∧ Forall (fun a => act_index a = -1) acts
  ∧ (Forall (fun a => act_start a < act_end a
               ∧ ∃ t, t ∈ [ {| mk_name := "run"; mk_frame := 20 |};
                            {| mk_name := "idle"; mk_frame := 1 |};
                            {| mk_name := "cut"; mk_frame := 20 |} ]
                      ∧ act_start a = mk_frame t
                      ∧ act_name a = Names.safestr (Some (mk_name t)) 0) acts
     ∨ acts = [{| act_name := "Anim"; act_index := -1; act_start := 1; act_end := 40 |}]).
Proof.
  apply (marker_actions_apart
           {| timeline_markers := [ {| mk_name := "run"; mk_frame := 20 |};
                                    {| mk_name := "idle"; mk_frame := 1 |};
                                    {| mk_name := "cut"; mk_frame := 20 |} ];
              frame_start := 1; frame_end := 40 |} []).
  simpl. discriminate.
Defined.

End ActsExamples.
